(** * Verification model of the metaplex-nft-mint scripts

    The repository is a set of command-line scripts (TypeScript) that mint
    NFTs on Solana through the Metaplex SDK.  The logic of its own is:
    the choice of the network configuration, a bounded retry loop around
    SDK calls, the extraction of Solana wallet addresses from a CSV column
    holding Python-style JSON, and a batch loop with a delay between
    batches.  This file embeds that logic and proves the properties the
    specification states about it.

    Three scripts mint: the single-NFT script (src/index.ts, [main]), the
    per-user script ([readUsersFromCSV], [mintNFTForUser], [main_users])
    and the compressed-NFT script (Bubblegum, [main_compressed]).  What
    lies outside the scripts (Node, web3.js, the Metaplex SDKs) is an
    oracle that answers each call with a value or a thrown error; the
    theorems hold for every oracle.

    Strings are byte strings ([String.string]): a JavaScript string is
    represented by its (generalised) UTF-8 encoding.  All the characters
    the code inspects are ASCII, so byte positions and code-unit positions
    agree on every match. *)

From Stdlib Require Import String Ascii List Bool Arith ZArith Lia.
Import ListNotations.
Open Scope string_scope.

(* ================================================================== *)
(** * JavaScript strings *)
(* ================================================================== *)

Module JsString.

(** The double quote character. *)
Definition dquote : ascii := "034"%char.
Definition backslash : ascii := "092"%char.

(** [s.replace(/pat/g, rep)] for a literal, non-empty pattern: scan from the
    left; at a position where [pat] matches, emit [rep] and resume after
    the match; elsewhere keep the character.  [skip] counts the characters
    of the current match that are still to be passed over. *)
Fixpoint replace_from (pat rep : string) (skip : nat) (s : string) : string :=
  match s with
  | EmptyString => EmptyString
  | String c s' =>
      match skip with
      | S k => replace_from pat rep k s'
      | O =>
          if prefix pat s
          then rep ++ replace_from pat rep (pred (String.length pat)) s'
          else String c (replace_from pat rep O s')
      end
  end.

Definition replaceAll (pat rep s : string) : string := replace_from pat rep 0 s.

(** Membership of a character in a string. *)
Fixpoint mem (c : ascii) (s : string) : bool :=
  match s with
  | EmptyString => false
  | String d s' => Ascii.eqb c d || mem c s'
  end.

(** [s.slice(n)]. *)
Fixpoint drop (n : nat) (s : string) : string :=
  match n, s with
  | S k, String _ s' => drop k s'
  | _, _ => s
  end.

End JsString.

(* ================================================================== *)
(** * JSON values and [JSON.parse] *)
(* ================================================================== *)

Module Json.
Import JsString.

(** A parsed JSON value.  A number keeps the exact decimal value of its
    literal, [mantissa * 10 ^ exp10]; JavaScript rounds it to a double, and
    the only thing the scripts ever observe of a number is whether that
    double is zero ([number_is_zero]).  An object keeps its members in
    source order; a later duplicate key wins ([get]). *)
#[warnings="-register-all"]
Inductive jsval : Type :=
| JNull
| JBool (b : bool)
| JNum (mantissa exp10 : Z)
| JStr (s : string)
| JArr (elems : list jsval)
| JObj (members : list (string * jsval)).

Inductive presult (A : Type) : Type :=
| POk (a : A) (rest : string)
| PSyntaxError
| POutOfFuel.
Arguments POk {A} a rest.
Arguments PSyntaxError {A}.
Arguments POutOfFuel {A}.

Definition is_ws (c : ascii) : bool :=
  Ascii.eqb c " " || Ascii.eqb c "009" || Ascii.eqb c "010" || Ascii.eqb c "013".

Fixpoint skip_ws (s : string) : string :=
  match s with
  | EmptyString => EmptyString
  | String c s' => if is_ws c then skip_ws s' else s
  end.

Definition is_digit (c : ascii) : bool :=
  (48 <=? N_of_ascii c)%N && (N_of_ascii c <=? 57)%N.

Definition digit_val (c : ascii) : Z := (Z.of_N (N_of_ascii c) - 48)%Z.

Definition hex_val (c : ascii) : option N :=
  let n := N_of_ascii c in
  if (48 <=? n)%N && (n <=? 57)%N then Some (n - 48)%N
  else if (65 <=? n)%N && (n <=? 70)%N then Some (n - 55)%N
  else if (97 <=? n)%N && (n <=? 102)%N then Some (n - 87)%N
  else None.

Definition hex4 (a b c d : ascii) : option N :=
  match hex_val a, hex_val b, hex_val c, hex_val d with
  | Some x, Some y, Some z, Some w => Some (((x * 16 + y) * 16 + z) * 16 + w)%N
  | _, _, _, _ => None
  end.

(** Generalised UTF-8 of a code point below 0x110000 (a lone surrogate is
    encoded like any other three-byte code point). *)
Definition utf8 (n : N) : string :=
  let b := ascii_of_N in
  (if n <? 128 then String (b n) EmptyString
   else if n <? 2048 then
     String (b (192 + n / 64)) (String (b (128 + n mod 64)) EmptyString)
   else if n <? 65536 then
     String (b (224 + n / 4096))
       (String (b (128 + (n / 64) mod 64)) (String (b (128 + n mod 64)) EmptyString))
   else
     String (b (240 + n / 262144))
       (String (b (128 + (n / 4096) mod 64))
          (String (b (128 + (n / 64) mod 64)) (String (b (128 + n mod 64)) EmptyString))))%N.

Definition is_high_surrogate (n : N) : bool := (55296 <=? n)%N && (n <? 56320)%N.
Definition is_low_surrogate (n : N) : bool := (56320 <=? n)%N && (n <? 57344)%N.

Definition simple_escape (e : ascii) : option ascii :=
  if Ascii.eqb e dquote then Some dquote
  else if Ascii.eqb e backslash then Some backslash
  else if Ascii.eqb e "/" then Some "/"%char
  else if Ascii.eqb e "b" then Some "008"%char
  else if Ascii.eqb e "f" then Some "012"%char
  else if Ascii.eqb e "n" then Some "010"%char
  else if Ascii.eqb e "r" then Some "013"%char
  else if Ascii.eqb e "t" then Some "009"%char
  else None.

Definition prepend (p : string) (r : option (string * string)) : option (string * string) :=
  match r with
  | Some (body, rest) => Some (p ++ body, rest)
  | None => None
  end.

(** The characters of a string literal after its opening quote: the decoded
    string and the text after the closing quote.  [pending] is a high
    surrogate read from the previous escape, waiting for its low half. *)
Fixpoint parse_chars (pending : option N) (s : string) : option (string * string) :=
  let flush := match pending with Some hi => utf8 hi | None => EmptyString end in
  match s with
  | EmptyString => None
  | String c s' =>
      if Ascii.eqb c dquote then Some (flush, s')
      else if Ascii.eqb c backslash then
        match s' with
        | EmptyString => None
        | String e s'' =>
            if Ascii.eqb e "u" then
              match s'' with
              | String h1 (String h2 (String h3 (String h4 s5))) =>
                  match hex4 h1 h2 h3 h4 with
                  | None => None
                  | Some n =>
                      match pending with
                      | Some hi =>
                          if is_low_surrogate n
                          then prepend (utf8 (65536 + (hi - 55296) * 1024 + (n - 56320))%N)
                                       (parse_chars None s5)
                          else if is_high_surrogate n
                          then prepend (utf8 hi) (parse_chars (Some n) s5)
                          else prepend (utf8 hi ++ utf8 n) (parse_chars None s5)
                      | None =>
                          if is_high_surrogate n
                          then parse_chars (Some n) s5
                          else prepend (utf8 n) (parse_chars None s5)
                      end
                  end
              | _ => None
              end
            else
              match simple_escape e with
              | Some ch => prepend (flush ++ String ch EmptyString) (parse_chars None s'')
              | None => None
              end
        end
      else if (N_of_ascii c <? 32)%N then None
      else prepend (flush ++ String c EmptyString) (parse_chars None s')
  end.

(** A maximal run of digits: its value, its length, and the rest. *)
Fixpoint span_digits (acc : Z) (n : nat) (s : string) : Z * nat * string :=
  match s with
  | EmptyString => (acc, n, s)
  | String c s' =>
      if is_digit c then span_digits (acc * 10 + digit_val c)%Z (S n) s' else (acc, n, s)
  end.

(** A number literal: an optional minus sign; an integer part, which is
    either 0 or a non-zero digit followed by digits; an optional fraction
    (a dot and at least one digit); an optional exponent (e or E, an
    optional sign, at least one digit). *)
Definition parse_number (s : string) : presult jsval :=
  let '(neg, s1) :=
    match s with
    | String c r => if Ascii.eqb c "-" then (true, r) else (false, s)
    | EmptyString => (false, s)
    end in
  let int_part : option (Z * string) :=
    match s1 with
    | String c r =>
        if Ascii.eqb c "0" then Some (0%Z, r)
        else if is_digit c then
          let '(v, _, r') := span_digits (digit_val c) 1 r in Some (v, r')
        else None
    | EmptyString => None
    end in
  match int_part with
  | None => PSyntaxError
  | Some (iv, s2) =>
      let frac_part : option (Z * nat * string) :=
        match s2 with
        | String c r =>
            if Ascii.eqb c "." then
              let '(v, n, r') := span_digits iv 0 r in
              if (n =? 0)%nat then None else Some (v, n, r')
            else Some (iv, 0, s2)
        | EmptyString => Some (iv, 0, s2)
        end in
      match frac_part with
      | None => PSyntaxError
      | Some (m, nfrac, s3) =>
          let exp_part : option (Z * string) :=
            match s3 with
            | String c r =>
                if Ascii.eqb c "e" || Ascii.eqb c "E" then
                  let '(eneg, r1) :=
                    match r with
                    | String sg r0 =>
                        if Ascii.eqb sg "-" then (true, r0)
                        else if Ascii.eqb sg "+" then (false, r0)
                        else (false, r)
                    | EmptyString => (false, r)
                    end in
                  let '(v, n, r') := span_digits 0 0 r1 in
                  if (n =? 0)%nat then None
                  else Some ((if eneg then - v else v)%Z, r')
                else Some (0%Z, s3)
            | EmptyString => Some (0%Z, s3)
            end in
          match exp_part with
          | None => PSyntaxError
          | Some (e, s4) =>
              POk (JNum (if neg then - m else m)%Z (e - Z.of_nat nfrac)%Z) s4
          end
      end
  end.

(** Recursive descent over the JSON grammar.  [fuel] bounds the recursion
    depth; [parse_value_fuel] shows that [2 * length s + 1] is always
    enough, so that [JSON_parse] never fails for lack of fuel. *)
Fixpoint parse_value (fuel : nat) (s : string) : presult jsval :=
  match fuel with
  | O => POutOfFuel
  | S fuel' =>
      match skip_ws s with
      | EmptyString => PSyntaxError
      | String c r =>
          if Ascii.eqb c "[" then
            match skip_ws r with
            | String c' r' =>
                if Ascii.eqb c' "]" then POk (JArr []) r'
                else
                  match parse_elements fuel' r [] with
                  | POk vs rest => POk (JArr vs) rest
                  | PSyntaxError => PSyntaxError
                  | POutOfFuel => POutOfFuel
                  end
            | EmptyString => PSyntaxError
            end
          else if Ascii.eqb c "{" then
            match skip_ws r with
            | String c' r' =>
                if Ascii.eqb c' "}" then POk (JObj []) r'
                else
                  match parse_members fuel' r [] with
                  | POk ms rest => POk (JObj ms) rest
                  | PSyntaxError => PSyntaxError
                  | POutOfFuel => POutOfFuel
                  end
            | EmptyString => PSyntaxError
            end
          else if Ascii.eqb c dquote then
            match parse_chars None r with
            | Some (str, rest) => POk (JStr str) rest
            | None => PSyntaxError
            end
          else if prefix "true" (String c r) then POk (JBool true) (drop 4 (String c r))
          else if prefix "false" (String c r) then POk (JBool false) (drop 5 (String c r))
          else if prefix "null" (String c r) then POk JNull (drop 4 (String c r))
          else parse_number (String c r)
      end
  end

with parse_elements (fuel : nat) (s : string) (acc : list jsval) : presult (list jsval) :=
  match fuel with
  | O => POutOfFuel
  | S fuel' =>
      match parse_value fuel' s with
      | POk v r =>
          match skip_ws r with
          | String c r' =>
              if Ascii.eqb c "," then parse_elements fuel' r' (v :: acc)
              else if Ascii.eqb c "]" then POk (rev (v :: acc)) r'
              else PSyntaxError
          | EmptyString => PSyntaxError
          end
      | PSyntaxError => PSyntaxError
      | POutOfFuel => POutOfFuel
      end
  end

with parse_members (fuel : nat) (s : string) (acc : list (string * jsval))
  : presult (list (string * jsval)) :=
  match fuel with
  | O => POutOfFuel
  | S fuel' =>
      match skip_ws s with
      | String q r =>
          if Ascii.eqb q dquote then
            match parse_chars None r with
            | Some (key, r1) =>
                match skip_ws r1 with
                | String c r2 =>
                    if Ascii.eqb c ":" then
                      match parse_value fuel' r2 with
                      | POk v r3 =>
                          match skip_ws r3 with
                          | String c' r4 =>
                              if Ascii.eqb c' "," then parse_members fuel' r4 ((key, v) :: acc)
                              else if Ascii.eqb c' "}" then POk (rev ((key, v) :: acc)) r4
                              else PSyntaxError
                          | EmptyString => PSyntaxError
                          end
                      | PSyntaxError => PSyntaxError
                      | POutOfFuel => POutOfFuel
                      end
                    else PSyntaxError
                | EmptyString => PSyntaxError
                end
            | None => PSyntaxError
            end
          else PSyntaxError
      | EmptyString => PSyntaxError
      end
  end.

(** [JSON.parse(text)]: [None] is a thrown [SyntaxError]. *)
Definition JSON_parse (text : string) : option jsval :=
  match parse_value (2 * String.length text + 1)%nat text with
  | POk v rest =>
      match skip_ws rest with
      | EmptyString => Some v
      | String _ _ => None
      end
  | PSyntaxError => None
  | POutOfFuel => None
  end.

(** The double nearest to [m * 10 ^ e] is zero: the value is at most half
    the smallest subnormal, [2 ^ -1075] (a tie rounds to the even
    neighbour, which is zero). *)
Definition number_is_zero (m e : Z) : bool :=
  (m =? 0)%Z
  || ((e <? 0)%Z && (Z.abs m * 2 ^ 1075 <=? 10 ^ (- e))%Z).

(** JavaScript truthiness of a JSON value. *)
Definition truthy (v : jsval) : bool :=
  match v with
  | JNull => false
  | JBool b => b
  | JNum m e => negb (number_is_zero m e)
  | JStr s => negb (String.eqb s EmptyString)
  | JArr _ => true
  | JObj _ => true
  end.

(** [o[key]] on the members of a parsed object: the last binding of [key],
    or [None] for [undefined]. *)
Fixpoint get (key : string) (members : list (string * jsval)) : option jsval :=
  match members with
  | [] => None
  | (k, v) :: rest =>
      match get key rest with
      | Some v' => Some v'
      | None => if String.eqb k key then Some v else None
      end
  end.

End Json.

Import JsString Json.

(* ================================================================== *)
(** * Effects: console, timers, thrown errors and SDK calls *)
(* ================================================================== *)

(** A piece of a template string: literal text, a number, or a value
    (possibly [undefined]) interpolated as it is. *)
Inductive atom : Type :=
| Txt (s : string)
| Num (n : Z)
| Val (v : option jsval).

Definition message : Type := list atom.

(** A thrown value: an [Error] object (with its class name, its message and
    the [transactionLogs] the RPC client attaches to a failed send), or any
    other value. *)
Inductive exn : Type :=
| ErrorObject (name : string) (msg : message) (transactionLogs : option (list string))
| ThrownValue (v : option jsval).

Definition Error (msg : message) : exn := ErrorObject "Error" msg None.
Definition TypeError (msg : message) : exn := ErrorObject "TypeError" msg None.
Definition SyntaxError : exn := ErrorObject "SyntaxError" [Txt "JSON.parse"] None.

(** An argument of [console.log] / [console.error]. *)
Inductive logarg : Type :=
| Msg (m : message)
| Arg (v : option jsval)
| Args (vs : list (option jsval))
| NumArg (n : Z)
| Ratio (n d : Z)
| Lines (ls : list string)
| ErrArg (e : exn).

Definition T (s : string) : logarg := Msg [Txt s].

(** One row of the CSV file as [csv-parse] returns it with [columns: true]:
    the two columns the scripts read, strings both (interface [UserData]). *)
Record UserData : Type := mkUserData { id : string; linked_accounts : string }.

(** [User] of the per-user script; [solanaAddress] is [None] when undefined. *)
Record User : Type := mkUser { user_id : string; solanaAddress : option jsval }.

(** What the scripts read of the result of [metaplex.nfts().create]. *)
Record CreateNftOutput : Type :=
  mkCreateNftOutput { nft_address : string;
                      nft_json : option jsval;
                      response_signature : string }.

(** The calls into Node and the SDKs, indexed by the type of their result.
    Each stands for one expression of the scripts that leaves the script's
    own code and may throw:
    - [ReadFileSync], [CsvParse], [PathJoinCwd]: [fs.readFileSync],
      [parse] of csv-parse (with [columns: true]), [path.join(process.cwd(), _)];
    - [DateToISOString s]: [new Date(Number(s) * 1000).toISOString()];
    - [NewConnection], [GetBalance], [ConfirmTransaction]: web3.js; the
      answer of [ConfirmTransaction] is [confirmation.value.err], [None]
      when it is falsy, and the balance is in lamports;
    - [Bs58Decode], [KeypairFromSecretKey]: the wallet, answered by its
      public key;
    - [MetaplexMake], [UseBundlrStorage], [ToMetaplexFile], [StorageUpload],
      [UploadMetadata], [NftsCreate]: the Metaplex JS SDK
      ([Metaplex.make(_).use(keypairIdentity(_))], [.use(bundlrStorage(_))],
      [storage().upload], [nfts().uploadMetadata], [nfts().create]);
    - [CreateUmi], [GetSlot], [GetBlockTime], [UseKeypairIdentity],
      [GenerateSigner], [CreateTree], [BuilderSendAndConfirm], [UploadJson],
      [PublicKey], [MintV1]: Umi and Bubblegum. *)
Inductive call : Type -> Type :=
| ReadFileSync (path : string) : call string
| CsvParse (content : string) : call (list UserData)
| PathJoinCwd (file : string) : call string
| DateToISOString (seconds : Z) : call string
| NewConnection (endpoint wsEndpoint : option string) : call unit
| Bs58Decode (key : string) : call string
| KeypairFromSecretKey (secretKey : string) : call string
| ConfirmTransaction (signature : string) : call (option string)
| GetBalance (publicKey : string) : call Z
| MetaplexMake (wallet : string) : call unit
| UseBundlrStorage (address providerUrl : option string) : call unit
| ToMetaplexFile (content fileName : string) : call unit
| StorageUpload : call string
| UploadMetadata (name : string) (description : message) (image : string)
    (attributes : list (string * atom)) : call string
| NftsCreate (uri name symbol : string) (isCollection : bool)
    (collection : option string) : call CreateNftOutput
| CreateUmi (endpoint : string) : call unit
| GetSlot : call Z
| GetBlockTime (slot : Z) : call (option Z)
| UseKeypairIdentity (publicKey secretKey : string) : call unit
| GenerateSigner : call string
| CreateTree (merkleTree : string) (maxDepth maxBufferSize : Z) : call unit
| BuilderSendAndConfirm : call unit
| UploadJson : call string
| PublicKey (address : option jsval) : call string
| MintV1 (leafOwner merkleTree uri : string) : call unit.

Inductive event : Type :=
| ConsoleLog (args : list logarg)
| ConsoleError (args : list logarg)
| Sleep (ms : Z)
| Call {R : Type} (c : call R).

(** How a computation ends: a value, a thrown error, or (for a loop run
    with too little fuel) no answer. *)
Inductive outcome (A : Type) : Type :=
| Ret (a : A)
| Throw (e : exn)
| OutOfFuel.
Arguments Ret {A} a.
Arguments Throw {A} e.
Arguments OutOfFuel {A}.

(** The world outside the script (RPC node, storage, file system): each
    call answers with a result or a thrown error and moves the world on. *)
Definition oracle (W : Type) : Type := forall R : Type, call R -> W -> (exn + R) * W.

(** A computation: from a world to an outcome, the next world and the
    events emitted on the way, oldest first. *)
Definition M (W A : Type) : Type := W -> outcome A * W * list event.

Section Monad.
Context {W : Type}.

Definition ret {A} (a : A) : M W A := fun w => (Ret a, w, []).

Definition bind {A B} (m : M W A) (k : A -> M W B) : M W B :=
  fun w =>
    match m w with
    | (Ret a, w1, t1) => let '(r, w2, t2) := k a w1 in (r, w2, (t1 ++ t2)%list)
    | (Throw e, w1, t1) => (Throw e, w1, t1)
    | (OutOfFuel, w1, t1) => (OutOfFuel, w1, t1)
    end.

Definition throw {A} (e : exn) : M W A := fun w => (Throw e, w, []).

Definition diverge {A} : M W A := fun w => (OutOfFuel, w, []).

(** [try { body } catch (error) { handler error }]. *)
Definition try_catch {A} (body : M W A) (handler : exn -> M W A) : M W A :=
  fun w =>
    match body w with
    | (Throw e, w1, t1) => let '(r, w2, t2) := handler e w1 in (r, w2, (t1 ++ t2)%list)
    | other => other
    end.

Definition emit (e : event) : M W unit := fun w => (Ret tt, w, [e]).

Definition console_log (args : list logarg) : M W unit := emit (ConsoleLog args).
Definition console_error (args : list logarg) : M W unit := emit (ConsoleError args).

(** [await new Promise(resolve => setTimeout(resolve, ms))]. *)
Definition sleep (ms : Z) : M W unit := emit (Sleep ms).

(** A value or an exception computed without effects. *)
Definition lift {A} (r : exn + A) : M W A :=
  match r with
  | inl e => throw e
  | inr a => ret a
  end.

Definition perform (ext : oracle W) {R} (c : call R) : M W R :=
  fun w =>
    match ext R c w with
    | (inl e, w') => (Throw e, w', [Call c])
    | (inr r, w') => (Ret r, w', [Call c])
    end.

(** [for (const x of xs) { body x }]. *)
Fixpoint for_of {A} (xs : list A) (body : A -> M W unit) : M W unit :=
  match xs with
  | [] => ret tt
  | x :: rest => bind (body x) (fun _ => for_of rest body)
  end.

(** [xs.map(f)] for a callback with effects. *)
Fixpoint map_M {A B} (f : A -> M W B) (xs : list A) : M W (list B) :=
  match xs with
  | [] => ret []
  | x :: rest => bind (f x) (fun y => bind (map_M f rest) (fun ys => ret (y :: ys)))
  end.

End Monad.

Notation "x <- m ;; k" := (bind m (fun x => k))
  (at level 61, m at next level, right associativity).
Notation "m ;; k" := (bind m (fun _ => k))
  (at level 61, right associativity).

(* ================================================================== *)
(** * NetworkSelector: [NETWORK_CONFIGS] and the environment *)
(* ================================================================== *)

Record NetworkConfig : Type :=
  mkNetworkConfig { rpcUrl : string; bundlrAddress : string; name : string }.

Definition mainnet : NetworkConfig :=
  {| rpcUrl := "https://api.mainnet-beta.solana.com";
     bundlrAddress := "https://node1.bundlr.network";
     name := "Mainnet Beta" |}.

Definition devnet : NetworkConfig :=
  {| rpcUrl := "https://api.devnet.solana.com";
     bundlrAddress := "https://devnet.bundlr.network";
     name := "Devnet" |}.

(** What [NETWORK_CONFIGS[network]] evaluates to: one of the two records of
    the table, a property the object literal inherits from
    [Object.prototype] (named by its key), or [undefined]. *)
Inductive lookup : Type :=
| Own (c : NetworkConfig)
| Inherited (key : string)
| Undefined.

Definition object_prototype_keys : list string :=
  [ "constructor"; "__defineGetter__"; "__defineSetter__"; "hasOwnProperty";
    "__lookupGetter__"; "__lookupSetter__"; "isPrototypeOf";
    "propertyIsEnumerable"; "toString"; "valueOf"; "__proto__";
    "toLocaleString" ].

(** The table, an object literal with two own properties. *)
Definition NETWORK_CONFIGS : list (string * NetworkConfig) :=
  [("mainnet", mainnet); ("devnet", devnet)].

Fixpoint own_property (key : string) (object : list (string * NetworkConfig))
  : option NetworkConfig :=
  match object with
  | [] => None
  | (k, v) :: rest => if String.eqb key k then Some v else own_property key rest
  end.

(** [NETWORK_CONFIGS[network]]: an own property first, then the prototype. *)
Definition config_of (network : string) : lookup :=
  match own_property network NETWORK_CONFIGS with
  | Some c => Own c
  | None =>
      if existsb (String.eqb network) object_prototype_keys then Inherited network
      else Undefined
  end.

Definition undefined_read (field : string) : exn :=
  TypeError [Txt "Cannot read properties of undefined (reading '"; Txt field; Txt "')"].

(** [config.rpcUrl], [config.bundlrAddress], [config.name]: a read on
    [undefined] throws; the inherited functions have a [name] only. *)
Definition config_rpcUrl (config : lookup) : exn + option string :=
  match config with
  | Own c => inr (Some c.(rpcUrl))
  | Inherited _ => inr None
  | Undefined => inl (undefined_read "rpcUrl")
  end.

Definition config_bundlrAddress (config : lookup) : exn + option string :=
  match config with
  | Own c => inr (Some c.(bundlrAddress))
  | Inherited _ => inr None
  | Undefined => inl (undefined_read "bundlrAddress")
  end.

Definition config_name (config : lookup) : exn + option string :=
  match config with
  | Own c => inr (Some c.(name))
  | Inherited key =>
      if String.eqb key "__proto__" then inr None
      else if String.eqb key "constructor" then inr (Some "Object")
      else inr (Some key)
  | Undefined => inl (undefined_read "name")
  end.

(** The environment variables the scripts read ([None]: not set). *)
Record Env : Type :=
  mkEnv { SOLANA_RPC_URL : option string;
          SOLANA_WS_URL : option string;
          WALLET_PRIVATE_KEY : option string }.

(** Truthiness of a string that may be undefined. *)
Definition truthy_string (s : option string) : bool :=
  match s with
  | Some s => negb (String.eqb s EmptyString)
  | None => false
  end.

(** [(process.argv[2] as Network) || 'devnet']. *)
Definition network_of (argv2 : option string) : string :=
  match argv2 with
  | Some token => if truthy_string argv2 then token else "devnet"
  | None => "devnet"
  end.

(** NetworkSelector: the first two statements of [main]. *)
Definition select_network (argv2 : option string) : lookup :=
  config_of (network_of argv2).

(** [process.env.SOLANA_RPC_URL || config.rpcUrl]. *)
Definition rpc_endpoint (env : Env) (config : lookup) : exn + option string :=
  if truthy_string env.(SOLANA_RPC_URL) then inr env.(SOLANA_RPC_URL)
  else config_rpcUrl config.

Definition opt_msg (s : option string) : logarg :=
  match s with
  | Some s => T s
  | None => Arg None
  end.

(* ================================================================== *)
(** * AddressExtractor *)
(* ================================================================== *)

Definition dq : string := String dquote EmptyString.

(** The normalisation of [extractSolanaAddress] (per-user script). *)
Definition normalizedJson (linkedAccounts : string) : string :=
  replaceAll "None" "null"
    (replaceAll "False" "false"
       (replaceAll "True" "true"
          (replaceAll "'" dq linkedAccounts))).

(** The normalisation of the compressed-NFT script (same steps, other order). *)
Definition jsonStr (linked_accounts : string) : string :=
  replaceAll "True" "true"
    (replaceAll "False" "false"
       (replaceAll "None" "null"
          (replaceAll "'" dq linked_accounts))).

(** The callback of [find]:
    [account.type === 'wallet' && account.chain_type === 'solana'].
    Reading a property of [null] throws; any other non-object has neither
    property. *)
Definition is_solana_wallet (account : jsval) : exn + bool :=
  match account with
  | JNull => inl (TypeError [Txt "Cannot read properties of null (reading 'type')"])
  | JObj members =>
      inr match get "type" members with
          | Some (JStr t) =>
              String.eqb t "wallet"
              && match get "chain_type" members with
                 | Some (JStr c) => String.eqb c "solana"
                 | _ => false
                 end
          | _ => false
          end
  | _ => inr false
  end.

Fixpoint find_account (accounts : list jsval) : exn + option jsval :=
  match accounts with
  | [] => inr None
  | account :: rest =>
      match is_solana_wallet account with
      | inl e => inl e
      | inr true => inr (Some account)
      | inr false => find_account rest
      end
  end.

(** [accounts.find(...)] on whatever [JSON.parse] returned: only an array
    has a [find] method. *)
Definition find_solana (accounts : jsval) : exn + option jsval :=
  match accounts with
  | JArr elems => find_account elems
  | JNull => inl (TypeError [Txt "Cannot read properties of null (reading 'find')"])
  | _ => inl (TypeError [Txt "accounts.find is not a function"])
  end.

(** [linkedAccounts.find(...)] of the compressed-NFT script: the same
    method on a variable of another name, which the [TypeError] of a value
    without [find] spells out. *)
Definition find_linked (linkedAccounts : jsval) : exn + option jsval :=
  match linkedAccounts with
  | JArr elems => find_account elems
  | JNull => inl (TypeError [Txt "Cannot read properties of null (reading 'find')"])
  | _ => inl (TypeError [Txt "linkedAccounts.find is not a function"])
  end.

(** [account.address] of a found entry ([None]: undefined). *)
Definition address_of (account : jsval) : option jsval :=
  match account with
  | JObj members => get "address" members
  | _ => None
  end.

(** The [try] block of [extractSolanaAddress]. *)
Definition extract_try (linkedAccounts : string) : exn + option jsval :=
  match JSON_parse (normalizedJson linkedAccounts) with
  | None => inl SyntaxError
  | Some accounts =>
      match find_solana accounts with
      | inl e => inl e
      | inr None => inr None
      | inr (Some solanaAccount) => inr (address_of solanaAccount)
      end
  end.

Definition is_defined {A} (v : option A) : bool :=
  match v with
  | Some _ => true
  | None => false
  end.

Section Scripts.
Context {W : Type} (ext : oracle W).

Definition extractSolanaAddress (linkedAccounts : string) : M W (option jsval) :=
  try_catch (lift (extract_try linkedAccounts))
    (fun error =>
       console_error [T "Error parsing linked accounts:"; ErrArg error];;
       console_error [T "Problematic JSON:"; T linkedAccounts];;
       ret None).

(** [records.map(...).filter(...)] of [readUsersFromCSV]. *)
Definition users_of_records (records : list UserData) : M W (list User) :=
  users <- map_M (fun record =>
                    address <- extractSolanaAddress record.(linked_accounts);;
                    ret (mkUser record.(id) address)) records;;
  ret (filter (fun user => is_defined user.(solanaAddress)) users).

Definition readUsersFromCSV (filePath : string) : M W (list User) :=
  fileContent <- perform ext (ReadFileSync filePath);;
  records <- perform ext (CsvParse fileContent);;
  users_of_records records.

(** The [try] block of the extraction loop of the compressed-NFT script. *)
Definition wallet_try (linked_accounts : string) : exn + option jsval :=
  match JSON_parse (jsonStr linked_accounts) with
  | None => inl SyntaxError
  | Some linkedAccounts => find_linked linkedAccounts
  end.

(** The extraction loop of the compressed-NFT script; [solanaAddresses] is
    the array built so far. *)
Fixpoint collect_addresses (records : list UserData) (solanaAddresses : list (option jsval))
  : M W (list (option jsval)) :=
  match records with
  | [] => ret solanaAddresses
  | record :: rest =>
      solanaAddresses' <-
        try_catch
          (solanaWallet <- lift (wallet_try record.(linked_accounts));;
           match solanaWallet with
           | Some account => ret (solanaAddresses ++ [address_of account])%list
           | None => ret solanaAddresses
           end)
          (fun error =>
             console_error [T "Error parsing linked_accounts:"; ErrArg error];;
             console_error [T "Problematic JSON string:"; T record.(linked_accounts)];;
             ret solanaAddresses);;
      collect_addresses rest solanaAddresses'
  end.

(* ================================================================== *)
(** * RetryingCaller *)
(* ================================================================== *)

Definition maxRetries : nat := 3.

(** The [while (retryCount < maxRetries) { try { ... break } catch ... }]
    loop.  [attempt] is the body of the [try]; the result is the variable
    the body assigns before [break] ([None] while it is unassigned).
    Every pass that does not leave the loop increments [retryCount], so
    [maxRetries] passes are enough ([fuel]). *)
Fixpoint retry_loop {A} (attempt : M W A) (failed : string) (fuel retryCount : nat)
  : M W (option A) :=
  if (retryCount <? maxRetries)%nat then
    match fuel with
    | O => diverge
    | S fuel' =>
        try_catch
          (v <- attempt;; ret (Some v))
          (fun error =>
             let retryCount := S retryCount in
             if (retryCount =? maxRetries)%nat then throw error
             else
               console_log [Msg [Txt failed; Txt ", retrying... (";
                                 Num (Z.of_nat retryCount); Txt "/";
                                 Num (Z.of_nat maxRetries); Txt ")"]];;
               sleep 5000;;
               retry_loop attempt failed fuel' retryCount)
    end
  else ret None.

(** The loop followed by its guard [if (!x) throw new Error(...)]. *)
Definition with_retry {A} (attempt : M W A) (failed : string) (is_truthy : A -> bool)
  (exhausted : string) : M W A :=
  r <- retry_loop attempt failed maxRetries 0;;
  match r with
  | Some v => if is_truthy v then ret v else throw (Error [Txt exhausted])
  | None => throw (Error [Txt exhausted])
  end.

(** Step 2 of the single-NFT script: upload the image. *)
Definition upload_image : M W string :=
  with_retry
    (imageUri <- perform ext StorageUpload;;
     console_log [T "Image uploaded:"; T imageUri];;
     ret imageUri)
    "Upload failed"
    (fun imageUri => truthy_string (Some imageUri))
    "Failed to upload image after all retries".

(** Step 4 of the single-NFT script: mint. *)
Definition mint_nft (metadataUri : string) : M W CreateNftOutput :=
  with_retry
    (perform ext (NftsCreate metadataUri "My First Test NFT" "TEST" false None))
    "Minting failed"
    (fun _ => true)
    "Failed to mint NFT after all retries".

(** Step 3 of the per-user script: mint the collection NFT. *)
Definition mint_collection (collectionMetadataUri : string) : M W CreateNftOutput :=
  with_retry
    (result <- perform ext (NftsCreate collectionMetadataUri "My Collection NFT" "MECOL" true None);;
     let signature := result.(response_signature) in
     console_log [T "Collection transaction signature:"; T signature];;
     err <- perform ext (ConfirmTransaction signature);;
     match err with
     | Some e => throw (Error [Txt "Collection transaction failed: "; Txt e])
     | None => ret tt
     end;;
     console_log [T "Collection NFT minted successfully:"; T result.(nft_address)];;
     ret result)
    "Collection minting failed"
    (fun _ => true)
    "Failed to mint collection NFT".

(* ================================================================== *)
(** * BatchMinter (compressed-NFT script) and the per-user loop *)
(* ================================================================== *)

(** The body of [for (const address of batch)]: the mint of one recipient
    inside its own [try], the failure logged in the [catch]. *)
Definition mint_one (merkleTree metadataUri : string) (address : option jsval) : M W unit :=
  try_catch
    (leafOwner <- perform ext (PublicKey address);;
     perform ext (MintV1 leafOwner merkleTree metadataUri);;
     perform ext BuilderSendAndConfirm;;
     console_log [Msg [Txt "Minted NFT for address: "; Val address]])
    (fun error =>
       console_error [Msg [Txt "Failed to mint NFT for address: "; Val address]];;
       match error with
       | ErrorObject _ msg transactionLogs =>
           console_error [T "Error details:"; Msg msg];;
           match transactionLogs with
           | Some logs => console_error [T "Transaction logs:"; Lines logs]
           | None => ret tt
           end
       | ThrownValue _ => ret tt
       end).

Definition batchSize : nat := 5.

(** [xs.slice(i, j)]. *)
Definition slice {A} (i j : nat) (xs : list A) : list A := firstn (j - i) (skipn i xs).

(** [Math.ceil(n / batchSize)]. *)
Definition batch_count (n : nat) : nat := (n + (batchSize - 1)) / batchSize.

(** [for (let i = 0; i < solanaAddresses.length; i += batchSize) { ... }],
    entered with the current [i].  Every pass adds [batchSize] to [i], so
    [length solanaAddresses] passes are enough ([fuel]). *)
Fixpoint batch_loop (merkleTree metadataUri : string) (solanaAddresses : list (option jsval))
  (fuel i : nat) : M W unit :=
  if (i <? List.length solanaAddresses)%nat then
    match fuel with
    | O => diverge
    | S fuel' =>
        let batch := slice i (i + batchSize) solanaAddresses in
        console_log [Msg [Txt "Minting batch "; Num (Z.of_nat (i / batchSize + 1));
                          Txt " of ";
                          Num (Z.of_nat (batch_count (List.length solanaAddresses)));
                          Txt "..."]];;
        for_of batch (mint_one merkleTree metadataUri);;
        (if (i + batchSize <? List.length solanaAddresses)%nat then
           console_log [T "Waiting 2 seconds before next batch..."];;
           sleep 2000
         else ret tt);;
        batch_loop merkleTree metadataUri solanaAddresses fuel' (i + batchSize)
    end
  else ret tt.

Definition batch_mint (merkleTree metadataUri : string) (solanaAddresses : list (option jsval))
  : M W unit :=
  batch_loop merkleTree metadataUri solanaAddresses (List.length solanaAddresses) 0.

(** Truthiness of a value that may be undefined. *)
Definition truthy_opt (v : option jsval) : bool :=
  match v with
  | Some v => truthy v
  | None => false
  end.

(** [mintNFTForUser] of the per-user script: the error is logged and thrown
    again. *)
Definition mintNFTForUser (user : User) (imageUri : string) (collectionNft : CreateNftOutput)
  : M W unit :=
  if negb (truthy_opt user.(solanaAddress)) then
    throw (Error [Txt "No Solana address found for user "; Txt user.(user_id)])
  else
    try_catch
      (nftMetadataUri <-
         perform ext
           (UploadMetadata "TestNFT"
              [Txt "This is a special NFT for user "; Txt user.(user_id); Txt " on Solana"]
              imageUri
              [("User ID", Txt user.(user_id)); ("Solana Address", Val user.(solanaAddress))]);;
       console_log [Msg [Txt "NFT metadata uploaded for user "; Txt user.(user_id); Txt ":"];
                    T nftMetadataUri];;
       result <- perform ext (NftsCreate nftMetadataUri "TestNFT" "TNFT" false
                                (Some collectionNft.(nft_address)));;
       let signature := result.(response_signature) in
       console_log [Msg [Txt "NFT transaction signature for user "; Txt user.(user_id); Txt ":"];
                    T signature];;
       err <- perform ext (ConfirmTransaction signature);;
       match err with
       | Some e =>
           throw (Error [Txt "NFT transaction failed for user "; Txt user.(user_id);
                         Txt ": "; Txt e])
       | None => ret tt
       end;;
       console_log [Msg [Txt "NFT minted successfully for user "; Txt user.(user_id); Txt ":"];
                    T result.(nft_address)])
      (fun error =>
         console_error [Msg [Txt "Error minting NFT for user "; Txt user.(user_id); Txt ":"];
                        ErrArg error];;
         throw error).

(** Step 5 of the per-user script: [for (const user of users) { ... }]. *)
Definition mint_users (users : list User) (imageUri : string) (collectionNft : CreateNftOutput)
  : M W unit :=
  for_of users
    (fun user =>
       console_log [Msg [Txt "Minting NFT for user "; Txt user.(user_id); Txt " (";
                         Val user.(solanaAddress); Txt ")..."]];;
       mintNFTForUser user imageUri collectionNft;;
       sleep 2000).

(* ================================================================== *)
(** * The scripts *)
(* ================================================================== *)

(** The opening of [main] in the single-NFT and the per-user scripts (the
    two differ only in the timeouts they pass on): network, connection,
    wallet, Metaplex.  Returns the wallet's public key. *)
Definition setup (config : lookup) (env : Env) : M W string :=
  endpoint <- lift (rpc_endpoint env config);;
  perform ext (NewConnection endpoint env.(SOLANA_WS_URL));;
  match env.(WALLET_PRIVATE_KEY) with
  | Some key =>
      if truthy_string (Some key) then
        privateKey <- perform ext (Bs58Decode key);;
        wallet <- perform ext (KeypairFromSecretKey privateKey);;
        perform ext (MetaplexMake wallet);;
        address <- lift (config_bundlrAddress config);;
        providerUrl <- lift (rpc_endpoint env config);;
        perform ext (UseBundlrStorage address providerUrl);;
        console_log [T "NFT minting environment is ready."];;
        console_log [T "Wallet public key:"; T wallet];;
        network_name <- lift (config_name config);;
        console_log [T "Network:"; opt_msg network_name];;
        console_log [T "注意: Bundlrストレージの使用には約0.1 SOLが必要です。"];;
        url <- lift (rpc_endpoint env config);;
        console_log [T "RPC URL:"; opt_msg url];;
        ret wallet
      else throw (Error [Txt "WALLET_PRIVATE_KEY is not set in .env file"])
  | None => throw (Error [Txt "WALLET_PRIVATE_KEY is not set in .env file"])
  end.

Definition name_atom (config : lookup) : atom :=
  match config_name config with
  | inr (Some n) => Txt n
  | _ => Val None
  end.

(** [main] of the single-NFT script (src/index.ts). *)
Definition main (argv2 : option string) (env : Env) : M W unit :=
  let config := select_network argv2 in
  wallet <- setup config env;;
  try_catch
    (imageBuffer <- perform ext (ReadFileSync "./assets/image.png");;
     perform ext (ToMetaplexFile imageBuffer "image.png");;
     imageUri <- upload_image;;
     metadataUri <-
       perform ext
         (UploadMetadata "My First Test NFT"
            [Txt "This is my first NFT on Solana "; name_atom config]
            imageUri [("hoge", Txt "test")]);;
     console_log [T "Metadata uploaded:"; T metadataUri];;
     nft <- mint_nft metadataUri;;
     console_log [T "NFT minted successfully!"];;
     console_log [T "NFT address:"; T nft.(nft_address)];;
     console_log [T "NFT metadata:"; Arg nft.(nft_json)])
    (fun error => console_error [T "Error minting NFT:"; ErrArg error]).

Definition arweave_image : string :=
  "https://arweave.net/UiXkg2lr2zK5V2mMig1tqkjeV1dOZyGg_53rFeIUAhQ".

(** [main] of the per-user script. *)
Definition main_users (argv2 : option string) (env : Env) : M W unit :=
  let config := select_network argv2 in
  wallet <- setup config env;;
  try_catch
    (let imageUri := arweave_image in
     console_log [T "Using image from Arweave:"; T imageUri];;
     collectionMetadataUri <-
       perform ext
         (UploadMetadata "My Collection NFT"
            [Txt "This is a collection NFT on Solana "; name_atom config]
            imageUri [("Network", name_atom config)]);;
     console_log [T "Collection metadata uploaded:"; T collectionMetadataUri];;
     collectionNft <- mint_collection collectionMetadataUri;;
     users <- readUsersFromCSV "./users.sample.csv";;
     console_log [Msg [Txt "Found "; Num (Z.of_nat (List.length users));
                       Txt " users with Solana addresses"]];;
     mint_users users imageUri collectionNft;;
     console_log [T "All NFTs minted successfully!"])
    (fun error => console_error [T "Error minting NFTs:"; ErrArg error]).

Definition devnet_url : string := "https://api.devnet.solana.com".

(** [main] of the compressed-NFT script.  The two [try] blocks that end in
    [return] yield [false] when the script is to stop there. *)
Definition main_compressed (env : Env) : M W unit :=
  match env.(WALLET_PRIVATE_KEY) with
  | None => throw (Error [Txt "WALLET_PRIVATE_KEY is not set in .env file"])
  | Some privateKey =>
      if negb (truthy_string (Some privateKey)) then
        throw (Error [Txt "WALLET_PRIVATE_KEY is not set in .env file"])
      else
        perform ext (CreateUmi devnet_url);;
        connected <-
          try_catch
            (slot <- perform ext GetSlot;;
             console_log [T "Current slot:"; NumArg slot];;
             blockTime <- perform ext (GetBlockTime slot);;
             match blockTime with
             | Some seconds =>
                 if (seconds =? 0)%Z then ret tt
                 else
                   iso <- perform ext (DateToISOString seconds);;
                   console_log [T "Block time:"; T iso]
             | None => ret tt
             end;;
             ret true)
            (fun error =>
               console_error [T "Failed to connect to RPC:"; ErrArg error];;
               ret false);;
        if negb connected then ret tt
        else
          secretKey <- perform ext (Bs58Decode privateKey);;
          keypair <- perform ext (KeypairFromSecretKey secretKey);;
          identity <- perform ext (PublicKey (Some (JStr keypair)));;
          perform ext (UseKeypairIdentity identity secretKey);;
          console_log [T "Wallet address:"; T keypair];;
          funded <-
            try_catch
              (perform ext (NewConnection (Some devnet_url) None);;
               balance <- perform ext (GetBalance keypair);;
               console_log [T "Raw balance:"; NumArg balance];;
               console_log [T "Wallet balance:"; Ratio balance 1000000000; T "SOL"];;
               if (balance <? 1000000000)%Z then
                 console_log [T "Insufficient balance. Please run the following command to get SOL airdrop:"];;
                 console_log [Msg [Txt "solana airdrop 2 "; Txt keypair; Txt " --url devnet"]];;
                 ret false
               else ret true)
              (fun error =>
                 console_error [T "Failed to get balance:"; ErrArg error];;
                 ret false);;
          if negb funded then ret tt
          else
            merkleTree <- perform ext GenerateSigner;;
            console_log [T "Creating Merkle tree..."];;
            perform ext (CreateTree merkleTree 15 64);;
            perform ext BuilderSendAndConfirm;;
            console_log [T "Merkle tree created:"; T merkleTree];;
            metadataUri <- perform ext UploadJson;;
            console_log [T "Metadata uploaded:"; T metadataUri];;
            csvPath <- perform ext (PathJoinCwd "users.sample.csv");;
            console_log [T "Reading CSV file from:"; T csvPath];;
            fileContent <- perform ext (ReadFileSync csvPath);;
            records <- perform ext (CsvParse fileContent);;
            solanaAddresses <- collect_addresses records [];;
            console_log [T "Found Solana addresses:"; Args solanaAddresses];;
            batch_mint merkleTree metadataUri solanaAddresses
  end.

(** The last line of each script: [main().catch(console.error)]. *)
Definition run (script : M W unit) : M W unit :=
  try_catch script (fun error => console_error [ErrArg error]).

End Scripts.

(** An upload to storage or a mint on chain. *)
Definition is_upload_or_mint (e : event) : bool :=
  match e with
  | Call c =>
      match c with
      | StorageUpload => true
      | UploadMetadata _ _ _ _ => true
      | UploadJson => true
      | NftsCreate _ _ _ _ _ => true
      | MintV1 _ _ _ => true
      | _ => false
      end
  | _ => false
  end.

Definition is_sleep (e : event) : bool :=
  match e with
  | Sleep _ => true
  | _ => false
  end.

(* ================================================================== *)
(** * Scripted worlds, used to run the scripts on concrete inputs *)
(* ================================================================== *)

Module Scripted.

(** What the outside world answers when a call succeeds. *)
Record Canned : Type :=
  mkCanned { upload_uri : string; csv_records : list UserData }.

Definition reply (k : Canned) {R} (c : call R) : R :=
  match c in call R return R with
  | ReadFileSync _ => "file content"
  | CsvParse _ => k.(csv_records)
  | PathJoinCwd file => "/work/" ++ file
  | DateToISOString _ => "2025-01-01T00:00:00.000Z"
  | NewConnection _ _ => tt
  | Bs58Decode key => key
  | KeypairFromSecretKey _ => "WalletPublicKey"
  | ConfirmTransaction _ => None
  | GetBalance _ => 2000000000%Z
  | MetaplexMake _ => tt
  | UseBundlrStorage _ _ => tt
  | ToMetaplexFile _ _ => tt
  | StorageUpload => k.(upload_uri)
  | UploadMetadata _ _ _ _ => "https://arweave.net/metadata"
  | NftsCreate _ _ _ _ _ => mkCreateNftOutput "NftAddress" None "signature"
  | CreateUmi _ => tt
  | GetSlot => 100%Z
  | GetBlockTime _ => Some 1700000000%Z
  | UseKeypairIdentity _ _ => tt
  | GenerateSigner => "MerkleTree"
  | CreateTree _ _ _ => tt
  | BuilderSendAndConfirm => tt
  | UploadJson => "https://arweave.net/json"
  | PublicKey (Some (JStr a)) => a
  | PublicKey _ => "invalid"
  | MintV1 _ _ _ => tt
  end.

Definition failure (n : nat) : exn := Error [Txt "call failed: "; Num (Z.of_nat n)].

(** The world is the number of calls made so far; the call number [n]
    fails when [fails c n] holds, whatever the call. *)
Definition world (k : Canned) (fails : forall R, call R -> nat -> bool) : oracle nat :=
  fun R c n => (if fails R c n then inl (failure n) else inr (reply k c), S n).

Definition never : forall R, call R -> nat -> bool := fun _ _ _ => false.

(** The first [n] calls fail. *)
Definition first_calls (n : nat) : forall R, call R -> nat -> bool :=
  fun _ _ k => (k <? n)%nat.

(** Every call fails. *)
Definition always : forall R, call R -> nat -> bool := fun _ _ _ => true.

(** The mint for one recipient fails. *)
Definition mint_for (user : string) : forall R, call R -> nat -> bool :=
  fun R c _ =>
    match c with
    | UploadMetadata _ _ _ attributes =>
        match attributes with
        | (_, Txt u) :: _ => String.eqb u user
        | _ => false
        end
    | MintV1 leafOwner _ _ => String.eqb leafOwner user
    | _ => false
    end.

Definition ok : Canned := mkCanned "https://arweave.net/image" [].
Definition env_ok : Env := mkEnv None None (Some "secret").

End Scripted.

(* ================================================================== *)
(** * Vocabulary of the statements *)
(* ================================================================== *)

(** The message logged before the retry number [k]. *)
Definition retry_log (failed : string) (k : Z) : event :=
  ConsoleLog [Msg [Txt failed; Txt ", retrying... ("; Num k; Txt "/"; Num 3; Txt ")"]].

(** A failed attempt that is retried: its own events, the log line and the
    five-second wait. *)
Definition retried (failed : string) (k : Z) (t : list event) : list event :=
  (t ++ [retry_log failed k; Sleep 5000])%list.

(** The number of waits, and of image uploads, among the events. *)
Definition sleeps (t : list event) : nat := List.length (filter is_sleep t).

Definition is_storage_upload (e : event) : bool :=
  match e with
  | Call c => match c with StorageUpload => true | _ => false end
  | _ => false
  end.

Definition uploads (t : list event) : nat := List.length (filter is_storage_upload t).

(** ** RetryingCaller *)

(** C1 as the specification states it, on the image upload of the
    single-NFT script: an upload that fails twice and then succeeds makes
    the wrapped call return the value of the third attempt. *)
Definition upload_returns_third_attempt : Prop :=
  forall (W : Type) (ext : oracle W) (w0 w1 w2 w3 : W) (e1 e2 : exn) (uri : string),
    ext _ StorageUpload w0 = (inl e1, w1) ->
    ext _ StorageUpload w1 = (inl e2, w2) ->
    ext _ StorageUpload w2 = (inr uri, w3) ->
    fst (fst (upload_image ext w0)) = Ret uri.

(** ** Normalisation and extraction *)

(** No character of [w] starts a match of a pattern that begins with [p]. *)
Fixpoint untouched (p : ascii) (w : string) : bool :=
  match w with
  | EmptyString => true
  | String c w' => negb (Ascii.eqb p c) && untouched p w'
  end.

(** An entry with [type == "wallet"] and [chain_type == "solana"]. *)
Definition matches (account : jsval) : bool :=
  match account with
  | JObj members =>
      match get "type" members with
      | Some (JStr t) =>
          String.eqb t "wallet"
          && match get "chain_type" members with
             | Some (JStr c) => String.eqb c "solana"
             | _ => false
             end
      | _ => false
      end
  | _ => false
  end.

(** What [extractSolanaAddress] returns and what it logs. *)
Definition extract_value (linkedAccounts : string) : option jsval :=
  match extract_try linkedAccounts with
  | inr v => v
  | inl _ => None
  end.

Definition extract_log (linkedAccounts : string) : list event :=
  match extract_try linkedAccounts with
  | inr _ => []
  | inl error =>
      [ConsoleError [T "Error parsing linked accounts:"; ErrArg error];
       ConsoleError [T "Problematic JSON:"; T linkedAccounts]]
  end.

Definition user_of (record : UserData) : User :=
  mkUser record.(id) (extract_value record.(linked_accounts)).

Definition kept (record : UserData) : bool :=
  is_defined (extract_value record.(linked_accounts)).

(** What the extraction loop of the compressed-NFT script adds for a row
    and what it logs. *)
Definition found_address (record : UserData) : list (option jsval) :=
  match wallet_try record.(linked_accounts) with
  | inr (Some account) => [address_of account]
  | _ => []
  end.

Definition wallet_log (record : UserData) : list event :=
  match wallet_try record.(linked_accounts) with
  | inr _ => []
  | inl error =>
      [ConsoleError [T "Error parsing linked_accounts:"; ErrArg error];
       ConsoleError [T "Problematic JSON string:"; T record.(linked_accounts)]]
  end.

(** [xs] is [ys] with some elements left out, the order kept. *)
Inductive subseq {A : Type} : list A -> list A -> Prop :=
| subseq_nil : subseq [] []
| subseq_skip x xs ys : subseq xs ys -> subseq xs (x :: ys)
| subseq_keep x xs ys : subseq xs ys -> subseq (x :: xs) (x :: ys).

(** C3 as the specification states it: whenever the normalised text is an
    array and [account] is its first entry with [type == "wallet"] and
    [chain_type == "solana"], the row yields a [User] that carries the
    address of that entry. *)
Definition extractor_returns_first_match : Prop :=
  forall (record : UserData) (before after : list jsval) (account : jsval),
    JSON_parse (normalizedJson record.(linked_accounts))
    = Some (JArr (before ++ account :: after)) ->
    forallb (fun a => negb (matches a)) before = true ->
    matches account = true ->
    exists user,
      fst (fst (users_of_records [record] tt)) = Ret [user]
      /\ user.(user_id) = record.(id)
      /\ user.(solanaAddress) = address_of account.

(** The normalised text does not parse, or it parses to something that is
    not an array with a Solana wallet entry. *)
Definition no_solana_wallet (parsed : option jsval) : Prop :=
  parsed = None
  \/ exists v, parsed = Some v
               /\ forall accounts, v = JArr accounts ->
                                   Forall (fun a => matches a = false) accounts.

(** C7 as the specification states it: no returned [User] has the empty
    string for address. *)
Definition addresses_are_nonempty : Prop :=
  forall (records : list UserData) (users : list User),
    fst (fst (users_of_records records tt)) = Ret users ->
    Forall (fun user => user.(solanaAddress) <> Some (JStr EmptyString)) users.

(** ** Batches and loops *)

(** The recipient a mint is attempted for: the first call of the body of
    the inner loop, [publicKey(address)]. *)
Definition attempt_of (e : event) : option (option jsval) :=
  match e with
  | Call c => match c with PublicKey a => Some a | _ => None end
  | _ => None
  end.

(** The recipients whose mint was attempted, in order. *)
Fixpoint attempted (t : list event) : list (option jsval) :=
  match t with
  | [] => []
  | e :: t' =>
      match attempt_of e with
      | Some a => a :: attempted t'
      | None => attempted t'
      end
  end.

(** The calls of [mintV1] among the events. *)
Definition is_mint_call (e : event) : bool :=
  match e with
  | Call c => match c with MintV1 _ _ _ => true | _ => false end
  | _ => false
  end.

Definition mint_calls (t : list event) : nat := List.length (filter is_mint_call t).

(** [publicKey(address)] answers for every address: none is rejected. *)
Definition accepts_every_address {W : Type} (ext : oracle W) : Prop :=
  forall (address : option jsval) (w : W),
    exists leafOwner w', ext _ (PublicKey address) w = (inr leafOwner, w').

(** The batches the loop forms: number [k] (from 0) is
    [slice (k * batchSize) (k * batchSize + batchSize)]. *)
Definition batch {A} (xs : list A) (k : nat) : list A :=
  slice (k * batchSize) (k * batchSize + batchSize) xs.

Definition batches {A} (xs : list A) : list (list A) :=
  map (batch xs) (seq 0 (batch_count (List.length xs))).

Definition batch_header (k n : nat) : event :=
  ConsoleLog [Msg [Txt "Minting batch "; Num (Z.of_nat (k + 1)); Txt " of ";
                   Num (Z.of_nat (batch_count n)); Txt "..."]].

Definition batch_wait : list event :=
  [ConsoleLog [T "Waiting 2 seconds before next batch..."]; Sleep 2000].

Section BatchRun.
Context {W : Type} (ext : oracle W) (merkleTree metadataUri : string).

(** The batches run one after the other: header, one mint per recipient,
    and the two-second wait unless the batch is the last of [total]. *)
Fixpoint run_batches (n total : nat) (k : nat) (bs : list (list (option jsval))) : M W unit :=
  match bs with
  | [] => ret tt
  | b :: rest =>
      emit (batch_header k n);;
      for_of b (mint_one ext merkleTree metadataUri);;
      (if (S k <? total)%nat then
         console_log [T "Waiting 2 seconds before next batch..."];;
         sleep 2000
       else ret tt);;
      run_batches n total (S k) rest
  end.

End BatchRun.

(** Twelve recipients, in a world where the mint of the third one fails. *)
Definition twelve : list (option jsval) :=
  map (fun a => Some (JStr a))
    ["A1"; "A2"; "A3"; "A4"; "A5"; "A6"; "A7"; "A8"; "A9"; "A10"; "A11"; "A12"].

(** The first event of the per-user loop for [user]. *)
Definition user_started (user : User) : event :=
  ConsoleLog [Msg [Txt "Minting NFT for user "; Txt user.(user_id); Txt " (";
                   Val user.(solanaAddress); Txt ")..."]].

(** C5 as the specification states it, on the per-user loop: whatever
    fails, the loop goes on to every user. *)
Definition per_user_loop_continues : Prop :=
  forall (W : Type) (ext : oracle W) (users : list User) (imageUri : string)
         (collectionNft : CreateNftOutput) (w : W),
    Forall (fun user =>
              In (user_started user) (snd (mint_users ext users imageUri collectionNft w)))
           users.

(** What the [catch] of the inner loop of the compressed-NFT script prints
    for the error that ended the mint for [address]. *)
Definition failure_lines (address : option jsval) (error : exn) : list event :=
  ConsoleError [Msg [Txt "Failed to mint NFT for address: "; Val address]]
  :: match error with
     | ErrorObject _ msg transactionLogs =>
         ConsoleError [T "Error details:"; Msg msg]
         :: match transactionLogs with
            | Some logs => [ConsoleError [T "Transaction logs:"; Lines logs]]
            | None => []
            end
     | ThrownValue _ => []
     end.

(** The three calls of [mintNFTForUser] for [user] and the lines it prints
    between them; [error_line] is what its [catch] prints. *)
Definition user_upload (user : User) (imageUri : string) : call string :=
  UploadMetadata "TestNFT"
    [Txt "This is a special NFT for user "; Txt user.(user_id); Txt " on Solana"]
    imageUri
    [("User ID", Txt user.(user_id)); ("Solana Address", Val user.(solanaAddress))].

Definition user_create (nftMetadataUri : string) (collectionNft : CreateNftOutput)
  : call CreateNftOutput :=
  NftsCreate nftMetadataUri "TestNFT" "TNFT" false (Some collectionNft.(nft_address)).

Definition uploaded_line (user : User) (nftMetadataUri : string) : event :=
  ConsoleLog [Msg [Txt "NFT metadata uploaded for user "; Txt user.(user_id); Txt ":"];
              T nftMetadataUri].

Definition signature_line (user : User) (signature : string) : event :=
  ConsoleLog [Msg [Txt "NFT transaction signature for user "; Txt user.(user_id); Txt ":"];
              T signature].

Definition error_line (user : User) (error : exn) : event :=
  ConsoleError [Msg [Txt "Error minting NFT for user "; Txt user.(user_id); Txt ":"];
                ErrArg error].

(** The error [mintNFTForUser] makes of a confirmation that reports
    [err]. *)
Definition not_confirmed_error (user : User) (err : string) : exn :=
  Error [Txt "NFT transaction failed for user "; Txt user.(user_id); Txt ": "; Txt err].

(** Two users with an address each. *)
Definition two_users : list User :=
  [mkUser "u1" (Some (JStr "Addr1")); mkUser "u2" (Some (JStr "Addr2"))].

(** ** The start of the scripts *)

(** No upload to storage and no mint among the events. *)
Definition no_upload_or_mint (t : list event) : Prop := existsb is_upload_or_mint t = false.

(** C6 as the specification states it: a token that is neither [mainnet]
    nor [devnet] makes the script end with an error. *)
Definition unknown_token_is_an_error : Prop :=
  forall (W : Type) (ext : oracle W) (env : Env) (w : W) (token : string),
    token <> "mainnet" -> token <> "devnet" ->
    exists e, fst (fst (main ext (Some token) env w)) = Throw e.

(** ** What the rest of the code does *)

(** [q] occurs somewhere in [s]. *)
Fixpoint contains (q s : string) : bool :=
  prefix q s
  || match s with
     | EmptyString => false
     | String _ s' => contains q s'
     end.

(** [a] and [b] differ at a position both have. *)
Fixpoint clash (a b : string) : bool :=
  match a, b with
  | String c a', String d b' => negb (Ascii.eqb c d) || clash a' b'
  | _, _ => false
  end.

(** No match of a pattern that begins with [p] can start inside [q], and
    no replacement [rep] can stand where a suffix of [q] is read. *)
Fixpoint clear_of (p : ascii) (rep q : string) : bool :=
  match q with
  | EmptyString => true
  | String c q' => negb (Ascii.eqb p c) && clash (String c q') rep && clear_of p rep q'
  end.

(** [extractSolanaAddresses] of the compressed-NFT script, a function that
    no script calls.  The loop body hands the cell to [JSON.parse] as it
    is, and nothing catches what it throws. *)
Definition raw_wallet (linked_accounts : string) : exn + option jsval :=
  match JSON_parse linked_accounts with
  | None => inl SyntaxError
  | Some linkedAccounts => find_linked linkedAccounts
  end.

Section Unused.
Context {W : Type} (ext : oracle W).

(** [for (const record of records) { ... }]; [solanaAddresses] is the array
    built so far. *)
Fixpoint push_addresses (records : list UserData) (solanaAddresses : list (option jsval))
  : M W (list (option jsval)) :=
  match records with
  | [] => ret solanaAddresses
  | record :: rest =>
      solanaWallet <- lift (raw_wallet record.(linked_accounts));;
      match solanaWallet with
      | Some account => push_addresses rest (solanaAddresses ++ [address_of account])%list
      | None => push_addresses rest solanaAddresses
      end
  end.

Definition extractSolanaAddresses (csvPath : string) : M W (list (option jsval)) :=
  fileContent <- perform ext (ReadFileSync csvPath);;
  records <- perform ext (CsvParse fileContent);;
  push_addresses records [].

End Unused.

(** What a row adds to the array of [extractSolanaAddresses]. *)
Definition raw_found (record : UserData) : list (option jsval) :=
  match raw_wallet record.(linked_accounts) with
  | inr (Some account) => [address_of account]
  | _ => []
  end.

(** The same failure in the two scripts: the same error, or the
    [TypeError] of a value without [find], in which each script names its
    own variable. *)
Definition same_failure (e1 e2 : exn) : Prop :=
  e1 = e2
  \/ (e1 = TypeError [Txt "accounts.find is not a function"]
      /\ e2 = TypeError [Txt "linkedAccounts.find is not a function"]).

(** The rows for which the [try] of the compressed-NFT loop throws. *)
Definition unreadable (record : UserData) : bool :=
  match wallet_try record.(linked_accounts) with
  | inl _ => true
  | inr _ => false
  end.

(** The number of events of a kind. *)
Definition count (p : event -> bool) (t : list event) : nat := List.length (filter p t).

(** A kind of call, as a kind of event. *)
Definition on_call (p : forall R, call R -> bool) (e : event) : bool :=
  match e with
  | Call c => p _ c
  | _ => false
  end.

Definition no_call : forall R, call R -> bool := fun _ _ => false.

(** [metaplex.nfts().create(...)]. *)
Definition is_create : forall R, call R -> bool :=
  fun _ c => match c with NftsCreate _ _ _ _ _ => true | _ => false end.

Definition is_upload : forall R, call R -> bool :=
  fun _ c => match c with StorageUpload => true | _ => false end.

(** What the single-NFT script does with the URI of the image. *)
Definition metadata_or_create : forall R, call R -> bool :=
  fun _ c =>
    match c with
    | UploadMetadata _ _ _ _ => true
    | NftsCreate _ _ _ _ _ => true
    | _ => false
    end.

(** What the per-user script does once the collection is there. *)
Definition users_read_or_minted : forall R, call R -> bool :=
  fun _ c =>
    match c with
    | ReadFileSync _ => true
    | CsvParse _ => true
    | NftsCreate _ _ _ false _ => true
    | _ => false
    end.

(** What the compressed-NFT script does once its two checks are passed. *)
Definition tree_upload_or_mint : forall R, call R -> bool :=
  fun _ c =>
    match c with
    | GenerateSigner => true
    | CreateTree _ _ _ => true
    | BuilderSendAndConfirm => true
    | UploadJson => true
    | ReadFileSync _ => true
    | CsvParse _ => true
    | MintV1 _ _ _ => true
    | _ => false
    end.

(** [m] makes no call of the kind [p], does not run out of fuel, and
    whatever it returns satisfies [Q]. *)
Definition guarantees {W A : Type} (p : forall R, call R -> bool) (Q : A -> Prop) (m : M W A)
  : Prop :=
  forall w,
    existsb (on_call p) (snd (m w)) = false
    /\ match fst (fst (m w)) with
       | Ret a => Q a
       | Throw _ => True
       | OutOfFuel => False
       end.

(** Worlds in which every call answers: one whose transactions are never
    confirmed, one whose wallet holds half a SOL, one whose storage returns
    the empty URI. *)
Definition unconfirmed : oracle nat :=
  fun R c n =>
    (inr match c in call R return R with
         | ConfirmTransaction _ => Some "InstructionError"
         | c' => Scripted.reply Scripted.ok c'
         end, S n).

Definition poor : oracle nat :=
  fun R c n =>
    (inr match c in call R return R with
         | GetBalance _ => 500000000%Z
         | c' => Scripted.reply Scripted.ok c'
         end, S n).

(** The RPC node does not answer [getSlot]. *)
Definition slot_fails : forall R, call R -> nat -> bool :=
  fun _ c _ => match c with GetSlot => true | _ => false end.

(** A cell as the CSV export writes it, and a file of two rows: an empty
    list, then that cell. *)
Definition python_cell : string :=
  "[{'type': 'wallet', 'chain_type': 'solana', 'address': 'Addr1'}]".

Definition two_rows : list UserData :=
  [mkUserData "u0" "[]"; mkUserData "u1" python_cell].

(** [n] times the event [c], with a five-second wait between two of them
    and nowhere else. *)
Fixpoint spaced (c : event) (n : nat) : list event :=
  match n with
  | O => []
  | S n' =>
      c :: match n' with
           | O => []
           | S _ => Sleep 5000 :: spaced c n'
           end
  end.

Definition call_or_wait (p : forall R, call R -> bool) (e : event) : bool :=
  on_call p e || is_sleep e.

(** The calls of the kind [p] and the waits of [m], in the order in which
    they happen: the call [c] at least once and at most three times, a
    five-second wait after each call that is followed by another and no
    other wait; and [m] comes to an end. *)
Definition retried_within_bounds {W A R : Type} (p : forall R, call R -> bool) (c : call R)
  (m : M W A) : Prop :=
  forall w,
    (exists n, 1 <= n <= maxRetries
               /\ filter (call_or_wait p) (snd (m w)) = spaced (Call c) n)
    /\ fst (fst (m w)) <> OutOfFuel.

(** [actual] is another string than [expected]. *)
Definition other_than (expected actual : string) : bool := negb (String.eqb actual expected).

(** Single-NFT script: a metadata upload for another image than
    [imageUri], or a mint with other metadata than [metadataUri]. *)
Definition misdirected (imageUri metadataUri : string) : forall R, call R -> bool :=
  fun _ c =>
    match c with
    | UploadMetadata _ _ image _ => other_than imageUri image
    | NftsCreate uri _ _ _ _ => other_than metadataUri uri
    | _ => false
    end.

(** What a metadata upload is given: name, description, image and
    attributes. *)
Definition upload_args : Type := string * message * string * list (string * atom).

(** The metadata [mintNFTForUser] uploads for a user. *)
Definition describes_user (args : upload_args) : Prop :=
  exists id address image,
    args = ("TestNFT",
            [Txt "This is a special NFT for user "; Txt id; Txt " on Solana"],
            image,
            [("User ID", Txt id); ("Solana Address", Val address)]).

(** The metadata upload made last and not yet used by a [create], after
    the events [t]. *)
Fixpoint last_upload (uploaded : option upload_args) (t : list event) : option upload_args :=
  match t with
  | [] => uploaded
  | e :: t' =>
      match e with
      | Call c =>
          match c with
          | UploadMetadata name description image attributes =>
              last_upload (Some (name, description, image, attributes)) t'
          | NftsCreate _ _ _ _ _ => last_upload None t'
          | _ => last_upload uploaded t'
          end
      | _ => last_upload uploaded t'
      end
  end.

(** Per-user script, reading the events in order: every [create] of an NFT
    that is no collection names the collection [collection], and its
    metadata is the answer [uri_of args] to the metadata upload made last
    before it, an upload that no other [create] came after and that
    describes a user. *)
Fixpoint sourced (uri_of : upload_args -> string) (collection : string)
  (uploaded : option upload_args) (t : list event) : Prop :=
  match t with
  | [] => True
  | e :: t' =>
      match e with
      | Call c =>
          match c with
          | UploadMetadata name description image attributes =>
              sourced uri_of collection (Some (name, description, image, attributes)) t'
          | NftsCreate uri _ _ isCollection inCollection =>
              (isCollection = false ->
               inCollection = Some collection
               /\ exists args, uploaded = Some args /\ uri = uri_of args /\ describes_user args)
              /\ sourced uri_of collection None t'
          | _ => sourced uri_of collection uploaded t'
          end
      | _ => sourced uri_of collection uploaded t'
      end
  end.

(** The users that the metadata uploads among the events describe, by id
    and address, in order. *)
Fixpoint described (t : list event) : list (string * option jsval) :=
  match t with
  | [] => []
  | e :: t' =>
      match e with
      | Call c =>
          match c with
          | UploadMetadata _ _ _ [(_, Txt id); (_, Val address)] => (id, address) :: described t'
          | _ => described t'
          end
      | _ => described t'
      end
  end.

Definition well_sourced {W A : Type} (uri_of : upload_args -> string) (collection : string)
  (m : M W A) : Prop :=
  forall w uploaded, sourced uri_of collection uploaded (snd (m w)).

(** A storage that derives the URI of a metadata upload from what is
    uploaded, and a world in which it is the storage. *)
Definition uri_of_content (args : upload_args) : string :=
  match args with
  | (name, _, _, (_, Txt value) :: _) => "ar://" ++ name ++ "/" ++ value
  | (name, _, _, _) => "ar://" ++ name
  end.

Definition content_addressed : oracle nat :=
  fun R c n =>
    (inr match c in call R return R with
         | UploadMetadata name description image attributes =>
             uri_of_content (name, description, image, attributes)
         | CsvParse _ => two_rows
         | c' => Scripted.reply Scripted.ok c'
         end, S n).

(** Compressed-NFT script: a tree other than [merkleTree] or of another
    size than depth 15 and buffer 64, or a mint into another tree or with
    other metadata than [metadataUri]. *)
Definition outside_tree (merkleTree metadataUri : string) : forall R, call R -> bool :=
  fun _ c =>
    match c with
    | CreateTree tree maxDepth maxBufferSize =>
        other_than merkleTree tree || negb (maxDepth =? 15)%Z || negb (maxBufferSize =? 64)%Z
    | MintV1 _ tree uri => other_than merkleTree tree || other_than metadataUri uri
    | _ => false
    end.

(** A user as [readUsersFromCSV] returns it for a wallet whose address is
    the empty string. *)
Definition user_without_address : User := mkUser "42" (Some (JStr EmptyString)).

(* ================================================================== *)
(** * Running computations *)
(* ================================================================== *)

Section Running.
Context {W : Type}.

Lemma bind_ret {A B} (m : M W A) (k : A -> M W B) w a w1 t1 :
  m w = (Ret a, w1, t1) ->
  bind m k w = (let '(r, w2, t2) := k a w1 in (r, w2, (t1 ++ t2)%list)).
Proof. intros H. unfold bind. now rewrite H. Qed.

Lemma bind_throw {A B} (m : M W A) (k : A -> M W B) w e w1 t1 :
  m w = (Throw e, w1, t1) -> bind m k w = (Throw e, w1, t1).
Proof. intros H. unfold bind. now rewrite H. Qed.

Lemma try_catch_ret {A} (body : M W A) handler w a w1 t1 :
  body w = (Ret a, w1, t1) -> try_catch body handler w = (Ret a, w1, t1).
Proof. intros H. unfold try_catch. now rewrite H. Qed.

Lemma try_catch_throw {A} (body : M W A) handler w e w1 t1 :
  body w = (Throw e, w1, t1) ->
  try_catch body handler w = (let '(r, w2, t2) := handler e w1 in (r, w2, (t1 ++ t2)%list)).
Proof. intros H. unfold try_catch. now rewrite H. Qed.

Lemma sleeps_app (t u : list event) : sleeps (t ++ u) = sleeps t + sleeps u.
Proof. unfold sleeps. now rewrite filter_app, length_app. Qed.

Lemma uploads_app (t u : list event) : uploads (t ++ u) = uploads t + uploads u.
Proof. unfold uploads. now rewrite filter_app, length_app. Qed.

End Running.

(* ================================================================== *)
(** * RetryingCaller *)
(* ================================================================== *)

Section Retry.
Context {W A : Type}.
Variables (attempt : M W A) (failed exhausted : string) (is_truthy : A -> bool).

Lemma retry_loop_unfold fuel n :
  retry_loop attempt failed (S fuel) n =
  if (n <? maxRetries)%nat then
    try_catch
      (v <- attempt;; ret (Some v))
      (fun error =>
         if (S n =? maxRetries)%nat then throw error
         else
           console_log [Msg [Txt failed; Txt ", retrying... (";
                             Num (Z.of_nat (S n)); Txt "/";
                             Num (Z.of_nat maxRetries); Txt ")"]];;
           sleep 5000;;
           retry_loop attempt failed fuel (S n))
  else ret None.
Proof. reflexivity. Qed.

(** One pass of the loop whose attempt fails below the ceiling: log, wait,
    go round again. *)
Lemma retry_loop_failed fuel n w e w1 t1 :
  (n <? maxRetries)%nat = true ->
  (S n =? maxRetries)%nat = false ->
  attempt w = (Throw e, w1, t1) ->
  retry_loop attempt failed (S fuel) n w =
  (let '(r, w2, t2) := retry_loop attempt failed fuel (S n) w1 in
   (r, w2, (retried failed (Z.of_nat (S n)) t1 ++ t2)%list)).
Proof.
  intros Hlt Hne H. rewrite retry_loop_unfold, Hlt.
  unfold try_catch. unfold bind at 1. rewrite H, Hne.
  unfold bind, console_log, sleep, emit.
  destruct (retry_loop attempt failed fuel (S n) w1) as [[r w2] t2].
  unfold retried, retry_log. cbn [app]. now rewrite <- app_assoc.
Qed.

(** The pass whose attempt fails at the ceiling throws that failure. *)
Lemma retry_loop_last fuel n w e w1 t1 :
  (n <? maxRetries)%nat = true ->
  (S n =? maxRetries)%nat = true ->
  attempt w = (Throw e, w1, t1) ->
  retry_loop attempt failed (S fuel) n w = (Throw e, w1, t1).
Proof.
  intros Hlt Heq H. rewrite retry_loop_unfold, Hlt.
  unfold try_catch. unfold bind at 1. rewrite H, Heq.
  unfold throw. now rewrite app_nil_r.
Qed.

(** A pass whose attempt succeeds leaves the loop at once. *)
Lemma retry_loop_success fuel n w v w1 t1 :
  (n <? maxRetries)%nat = true ->
  attempt w = (Ret v, w1, t1) ->
  retry_loop attempt failed (S fuel) n w = (Ret (Some v), w1, t1).
Proof.
  intros Hlt H. rewrite retry_loop_unfold, Hlt.
  unfold try_catch, bind, ret. rewrite H. now rewrite app_nil_r.
Qed.

(** The guard after the loop. *)
Lemma with_retry_of_loop w r w1 t1 :
  retry_loop attempt failed maxRetries 0 w = (Ret r, w1, t1) ->
  with_retry attempt failed is_truthy exhausted w =
  match r with
  | Some v => if is_truthy v then (Ret v, w1, t1) else (Throw (Error [Txt exhausted]), w1, t1)
  | None => (Throw (Error [Txt exhausted]), w1, t1)
  end.
Proof.
  intros H. unfold with_retry, bind. rewrite H.
  destruct r as [v|]; [destruct (is_truthy v)|]; unfold ret, throw; now rewrite app_nil_r.
Qed.

Lemma with_retry_of_throw w e w1 t1 :
  retry_loop attempt failed maxRetries 0 w = (Throw e, w1, t1) ->
  with_retry attempt failed is_truthy exhausted w = (Throw e, w1, t1).
Proof. intros H. unfold with_retry, bind. now rewrite H. Qed.

(** The loop never runs out of fuel of its own: started with a count
    [n] and at least [maxRetries - n] fuel, it answers whenever the
    attempt does. *)
Lemma retry_loop_fuel fuel n w :
  (forall w', fst (fst (attempt w')) <> OutOfFuel) ->
  maxRetries - n <= fuel ->
  fst (fst (retry_loop attempt failed fuel n w)) <> OutOfFuel.
Proof.
  intros Hatt. revert n w. induction fuel as [|fuel IH]; intros n w Hn.
  - assert (Hge : (n <? maxRetries)%nat = false) by (apply Nat.ltb_ge; lia).
    change (retry_loop attempt failed 0 n)
      with (if (n <? maxRetries)%nat then @diverge W (option A) else ret None).
    rewrite Hge. cbn. discriminate.
  - rewrite retry_loop_unfold.
    destruct (n <? maxRetries)%nat eqn:Hlt; [|cbn; discriminate].
    unfold try_catch. unfold bind at 1.
    specialize (Hatt w).
    destruct (attempt w) as [[[v|e|] w1] t1]; cbn in Hatt.
    + cbn. discriminate.
    + destruct (S n =? maxRetries)%nat eqn:Heq; [cbn; discriminate|].
      unfold bind, console_log, sleep, emit.
      specialize (IH (S n) w1).
      destruct (retry_loop attempt failed fuel (S n) w1) as [[r w2] t2].
      cbn [fst] in *. apply IH. apply Nat.ltb_lt in Hlt. lia.
    + congruence.
Qed.

End Retry.

(** C1, counterexample: the storage answers the third upload with the empty
    string.  The loop stops there, and the guard after it, [if (!imageUri)],
    throws: the wrapped call does not return the success value. *)
Lemma upload_empty_uri_counterexample : ~ upload_returns_third_attempt.
Proof.
  intros H.
  specialize (H nat (Scripted.world (Scripted.mkCanned EmptyString []) (Scripted.first_calls 2))
                0 1 2 3 (Scripted.failure 0) (Scripted.failure 1) EmptyString
                eq_refl eq_refl eq_refl).
  vm_compute in H. discriminate H.
Qed.

(** C1 (amended): the retry loop with three attempts and a five-second
    wait, around any operation [attempt], followed by its guard.
    - A success on the first, second or third attempt ends the loop at
      once: nothing is attempted, logged or waited for after it.  The
      wrapped call returns the value when it is truthy; a falsy value (an
      empty URI) makes the guard after the loop throw instead.
    - Two failures and a success make exactly two delayed retries.
    - Three failures are three invocations and two waits, and the third
      failure is the one thrown to the caller. *)
Theorem retrying_caller {W A : Type} (attempt : M W A) (failed exhausted : string)
  (is_truthy : A -> bool) (w0 : W) :
  let wrapped := with_retry attempt failed is_truthy exhausted in
  let finish (v : A) (w : W) (t : list event) :=
    if is_truthy v then (Ret v, w, t) else (Throw (Error [Txt exhausted]), w, t) in
  (forall v w1 t1,
      attempt w0 = (Ret v, w1, t1) ->
      wrapped w0 = finish v w1 t1)
  /\ (forall e1 w1 t1 v w2 t2,
      attempt w0 = (Throw e1, w1, t1) ->
      attempt w1 = (Ret v, w2, t2) ->
      wrapped w0 = finish v w2 (retried failed 1 t1 ++ t2)%list)
  /\ (forall e1 w1 t1 e2 w2 t2 v w3 t3,
      attempt w0 = (Throw e1, w1, t1) ->
      attempt w1 = (Throw e2, w2, t2) ->
      attempt w2 = (Ret v, w3, t3) ->
      wrapped w0 = finish v w3 (retried failed 1 t1 ++ retried failed 2 t2 ++ t3)%list)
  /\ (forall e1 w1 t1 e2 w2 t2 e3 w3 t3,
      attempt w0 = (Throw e1, w1, t1) ->
      attempt w1 = (Throw e2, w2, t2) ->
      attempt w2 = (Throw e3, w3, t3) ->
      wrapped w0 = (Throw e3, w3, retried failed 1 t1 ++ retried failed 2 t2 ++ t3)%list)
  /\ (forall t1 t2 t3,
      sleeps (retried failed 1 t1 ++ retried failed 2 t2 ++ t3)
      = 2 + sleeps t1 + sleeps t2 + sleeps t3).
Proof.
  intros wrapped finish. subst wrapped finish. cbv beta.
  repeat split.
  - intros v w1 t1 H1.
    rewrite (with_retry_of_loop attempt failed exhausted is_truthy w0 (Some v) w1 t1);
      [reflexivity|].
    now apply retry_loop_success.
  - intros e1 w1 t1 v w2 t2 H1 H2.
    rewrite (with_retry_of_loop attempt failed exhausted is_truthy w0 (Some v) w2
               (retried failed 1 t1 ++ t2)); [reflexivity|].
    unfold maxRetries at 1.
    rewrite (retry_loop_failed attempt failed 2 0 w0 e1 w1 t1 eq_refl eq_refl H1).
    now rewrite (retry_loop_success attempt failed 1 1 w1 v w2 t2 eq_refl H2).
  - intros e1 w1 t1 e2 w2 t2 v w3 t3 H1 H2 H3.
    rewrite (with_retry_of_loop attempt failed exhausted is_truthy w0 (Some v) w3
               (retried failed 1 t1 ++ retried failed 2 t2 ++ t3)); [reflexivity|].
    unfold maxRetries at 1.
    rewrite (retry_loop_failed attempt failed 2 0 w0 e1 w1 t1 eq_refl eq_refl H1).
    rewrite (retry_loop_failed attempt failed 1 1 w1 e2 w2 t2 eq_refl eq_refl H2).
    now rewrite (retry_loop_success attempt failed 0 2 w2 v w3 t3 eq_refl H3).
  - intros e1 w1 t1 e2 w2 t2 e3 w3 t3 H1 H2 H3.
    apply with_retry_of_throw.
    unfold maxRetries at 1.
    rewrite (retry_loop_failed attempt failed 2 0 w0 e1 w1 t1 eq_refl eq_refl H1).
    rewrite (retry_loop_failed attempt failed 1 1 w1 e2 w2 t2 eq_refl eq_refl H2).
    now rewrite (retry_loop_last attempt failed 0 2 w2 e3 w3 t3 eq_refl eq_refl H3).
  - intros t1 t2 t3. unfold retried.
    rewrite !sleeps_app. unfold sleeps at 2 4. cbn. lia.
Qed.

(** The image upload against a storage that fails twice and then answers:
    three uploads, two five-second waits, the URI returned; and against a
    storage that always fails: three uploads, two waits, the third failure
    thrown. *)
Lemma retrying_caller_witness :
  (exists t,
      upload_image (Scripted.world Scripted.ok (Scripted.first_calls 2)) 0
      = (Ret "https://arweave.net/image", 3, t)
      /\ uploads t = 3 /\ sleeps t = 2)
  /\ (exists t,
      upload_image (Scripted.world Scripted.ok Scripted.always) 0
      = (Throw (Scripted.failure 2), 3, t)
      /\ uploads t = 3 /\ sleeps t = 2).
Proof.
  split.
  - eexists. split.
    + exact (proj1 (proj2 (proj2
               (retrying_caller
                  (imageUri <- perform (Scripted.world Scripted.ok (Scripted.first_calls 2))
                                 StorageUpload;;
                   console_log [T "Image uploaded:"; T imageUri];;
                   ret imageUri)
                  "Upload failed" "Failed to upload image after all retries"
                  (fun imageUri => truthy_string (Some imageUri)) 0)))
               (Scripted.failure 0) 1 [Call StorageUpload]
               (Scripted.failure 1) 2 [Call StorageUpload]
               "https://arweave.net/image" 3
               [Call StorageUpload;
                ConsoleLog [T "Image uploaded:"; T "https://arweave.net/image"]]
               eq_refl eq_refl eq_refl).
    + split; reflexivity.
  - eexists. split.
    + exact (proj1 (proj2 (proj2 (proj2
               (retrying_caller
                  (imageUri <- perform (Scripted.world Scripted.ok Scripted.always)
                                 StorageUpload;;
                   console_log [T "Image uploaded:"; T imageUri];;
                   ret imageUri)
                  "Upload failed" "Failed to upload image after all retries"
                  (fun imageUri => truthy_string (Some imageUri)) 0))))
               (Scripted.failure 0) 1 [Call StorageUpload]
               (Scripted.failure 1) 2 [Call StorageUpload]
               (Scripted.failure 2) 3 [Call StorageUpload]
               eq_refl eq_refl eq_refl).
    + split; reflexivity.
Defined.

(* ================================================================== *)
(** * Global replacement *)
(* ================================================================== *)

Section Replace.

Lemma append_assoc (a b c : string) : (a ++ b) ++ c = a ++ (b ++ c).
Proof. induction a as [|x a IH]; cbn; [reflexivity | now rewrite IH]. Qed.

Lemma append_nil_r (a : string) : a ++ EmptyString = a.
Proof. induction a as [|x a IH]; cbn; [reflexivity | now rewrite IH]. Qed.

Lemma prefix_cons (p : ascii) (pt : string) (x : ascii) (s : string) :
  prefix (String p pt) (String x s) = (Ascii.eqb p x && prefix pt s).
Proof.
  cbn. destruct (ascii_dec p x) as [->|Hne].
  - now rewrite Ascii.eqb_refl.
  - apply Ascii.eqb_neq in Hne. now rewrite Hne.
Qed.

Lemma prefix_nil (s : string) : prefix EmptyString s = true.
Proof. now destruct s. Qed.

Lemma prefix_append (q s : string) : prefix q (q ++ s) = true.
Proof.
  induction q as [|y q IH]; [apply prefix_nil|].
  cbn [append]. now rewrite prefix_cons, Ascii.eqb_refl, IH.
Qed.

(** A match that starts inside [a] cannot run over a following character
    that the rest of the pattern does not contain. *)
Lemma prefix_within (c : ascii) (b q a : string) :
  mem c q = false ->
  prefix q (a ++ String c b) = true ->
  prefix q a = true /\ String.length q <= String.length a.
Proof.
  revert a. induction q as [|y q IH]; intros a Hc Hp.
  - split; [apply prefix_nil | cbn; lia].
  - cbn in Hc. apply orb_false_iff in Hc as [Hcy Hcq].
    destruct a as [|x a]; cbn [append] in Hp; rewrite prefix_cons in Hp;
      apply andb_true_iff in Hp as [Hyx Hp].
    + rewrite Ascii.eqb_sym in Hcy. congruence.
    + destruct (IH a Hcq Hp) as [Hq Hlen].
      rewrite prefix_cons, Hyx, Hq. split; [reflexivity | cbn; lia].
Qed.

Lemma prefix_extend (q a s : string) :
  prefix q a = true -> prefix q (a ++ s) = true.
Proof.
  revert a. induction q as [|y q IH]; intros a H; [apply prefix_nil|].
  destruct a as [|x a]; [discriminate H|].
  cbn [append]. rewrite prefix_cons in *.
  apply andb_true_iff in H as [Hyx H]. now rewrite Hyx, (IH a H).
Qed.

Variables (p : ascii) (pt rep : string).
Let pat : string := String p pt.

(** A kept character: it does not start a match. *)
Lemma replaceAll_keep (c : ascii) (s : string) :
  Ascii.eqb p c = false ->
  replaceAll pat rep (String c s) = String c (replaceAll pat rep s).
Proof.
  intros H. unfold replaceAll, pat. cbn [replace_from].
  now rewrite prefix_cons, H.
Qed.

Lemma replace_from_skip (w s : string) (k : nat) :
  replace_from pat rep (String.length w + k) (w ++ s) = replace_from pat rep k s.
Proof. induction w as [|x w IH]; cbn; [reflexivity | exact IH]. Qed.

(** A match at the head: the replacement, then the text after the match. *)
Lemma replaceAll_match (s : string) :
  replaceAll pat rep (pat ++ s) = rep ++ replaceAll pat rep s.
Proof.
  unfold replaceAll. unfold pat at 2. cbn [append replace_from].
  fold pat. change (String p (pt ++ s)) with (pat ++ s).
  rewrite prefix_append. f_equal.
  change (pred (String.length pat)) with (String.length pt).
  rewrite <- (Nat.add_0_r (String.length pt)). apply replace_from_skip.
Qed.

(** The scan of [a ++ c :: b] is the scan of [a] followed by the scan of
    [c :: b], when no match can run over [c]. *)
Lemma replace_from_split (c : ascii) (b a : string) (k : nat) :
  mem c pt = false ->
  replace_from pat rep k (a ++ String c b)
  = replace_from pat rep k a ++ replace_from pat rep (k - String.length a) (String c b).
Proof.
  intros Hc. revert k. induction a as [|x a IH]; intros k.
  - cbn [append String.length replace_from]. now rewrite Nat.sub_0_r.
  - cbn [append]. destruct k as [|k].
    + cbn [replace_from String.length Nat.sub].
      destruct (prefix pat (String x (a ++ String c b))) eqn:Hp.
      * unfold pat in Hp. rewrite prefix_cons in Hp.
        apply andb_true_iff in Hp as [Hpx Hp].
        destruct (prefix_within c b pt a Hc Hp) as [Hq Hlen].
        assert (Hp' : prefix pat (String x a) = true)
          by (unfold pat; now rewrite prefix_cons, Hpx, Hq).
        rewrite Hp', IH, append_assoc. do 2 f_equal.
        change (pred (String.length pat)) with (String.length pt).
        replace (String.length pt - String.length a) with 0 by lia.
        reflexivity.
      * assert (Hp' : prefix pat (String x a) = false).
        { destruct (prefix pat (String x a)) eqn:E; [|reflexivity].
          apply (prefix_extend _ _ (String c b)) in E. cbn [append] in E. congruence. }
        rewrite Hp'. cbn [append]. now rewrite IH.
    + cbn [replace_from String.length Nat.sub]. apply IH.
Qed.

Lemma replaceAll_split (c : ascii) (b a : string) :
  mem c pt = false ->
  replaceAll pat rep (a ++ String c b)
  = replaceAll pat rep a ++ replaceAll pat rep (String c b).
Proof. intros Hc. unfold replaceAll. now rewrite replace_from_split. Qed.

Lemma replaceAll_untouched (w s : string) :
  untouched p w = true ->
  replaceAll pat rep (w ++ s) = w ++ replaceAll pat rep s.
Proof.
  induction w as [|c w IH]; intros H; [reflexivity|].
  cbn in H. apply andb_true_iff in H as [Hc H].
  apply negb_true_iff in Hc.
  cbn [append]. rewrite replaceAll_keep by exact Hc. now rewrite IH.
Qed.

(** An occurrence of the pattern is replaced whatever stands around it. *)
Lemma replaceAll_occurrence (a b : string) :
  mem p pt = false ->
  replaceAll pat rep (a ++ pat ++ b) = replaceAll pat rep a ++ rep ++ replaceAll pat rep b.
Proof.
  intros H. unfold pat at 2. cbn [append].
  rewrite replaceAll_split by exact H.
  change (String p (pt ++ b)) with (pat ++ b).
  now rewrite replaceAll_match.
Qed.

(** A word that no match can touch passes through unchanged. *)
Lemma replaceAll_passes (c : ascii) (w a b : string) :
  mem c pt = false ->
  untouched p (String c w) = true ->
  replaceAll pat rep (a ++ String c w ++ b)
  = replaceAll pat rep a ++ String c w ++ replaceAll pat rep b.
Proof.
  intros Hc Hw. cbn [append].
  rewrite replaceAll_split by exact Hc.
  change (String c (w ++ b)) with (String c w ++ b).
  now rewrite replaceAll_untouched.
Qed.

End Replace.

Ltac passes p pt c w := rewrite (replaceAll_passes p pt _ c w) by reflexivity.
Ltac replaced p pt := rewrite (replaceAll_occurrence p pt) by reflexivity.

(** C9: the normalisation is a global textual replacement.  In both
    scripts an occurrence of [None], [True], [False] or of a single quote is
    replaced whatever text [a] stands before it and whatever text [b]
    after it; inside a quoted value as well, then.  So an address that
    contains [None] is returned altered, and a value that contains an
    apostrophe makes the text unparsable and the row is dropped. *)
Theorem normalization_is_global :
  (forall a b : string,
      normalizedJson (a ++ "None" ++ b) = normalizedJson a ++ "null" ++ normalizedJson b
      /\ normalizedJson (a ++ "True" ++ b) = normalizedJson a ++ "true" ++ normalizedJson b
      /\ normalizedJson (a ++ "False" ++ b) = normalizedJson a ++ "false" ++ normalizedJson b
      /\ normalizedJson (a ++ "'" ++ b) = normalizedJson a ++ dq ++ normalizedJson b)
  /\ (forall a b : string,
      jsonStr (a ++ "None" ++ b) = jsonStr a ++ "null" ++ jsonStr b
      /\ jsonStr (a ++ "True" ++ b) = jsonStr a ++ "true" ++ jsonStr b
      /\ jsonStr (a ++ "False" ++ b) = jsonStr a ++ "false" ++ jsonStr b
      /\ jsonStr (a ++ "'" ++ b) = jsonStr a ++ dq ++ jsonStr b)
  /\ extract_try "[{'type': 'wallet', 'chain_type': 'solana', 'address': 'AbNonecd'}]"
     = inr (Some (JStr "Abnullcd"))
  /\ (forall W (w : W),
      users_of_records
        [mkUserData "7" "[{'type': 'wallet', 'chain_type': 'solana', 'address': 'AbNonecd'}]"] w
      = (Ret [mkUser "7" (Some (JStr "Abnullcd"))], w, []))
  /\ wallet_try "[{'type': 'wallet', 'chain_type': 'solana', 'address': 'AbTruecd'}]"
     = inr (Some (JObj [("type", JStr "wallet"); ("chain_type", JStr "solana");
                        ("address", JStr "Abtruecd")]))
  /\ extract_try ("[{'type': 'wallet', 'chain_type': 'solana', 'address': "
                  ++ dq ++ "O'Neil" ++ dq ++ "}]")
     = inl SyntaxError
  /\ (forall W (w : W),
      fst (fst (users_of_records
                  [mkUserData "8" ("[{'type': 'wallet', 'chain_type': 'solana', 'address': "
                                   ++ dq ++ "O'Neil" ++ dq ++ "}]")] w))
      = Ret []).
Proof.
  split; [|split; [|split; [|split; [|split; [|split]]]]].
  - intros a b. unfold normalizedJson, dq. repeat split.
    + passes "'"%char EmptyString "N"%char "one".
      passes "T"%char "rue" "N"%char "one".
      passes "F"%char "alse" "N"%char "one".
      replaced "N"%char "one". reflexivity.
    + passes "'"%char EmptyString "T"%char "rue".
      replaced "T"%char "rue".
      passes "F"%char "alse" "t"%char "rue".
      passes "N"%char "one" "t"%char "rue". reflexivity.
    + passes "'"%char EmptyString "F"%char "alse".
      passes "T"%char "rue" "F"%char "alse".
      replaced "F"%char "alse".
      passes "N"%char "one" "f"%char "alse". reflexivity.
    + replaced "'"%char EmptyString.
      passes "T"%char "rue" dquote EmptyString.
      passes "F"%char "alse" dquote EmptyString.
      passes "N"%char "one" dquote EmptyString. reflexivity.
  - intros a b. unfold jsonStr, dq. repeat split.
    + passes "'"%char EmptyString "N"%char "one".
      replaced "N"%char "one".
      passes "F"%char "alse" "n"%char "ull".
      passes "T"%char "rue" "n"%char "ull". reflexivity.
    + passes "'"%char EmptyString "T"%char "rue".
      passes "N"%char "one" "T"%char "rue".
      passes "F"%char "alse" "T"%char "rue".
      replaced "T"%char "rue". reflexivity.
    + passes "'"%char EmptyString "F"%char "alse".
      passes "N"%char "one" "F"%char "alse".
      replaced "F"%char "alse".
      passes "T"%char "rue" "f"%char "alse". reflexivity.
    + replaced "'"%char EmptyString.
      passes "N"%char "one" dquote EmptyString.
      passes "F"%char "alse" dquote EmptyString.
      passes "T"%char "rue" dquote EmptyString. reflexivity.
  - vm_compute. reflexivity.
  - intros W w. vm_compute. reflexivity.
  - vm_compute. reflexivity.
  - vm_compute. reflexivity.
  - intros W w. vm_compute. reflexivity.
Qed.

(* ================================================================== *)
(** * AddressExtractor *)
(* ================================================================== *)

Section Extraction.
Context {W : Type}.

Lemma is_solana_wallet_matches (account : jsval) :
  account <> JNull -> is_solana_wallet account = inr (matches account).
Proof. destruct account; intros H; try reflexivity. now contradiction H. Qed.

Lemma find_account_first (before after : list jsval) (account : jsval) :
  Forall (fun a => a <> JNull /\ matches a = false) before ->
  matches account = true ->
  find_account (before ++ account :: after) = inr (Some account).
Proof.
  intros Hb Hm. induction Hb as [|a before [Hnull Ha] _ IH]; cbn.
  - rewrite is_solana_wallet_matches, Hm; [reflexivity|].
    intros ->. discriminate Hm.
  - now rewrite (is_solana_wallet_matches a Hnull), Ha.
Qed.

Lemma find_account_none (accounts : list jsval) :
  Forall (fun a => matches a = false) accounts ->
  find_account accounts = inr None \/ exists e, find_account accounts = inl e.
Proof.
  induction 1 as [|a accounts Ha _ IH]; cbn; [now left|].
  destruct a; cbn in *; try exact IH; [right; eauto|].
  now rewrite Ha.
Qed.

Lemma extractSolanaAddress_run (linkedAccounts : string) (w : W) :
  extractSolanaAddress linkedAccounts w
  = (Ret (extract_value linkedAccounts), w, extract_log linkedAccounts).
Proof.
  unfold extractSolanaAddress, try_catch, extract_value, extract_log, lift.
  destruct (extract_try linkedAccounts) as [e|v]; reflexivity.
Qed.

Lemma map_M_users_run (records : list UserData) (w : W) :
  map_M (fun record =>
           address <- extractSolanaAddress record.(linked_accounts);;
           ret (mkUser record.(id) address)) records w
  = (Ret (map user_of records), w,
     flat_map (fun record => extract_log record.(linked_accounts)) records).
Proof.
  induction records as [|record records IH]; [reflexivity|].
  cbn [map_M map flat_map].
  assert (Hrow : (address <- extractSolanaAddress record.(linked_accounts);;
                  ret (mkUser record.(id) address)) w
                 = (Ret (user_of record), w, extract_log record.(linked_accounts))).
  { rewrite (bind_ret _ _ _ _ _ _ (extractSolanaAddress_run _ w)).
    unfold ret. now rewrite app_nil_r. }
  rewrite (bind_ret _ _ _ _ _ _ Hrow).
  rewrite (bind_ret _ _ _ _ _ _ IH).
  unfold ret. now rewrite app_nil_r.
Qed.

(** The extractor never throws: its result is the rows that have an
    address, in order, and its log the errors of the rows that failed. *)
Lemma users_of_records_run (records : list UserData) (w : W) :
  users_of_records records w
  = (Ret (map user_of (filter kept records)), w,
     flat_map (fun record => extract_log record.(linked_accounts)) records).
Proof.
  unfold users_of_records.
  rewrite (bind_ret _ _ _ _ _ _ (map_M_users_run records w)). unfold ret.
  rewrite app_nil_r. do 3 f_equal.
  induction records as [|record records IH]; [reflexivity|].
  cbn [map filter]. unfold kept at 1. cbn [user_of solanaAddress].
  destruct (is_defined (extract_value (linked_accounts record))); cbn [map]; now rewrite IH.
Qed.

Lemma collect_addresses_run (records : list UserData) (acc : list (option jsval)) (w : W) :
  collect_addresses records acc w
  = (Ret (acc ++ flat_map found_address records)%list, w, flat_map wallet_log records).
Proof.
  revert acc. induction records as [|record records IH]; intros acc.
  - cbn. now rewrite app_nil_r.
  - cbn [collect_addresses flat_map]. unfold bind at 1, try_catch.
    unfold found_address at 1, wallet_log at 1, lift.
    destruct (wallet_try (linked_accounts record)) as [e|[account|]]; cbn.
    + now rewrite IH.
    + rewrite IH. now rewrite <- app_assoc.
    + now rewrite IH.
Qed.

Lemma filter_subseq {A} (f : A -> bool) (xs : list A) : subseq (filter f xs) xs.
Proof.
  induction xs as [|x xs IH]; cbn; [constructor|].
  destruct (f x); now constructor.
Qed.

End Extraction.


(** The same happens when a [null] entry stands before the wallet: the
    callback of [find] throws on it, and the row is dropped. *)
Example null_entry_drops_the_row :
  JSON_parse (normalizedJson
                "[None, {'type': 'wallet', 'chain_type': 'solana', 'address': 'AbC123'}]")
  = Some (JArr [JNull;
                JObj [("type", JStr "wallet"); ("chain_type", JStr "solana");
                      ("address", JStr "AbC123")]])
  /\ fst (fst (users_of_records
                 [mkUserData "42"
                    "[None, {'type': 'wallet', 'chain_type': 'solana', 'address': 'AbC123'}]"]
                 tt))
     = Ret [].
Proof. split; vm_compute; reflexivity. Qed.



Lemma find_solana_none (v : jsval) :
  (forall accounts, v = JArr accounts -> Forall (fun a => matches a = false) accounts) ->
  find_solana v = inr None \/ exists e, find_solana v = inl e.
Proof.
  intros H. destruct v; cbn; try (right; eauto; fail).
  apply find_account_none. now apply H.
Qed.

Lemma find_linked_none (v : jsval) :
  (forall accounts, v = JArr accounts -> Forall (fun a => matches a = false) accounts) ->
  find_linked v = inr None \/ exists e, find_linked v = inl e.
Proof.
  intros H. destruct v; cbn; try (right; eauto; fail).
  apply find_account_none. now apply H.
Qed.

Lemma extract_value_none (text : string) :
  no_solana_wallet (JSON_parse (normalizedJson text)) -> extract_value text = None.
Proof.
  unfold extract_value, extract_try. intros [Hnone | [v [Hsome Hv]]].
  - now rewrite Hnone.
  - rewrite Hsome. destruct (find_solana_none v Hv) as [-> | [e ->]]; reflexivity.
Qed.

Lemma found_address_none (record : UserData) :
  no_solana_wallet (JSON_parse (jsonStr record.(linked_accounts))) -> found_address record = [].
Proof.
  unfold found_address, wallet_try. intros [Hnone | [v [Hsome Hv]]].
  - now rewrite Hnone.
  - rewrite Hsome. destruct (find_linked_none v Hv) as [-> | [e ->]]; reflexivity.
Qed.

(** C4: a row whose text does not parse after normalisation, or parses to
    something without a Solana wallet entry, is left out of the result,
    and nothing is thrown.
    - Per-user script: [extractSolanaAddress] returns [undefined] for the
      row (after two [console.error] lines when the parse failed), and
      [readUsersFromCSV] returns what it returns for the file without
      the row.
    - Compressed-NFT script: the extraction loop collects what it
      collects without the row, and logs the same two lines when the
      parse failed.
    - Whatever the rows are, both extractions return normally and leave
      the outside world as it was. *)
Theorem rows_without_solana_wallet_are_dropped {W : Type} (w : W)
  (record : UserData) (pre post : list UserData) :
  (no_solana_wallet (JSON_parse (normalizedJson record.(linked_accounts))) ->
   (exists t, extractSolanaAddress record.(linked_accounts) w = (Ret None, w, t))
   /\ (JSON_parse (normalizedJson record.(linked_accounts)) = None ->
       extractSolanaAddress record.(linked_accounts) w
       = (Ret None, w,
          [ConsoleError [T "Error parsing linked accounts:"; ErrArg SyntaxError];
           ConsoleError [T "Problematic JSON:"; T record.(linked_accounts)]]))
   /\ (exists users t t',
         users_of_records (pre ++ record :: post) w = (Ret users, w, t)
         /\ users_of_records (pre ++ post) w = (Ret users, w, t')))
  /\ (no_solana_wallet (JSON_parse (jsonStr record.(linked_accounts))) ->
      (exists addresses t t',
         collect_addresses (pre ++ record :: post) [] w = (Ret addresses, w, t)
         /\ collect_addresses (pre ++ post) [] w = (Ret addresses, w, t'))
      /\ (JSON_parse (jsonStr record.(linked_accounts)) = None ->
          collect_addresses [record] [] w
          = (Ret [], w,
             [ConsoleError [T "Error parsing linked_accounts:"; ErrArg SyntaxError];
              ConsoleError [T "Problematic JSON string:"; T record.(linked_accounts)]])))
  /\ (forall records : list UserData,
        (exists users t, users_of_records records w = (Ret users, w, t))
        /\ (exists addresses t, collect_addresses records [] w = (Ret addresses, w, t))).
Proof.
  split; [|split].
  - intros H. pose proof (extract_value_none _ H) as Hval.
    split; [|split].
    + eexists. now rewrite extractSolanaAddress_run, Hval.
    + intros Hnone. rewrite extractSolanaAddress_run, Hval.
      unfold extract_log, extract_try. now rewrite Hnone.
    + do 3 eexists. rewrite !users_of_records_run. split; [|reflexivity].
      rewrite !filter_app. cbn [filter]. unfold kept at 2. rewrite Hval.
      reflexivity.
  - intros H. pose proof (found_address_none _ H) as Hfound.
    split.
    + do 3 eexists. rewrite !collect_addresses_run. split; [|reflexivity].
      rewrite !flat_map_app. cbn [flat_map]. rewrite Hfound. reflexivity.
    + intros Hnone. rewrite collect_addresses_run. cbn [flat_map].
      rewrite Hfound. unfold wallet_log, wallet_try. now rewrite Hnone.
  - intros records. split; do 2 eexists.
    + apply users_of_records_run.
    + apply collect_addresses_run.
Qed.

(** A file of three rows: a Solana wallet, a text that is not JSON, an
    e-mail account only.  The second row is dropped with two error lines,
    the third silently. *)
Lemma rows_without_solana_wallet_are_dropped_witness :
  extractSolanaAddress "not json" tt
  = (Ret None, tt,
     [ConsoleError [T "Error parsing linked accounts:"; ErrArg SyntaxError];
      ConsoleError [T "Problematic JSON:"; T "not json"]])
  /\ (exists users t t',
        users_of_records
          ([mkUserData "1" "[{'type': 'wallet', 'chain_type': 'solana', 'address': 'A1'}]"]
           ++ mkUserData "3" "[{'type': 'email', 'verified': True}]" :: []) tt
        = (Ret users, tt, t)
        /\ users_of_records
             ([mkUserData "1" "[{'type': 'wallet', 'chain_type': 'solana', 'address': 'A1'}]"]
              ++ []) tt
           = (Ret users, tt, t'))
  /\ (exists addresses t t',
        collect_addresses ([] ++ mkUserData "2" "not json" :: []) [] tt = (Ret addresses, tt, t)
        /\ collect_addresses ([] ++ []) [] tt = (Ret addresses, tt, t')).
Proof.
  split; [|split].
  - exact (proj1 (proj2 (proj1
             (rows_without_solana_wallet_are_dropped tt (mkUserData "2" "not json") [] [])
             (or_introl eq_refl))) eq_refl).
  - refine (proj2 (proj2 (proj1
             (rows_without_solana_wallet_are_dropped tt
                (mkUserData "3" "[{'type': 'email', 'verified': True}]")
                [mkUserData "1" "[{'type': 'wallet', 'chain_type': 'solana', 'address': 'A1'}]"]
                [])
             (or_intror (ex_intro _ (JArr [JObj [("type", JStr "email");
                                                 ("verified", JBool true)]])
                                  (conj eq_refl _)))))).
    intros accounts Heq. injection Heq as <-.
    repeat constructor.
  - exact (proj1 (proj1 (proj2
             (rows_without_solana_wallet_are_dropped tt (mkUserData "2" "not json") [] []))
             (or_introl eq_refl))).
Defined.

(** C7, counterexample: a Solana wallet entry whose address is the empty
    string.  The filter of [readUsersFromCSV] compares with [undefined]
    only, so the row is returned with the empty address. *)
Lemma empty_address_counterexample : ~ addresses_are_nonempty.
Proof.
  intros H.
  specialize (H [mkUserData "42" "[{'type': 'wallet', 'chain_type': 'solana', 'address': ''}]"]
                [mkUser "42" (Some (JStr EmptyString))] eq_refl).
  inversion H as [|user users Hne _]; subst. now apply Hne.
Qed.

(** C7 (amended): every [User] the extractor returns has a defined
    [solanaAddress]: none carries [undefined]. *)
Theorem returned_addresses_are_defined :
  forall (W : Type) (w : W) (records : list UserData),
  exists users t,
    users_of_records records w = (Ret users, w, t)
    /\ Forall (fun user => is_defined user.(solanaAddress) = true) users.
Proof.
  intros W w records. do 2 eexists. split; [apply users_of_records_run|].
  apply Forall_forall. intros user Hin.
  apply in_map_iff in Hin as [record [<- Hin]].
  apply filter_In in Hin as [_ Hkept]. exact Hkept.
Qed.

Lemma subseq_length {A} (xs ys : list A) : subseq xs ys -> List.length xs <= List.length ys.
Proof. induction 1; cbn; lia. Qed.

(** C10: the extractor returns the rows it keeps, in the order of the
    file: there is a subsequence [rows] of the records (some rows left
    out, the others in place) such that the result is one [User] per row
    of [rows], in that order, each with the [id] of its row; so the result
    is never longer than the file. *)
Theorem extractor_output_is_subsequence :
  forall (W : Type) (w : W) (records : list UserData),
  exists (rows : list UserData) (users : list User) (t : list event),
    users_of_records records w = (Ret users, w, t)
    /\ subseq rows records
    /\ users = map user_of rows
    /\ map user_id users = map id rows
    /\ List.length users = List.length rows
    /\ List.length users <= List.length records.
Proof.
  intros W w records.
  exists (filter kept records), (map user_of (filter kept records)).
  eexists. split; [apply users_of_records_run|].
  split; [apply filter_subseq|]. split; [reflexivity|].
  split; [now rewrite map_map|].
  rewrite length_map. split; [reflexivity|].
  apply subseq_length, filter_subseq.
Qed.

(* ================================================================== *)
(** * BatchMinter *)
(* ================================================================== *)

Section Batches.
Context {W : Type} (ext : oracle W) (merkleTree metadataUri : string).

Lemma attempted_app (t u : list event) : attempted (t ++ u) = (attempted t ++ attempted u)%list.
Proof.
  induction t as [|e t IH]; [reflexivity|].
  cbn. destruct (attempt_of e); cbn; now rewrite IH.
Qed.

(** The mint of one recipient never throws: a failure is logged.  It
    starts with the one [publicKey] call and never waits. *)
Lemma mint_one_run (address : option jsval) (w : W) :
  exists w' t,
    mint_one ext merkleTree metadataUri address w = (Ret tt, w', t)
    /\ attempted t = [address]
    /\ sleeps t = 0
    /\ (accepts_every_address ext -> mint_calls t = 1).
Proof.
  unfold mint_one, try_catch, bind, perform.
  destruct (ext _ (PublicKey address) w) as [[e|leafOwner] w1] eqn:Hkey.
  - assert (Hno : ~ accepts_every_address ext).
    { intros H. destruct (H address w) as [k [w' Hk]]. congruence. }
    destruct e as [nm msg [logs|]|v]; do 2 eexists; cbn;
      (split; [reflexivity|]); (split; [reflexivity|]); (split; [reflexivity|]);
      intros H; now contradiction Hno.
  - destruct (ext _ (MintV1 leafOwner merkleTree metadataUri) w1) as [[e|[]] w2].
    + destruct e as [nm msg [logs|]|v]; do 2 eexists; cbn; repeat split; reflexivity.
    + destruct (ext _ BuilderSendAndConfirm w2) as [[e|[]] w3].
      * destruct e as [nm msg [logs|]|v]; do 2 eexists; cbn; repeat split; reflexivity.
      * do 2 eexists; cbn; repeat split; reflexivity.
Qed.

Lemma mint_calls_app (t u : list event) : mint_calls (t ++ u) = mint_calls t + mint_calls u.
Proof. unfold mint_calls. now rewrite filter_app, length_app. Qed.

Lemma for_of_mint_run (b : list (option jsval)) (w : W) :
  exists w' t,
    for_of b (mint_one ext merkleTree metadataUri) w = (Ret tt, w', t)
    /\ attempted t = b
    /\ sleeps t = 0
    /\ (accepts_every_address ext -> mint_calls t = List.length b).
Proof.
  revert w. induction b as [|address b IH]; intros w.
  - do 2 eexists. cbn. repeat split; reflexivity.
  - destruct (mint_one_run address w) as [w1 [t1 [H1 [Ha1 [Hs1 Hm1]]]]].
    destruct (IH w1) as [w2 [t2 [H2 [Ha2 [Hs2 Hm2]]]]].
    exists w2, (t1 ++ t2)%list. cbn [for_of].
    rewrite (bind_ret _ _ _ _ _ _ H1), H2.
    rewrite attempted_app, sleeps_app, Ha1, Ha2, Hs1, Hs2.
    repeat split; try reflexivity.
    intros Hok. rewrite mint_calls_app, (Hm1 Hok), (Hm2 Hok). reflexivity.
Qed.

End Batches.

Section BatchLoop.
Context {W : Type} (ext : oracle W) (merkleTree metadataUri : string).

Lemma bind_ext {A B} (m : M W A) (k k' : A -> M W B) (w : W) :
  (forall a w', k a w' = k' a w') -> bind m k w = bind m k' w.
Proof.
  intros H. unfold bind.
  destruct (m w) as [[[a|e|] w1] t1]; [now rewrite H | reflexivity | reflexivity].
Qed.

Lemma firstn_plus {A} (a b : nat) (l : list A) :
  firstn (a + b) l = (firstn a l ++ firstn b (skipn a l))%list.
Proof.
  revert l. induction a as [|a IH]; intros l; [reflexivity|].
  destruct l as [|x l]; cbn; [now rewrite firstn_nil | now rewrite IH].
Qed.

Lemma batch_eq {A} (xs : list A) (k : nat) :
  batch xs k = firstn batchSize (skipn (k * batchSize) xs).
Proof.
  unfold batch, slice.
  now replace (k * batchSize + batchSize - k * batchSize) with batchSize by lia.
Qed.

Lemma concat_batches_upto {A} (xs : list A) (m : nat) :
  concat (map (batch xs) (seq 0 m)) = firstn (m * batchSize) xs.
Proof.
  induction m as [|m IH]; [reflexivity|].
  rewrite seq_S, map_app, concat_app, IH. cbn [map concat Nat.add].
  rewrite app_nil_r, batch_eq.
  replace (S m * batchSize) with (m * batchSize + batchSize) by (unfold batchSize; lia).
  now rewrite firstn_plus.
Qed.

Lemma batch_count_lt (n k : nat) : k < batch_count n <-> k * batchSize < n.
Proof.
  unfold batch_count, batchSize. cbn [Nat.sub].
  pose proof (Nat.div_mod_eq (n + 4) 5) as Hq.
  pose proof (Nat.mod_upper_bound (n + 4) 5 ltac:(discriminate)) as Hr.
  lia.
Qed.

(** The batches are a partition of the list: put end to end they give it
    back. *)
Lemma concat_batches {A} (xs : list A) : concat (batches xs) = xs.
Proof.
  unfold batches. rewrite concat_batches_upto. apply firstn_all2.
  destruct (Nat.le_gt_cases (List.length xs) (batch_count (List.length xs) * batchSize))
    as [H|H]; [exact H|].
  apply batch_count_lt in H. lia.
Qed.

Lemma length_batch {A} (xs : list A) (k : nat) :
  List.length (batch xs k) = Nat.min batchSize (List.length xs - k * batchSize).
Proof. now rewrite batch_eq, length_firstn, length_skipn. Qed.

Lemma batch_loop_unfold (solanaAddresses : list (option jsval)) (fuel i : nat) :
  batch_loop ext merkleTree metadataUri solanaAddresses (S fuel) i =
  if (i <? List.length solanaAddresses)%nat then
    console_log [Msg [Txt "Minting batch "; Num (Z.of_nat (i / batchSize + 1));
                      Txt " of ";
                      Num (Z.of_nat (batch_count (List.length solanaAddresses)));
                      Txt "..."]];;
    for_of (slice i (i + batchSize) solanaAddresses)
      (mint_one ext merkleTree metadataUri);;
    (if (i + batchSize <? List.length solanaAddresses)%nat then
       console_log [T "Waiting 2 seconds before next batch..."];;
       sleep 2000
     else ret tt);;
    batch_loop ext merkleTree metadataUri solanaAddresses fuel (i + batchSize)
  else ret tt.
Proof. reflexivity. Qed.

(** The index-driven loop runs the batches [k], [k + 1], ... in order. *)
Lemma batch_loop_run (addrs : list (option jsval)) (fuel k : nat) (w : W) :
  batch_count (List.length addrs) - k <= fuel ->
  batch_loop ext merkleTree metadataUri addrs fuel (k * batchSize) w
  = run_batches ext merkleTree metadataUri (List.length addrs)
      (batch_count (List.length addrs)) k
      (map (batch addrs) (seq k (batch_count (List.length addrs) - k))) w.
Proof.
  set (n := List.length addrs). set (total := batch_count n).
  revert k w. induction fuel as [|fuel IH]; intros k w Hfuel.
  - replace (total - k) with 0 by lia. cbn [seq map run_batches].
    assert (Hge : (k * batchSize <? n)%nat = false).
    { apply Nat.ltb_ge. destruct (Nat.le_gt_cases n (k * batchSize)) as [H|H]; [exact H|].
      apply batch_count_lt in H. fold total in H. lia. }
    change (batch_loop ext merkleTree metadataUri addrs 0 (k * batchSize))
      with (if (k * batchSize <? n)%nat then @diverge W unit else ret tt).
    now rewrite Hge.
  - rewrite batch_loop_unfold. fold n. fold total.
    destruct (k * batchSize <? n)%nat eqn:Hlt.
    + apply Nat.ltb_lt in Hlt. pose proof (proj2 (batch_count_lt n k) Hlt) as Hk.
      fold total in Hk.
      replace (total - k) with (S (total - S k)) by lia.
      cbn [seq map run_batches].
      rewrite Nat.div_mul by discriminate.
      apply bind_ext. intros _ w1.
      apply bind_ext. intros _ w2.
      replace (k * batchSize + batchSize <? n)%nat with (S k <? total)%nat.
      2:{ destruct (S k <? total)%nat eqn:E.
          - apply Nat.ltb_lt in E. apply batch_count_lt in E.
            symmetry. apply Nat.ltb_lt. unfold batchSize in *. lia.
          - apply Nat.ltb_ge in E. symmetry. apply Nat.ltb_ge.
            destruct (Nat.le_gt_cases n (k * batchSize + batchSize)) as [H|H]; [exact H|].
            assert (S k * batchSize < n) by (unfold batchSize in *; lia).
            apply batch_count_lt in H0. fold total in H0. lia. }
      apply bind_ext. intros _ w3.
      replace (k * batchSize + batchSize) with (S k * batchSize) by (unfold batchSize; lia).
      apply IH. lia.
    + apply Nat.ltb_ge in Hlt.
      assert (Hk : total <= k).
      { destruct (Nat.le_gt_cases total k) as [H|H]; [exact H|].
        apply batch_count_lt in H. lia. }
      replace (total - k) with 0 by lia. reflexivity.
Qed.

(** The run of a list of batches: it never throws, it attempts the mint of
    every recipient of every batch once and in order, and it waits two
    seconds after each batch that is not the last one. *)
Lemma run_batches_run (n total : nat) (bs : list (list (option jsval))) (k : nat) (w : W) :
  exists w' t,
    run_batches ext merkleTree metadataUri n total k bs w = (Ret tt, w', t)
    /\ attempted t = concat bs
    /\ filter is_sleep t = repeat (Sleep 2000) (Nat.min (List.length bs) (total - 1 - k))
    /\ (accepts_every_address ext -> mint_calls t = List.length (concat bs)).
Proof.
  revert k w. induction bs as [|b bs IH]; intros k w.
  - do 2 eexists. cbn. repeat split; reflexivity.
  - destruct (for_of_mint_run ext merkleTree metadataUri b w)
      as [w1 [t1 [H1 [Ha1 [Hs1 Hm1]]]]].
    destruct (IH (S k) w1) as [w2 [t2 [H2 [Ha2 [Hs2 Hm2]]]]].
    apply length_zero_iff_nil in Hs1.
    cbn [run_batches].
    destruct (S k <? total)%nat eqn:Hlast.
    + exists w2, ([batch_header k n] ++ t1 ++ batch_wait ++ t2)%list.
      split; [|split; [|split]].
      * unfold bind at 1. cbn [emit].
        rewrite (bind_ret _ _ _ _ _ _ H1).
        unfold bind at 1. unfold bind at 1. unfold console_log, sleep, emit.
        rewrite H2. unfold batch_wait. cbn [app]. reflexivity.
      * rewrite !attempted_app, Ha1, Ha2. reflexivity.
      * rewrite !filter_app, Hs1, Hs2. cbn [filter is_sleep batch_header batch_wait app].
        apply Nat.ltb_lt in Hlast.
        replace (Nat.min (List.length (b :: bs)) (total - 1 - k))
          with (S (Nat.min (List.length bs) (total - 1 - S k))) by (cbn [List.length]; lia).
        reflexivity.
      * intros Hok. rewrite !mint_calls_app, (Hm1 Hok), (Hm2 Hok).
        cbn [concat]. rewrite length_app. reflexivity.
    + exists w2, ([batch_header k n] ++ t1 ++ t2)%list.
      split; [|split; [|split]].
      * unfold bind at 1. cbn [emit].
        rewrite (bind_ret _ _ _ _ _ _ H1).
        unfold bind at 1. unfold ret at 1.
        rewrite H2. cbn [app]. reflexivity.
      * rewrite !attempted_app, Ha1, Ha2. reflexivity.
      * rewrite !filter_app, Hs1, Hs2. cbn [filter is_sleep batch_header app].
        apply Nat.ltb_ge in Hlast.
        replace (Nat.min (List.length (b :: bs)) (total - 1 - k)) with 0
          by (cbn [List.length]; lia).
        replace (Nat.min (List.length bs) (total - 1 - S k)) with 0 by lia.
        reflexivity.
      * intros Hok. rewrite !mint_calls_app, (Hm1 Hok), (Hm2 Hok).
        cbn [concat]. rewrite length_app. reflexivity.
Qed.

End BatchLoop.

Lemma batch_count_le (n : nat) : batch_count n <= n.
Proof.
  unfold batch_count, batchSize. cbn [Nat.sub].
  pose proof (Nat.div_mod_eq (n + 4) 5) as Hq.
  pose proof (Nat.mod_upper_bound (n + 4) 5 ltac:(discriminate)) as Hr.
  lia.
Qed.

Lemma batch_mint_refines {W : Type} (ext : oracle W) (merkleTree metadataUri : string)
  (addrs : list (option jsval)) (w : W) :
  batch_mint ext merkleTree metadataUri addrs w
  = run_batches ext merkleTree metadataUri (List.length addrs)
      (batch_count (List.length addrs)) 0 (batches addrs) w.
Proof.
  unfold batch_mint, batches.
  change 0 with (0 * batchSize) at 1.
  rewrite batch_loop_run by (pose proof (batch_count_le (List.length addrs)); lia).
  now rewrite Nat.sub_0_r.
Qed.

Lemma batch_mint_run {W : Type} (ext : oracle W) (merkleTree metadataUri : string)
  (addrs : list (option jsval)) (w : W) :
  exists w' t,
    batch_mint ext merkleTree metadataUri addrs w = (Ret tt, w', t)
    /\ attempted t = addrs
    /\ filter is_sleep t = repeat (Sleep 2000) (batch_count (List.length addrs) - 1)
    /\ (accepts_every_address ext -> mint_calls t = List.length addrs).
Proof.
  destruct (run_batches_run ext merkleTree metadataUri (List.length addrs)
              (batch_count (List.length addrs)) (batches addrs) 0 w)
    as [w' [t [H [Ha [Hs Hm]]]]].
  exists w', t. rewrite batch_mint_refines. split; [exact H|]. split; [|split].
  - rewrite Ha. apply concat_batches.
  - rewrite Hs. f_equal. unfold batches. rewrite length_map, length_seq. lia.
  - intros Hok. rewrite (Hm Hok). now rewrite concat_batches.
Qed.



(* ================================================================== *)
(** * A failed mint: logged and passed over, or thrown on *)
(* ================================================================== *)


Section MintFailure.
Context {W : Type} (ext : oracle W).

Lemma for_of_app {A} (body : A -> M W unit) (xs ys : list A) (w w1 : W) (t0 : list event) :
  for_of xs body w = (Ret tt, w1, t0) ->
  for_of (xs ++ ys) body w
  = (let '(r, w2, t2) := for_of ys body w1 in (r, w2, (t0 ++ t2)%list)).
Proof.
  revert w t0. induction xs as [|x xs IH]; intros w t0 H.
  - cbn in H. injection H as <- <-. cbn [app].
    now destruct (for_of ys body w) as [[r w2] t2].
  - cbn [for_of app] in *. unfold bind in *.
    destruct (body x w) as [[[[]|e|] wx] tx]; try discriminate H.
    destruct (for_of xs body wx) as [[[[]|e|] wy] ty] eqn:Hxs; try discriminate H.
    injection H as <- <-.
    rewrite (IH wx ty Hxs).
    destruct (for_of ys body wy) as [[r w2] t2]. now rewrite app_assoc.
Qed.

(** The [catch] of [main] in the per-user script: what the loop over the
    users throws is printed there, and [main] returns. *)
Lemma main_users_catches (argv2 : option string) (env : Env) (w w1 w2 w3 w4 w5 : W)
  (wallet collectionMetadataUri : string) (collectionNft : CreateNftOutput)
  (users : list User) (e : exn) (t1 t3 t4 t5 : list event) :
  setup ext (select_network argv2) env w = (Ret wallet, w1, t1) ->
  ext _ (UploadMetadata "My Collection NFT"
           [Txt "This is a collection NFT on Solana "; name_atom (select_network argv2)]
           arweave_image [("Network", name_atom (select_network argv2))]) w1
  = (inr collectionMetadataUri, w2) ->
  mint_collection ext collectionMetadataUri w2 = (Ret collectionNft, w3, t3) ->
  readUsersFromCSV ext "./users.sample.csv" w3 = (Ret users, w4, t4) ->
  mint_users ext users arweave_image collectionNft w4 = (Throw e, w5, t5) ->
  exists t,
    main_users ext argv2 env w
    = (Ret tt, w5, (t ++ t5 ++ [ConsoleError [T "Error minting NFTs:"; ErrArg e]])%list).
Proof.
  intros Hsetup Hupload Hcollection Hread Hmint.
  unfold main_users. cbv zeta. rewrite (bind_ret _ _ _ _ _ _ Hsetup).
  unfold try_catch, bind, perform, console_log, console_error, emit.
  rewrite Hupload, Hcollection, Hread, Hmint.
  exists (t1 ++ ConsoleLog [T "Using image from Arweave:"; T arweave_image]
             :: Call (UploadMetadata "My Collection NFT"
                        [Txt "This is a collection NFT on Solana ";
                         name_atom (select_network argv2)]
                        arweave_image [("Network", name_atom (select_network argv2))])
             :: ConsoleLog [T "Collection metadata uploaded:"; T collectionMetadataUri]
             :: t3 ++ t4
             ++ [ConsoleLog [Msg [Txt "Found "; Num (Z.of_nat (List.length users));
                                  Txt " users with Solana addresses"]]])%list.
  cbn [app]. repeat (rewrite <- app_assoc; cbn [app]). reflexivity.
Qed.

End MintFailure.



(* ================================================================== *)
(** * NetworkSelector and the start of the scripts *)
(* ================================================================== *)

Section Setup.
Context {W : Type} (ext : oracle W).

Ltac answer :=
  match goal with
  | |- context [ext ?R ?c ?w] => destruct (ext R c w) as [[?|?] ?]
  end.

(** With no configuration selected, the opening of [main] always throws:
    at the first read of a field of [config], if nothing threw before. *)
Lemma setup_undefined (env : Env) (w : W) :
  exists e w' t,
    setup ext Undefined env w = (Throw e, w', t) /\ no_upload_or_mint t.
Proof.
  unfold setup, rpc_endpoint, no_upload_or_mint.
  destruct (truthy_string (SOLANA_RPC_URL env)) eqn:Hrpc; cbn [lift config_rpcUrl].
  2:{ do 3 eexists. split; reflexivity. }
  unfold bind at 1. cbn [ret]. unfold bind at 1. unfold perform at 1.
  answer; [do 3 eexists; split; reflexivity|].
  destruct (WALLET_PRIVATE_KEY env) as [key|]; [|do 3 eexists; split; reflexivity].
  destruct (truthy_string (Some key)); [|do 3 eexists; split; reflexivity].
  unfold bind at 1. unfold perform at 1.
  answer; [do 3 eexists; split; reflexivity|].
  unfold bind at 1. unfold perform at 1.
  answer; [do 3 eexists; split; reflexivity|].
  unfold bind at 1. unfold perform at 1.
  answer; [do 3 eexists; split; reflexivity|].
  cbn. do 3 eexists. split; reflexivity.
Qed.

(** Without [WALLET_PRIVATE_KEY] the opening of [main] always throws, and
    when nothing throws before the check, it throws the error of the
    check. *)
Lemma setup_without_key (config : lookup) (env : Env) (w : W) :
  env.(WALLET_PRIVATE_KEY) = None ->
  (exists e w' t, setup ext config env w = (Throw e, w', t) /\ no_upload_or_mint t)
  /\ (forall endpoint w1,
        rpc_endpoint env config = inr endpoint ->
        ext _ (NewConnection endpoint env.(SOLANA_WS_URL)) w = (inr tt, w1) ->
        setup ext config env w
        = (Throw (Error [Txt "WALLET_PRIVATE_KEY is not set in .env file"]), w1,
           [Call (NewConnection endpoint env.(SOLANA_WS_URL))])).
Proof.
  intros Hkey. unfold setup, no_upload_or_mint. rewrite Hkey. split.
  - destruct (rpc_endpoint env config) as [e|endpoint]; cbn [lift].
    + do 3 eexists. split; reflexivity.
    + unfold bind at 1. cbn [ret]. unfold bind at 1. unfold perform at 1.
      answer; do 3 eexists; split; reflexivity.
  - intros endpoint w1 Hrpc Hconn. rewrite Hrpc. cbn [lift].
    unfold bind at 1. cbn [ret]. unfold bind at 1. unfold perform at 1.
    now rewrite Hconn.
Qed.

End Setup.

(** C6, counterexample: the empty string as command-line argument.  It is
    falsy, so [||] replaces it by ['devnet'], and the script mints on
    devnet to the end. *)
Lemma empty_token_counterexample : ~ unknown_token_is_an_error.
Proof.
  intros H.
  destruct (H nat (Scripted.world Scripted.ok Scripted.never) Scripted.env_ok 0 EmptyString)
    as [e He]; [discriminate | discriminate |].
  vm_compute in He. discriminate He.
Qed.

(** A token that names a property of [Object.prototype] is no error
    either: the lookup finds the inherited function, whose fields are
    [undefined], and the script goes on with them. *)
Example inherited_token_is_no_error :
  select_network (Some "constructor") = Inherited "constructor"
  /\ fst (fst (main (Scripted.world Scripted.ok Scripted.never) (Some "constructor")
                 (mkEnv (Some "http://localhost:8899") None (Some "secret")) 0))
     = Ret tt.
Proof. split; vm_compute; reflexivity. Qed.

(** C6 (amended): the network selector.
    - [mainnet] selects the mainnet record (its RPC URL, the name
      [Mainnet Beta]); [devnet], no token and the empty token select the
      devnet record.
    - The selector itself rejects nothing.  A token that is none of these
      and names no property of [Object.prototype] selects [undefined];
      the script then ends with a thrown error before any upload or mint,
      and when [SOLANA_RPC_URL] is not set that error is the [TypeError] of
      reading [rpcUrl] of [undefined], before anything else is done.
    - A token that names a property of [Object.prototype] selects that
      inherited value. *)
Theorem network_selector :
  (select_network (Some "mainnet") = Own mainnet
   /\ mainnet.(rpcUrl) = "https://api.mainnet-beta.solana.com"
   /\ mainnet.(name) = "Mainnet Beta")
  /\ (select_network None = Own devnet
      /\ select_network (Some EmptyString) = Own devnet
      /\ select_network (Some "devnet") = Own devnet)
  /\ (forall token : string,
        token <> EmptyString -> token <> "mainnet" -> token <> "devnet" ->
        ~ In token object_prototype_keys ->
        select_network (Some token) = Undefined
        /\ forall (W : Type) (ext : oracle W) (env : Env) (w : W),
            (exists e w' t,
                main ext (Some token) env w = (Throw e, w', t) /\ no_upload_or_mint t)
            /\ (truthy_string env.(SOLANA_RPC_URL) = false ->
                main ext (Some token) env w = (Throw (undefined_read "rpcUrl"), w, [])))
  /\ (forall token : string,
        In token object_prototype_keys -> select_network (Some token) = Inherited token).
Proof.
  split; [repeat split|]. split; [repeat split|]. split.
  - intros token Hne Hmain Hdev Hproto.
    assert (Hsel : select_network (Some token) = Undefined).
    { unfold select_network, network_of, truthy_string.
      apply String.eqb_neq in Hne, Hmain, Hdev. rewrite Hne. cbn [negb].
      unfold config_of, NETWORK_CONFIGS. cbn [own_property]. rewrite Hmain, Hdev.
      destruct (existsb (String.eqb token) object_prototype_keys) eqn:E; [|reflexivity].
      apply existsb_exists in E as [key [Hin Heq]].
      apply String.eqb_eq in Heq. subst key. contradiction. }
    split; [exact Hsel|].
    intros W ext env w. unfold main. rewrite Hsel. split.
    + destruct (setup_undefined ext env w) as [e [w' [t [H Hno]]]].
      exists e, w', t. split; [|exact Hno].
      now rewrite (bind_throw _ _ _ _ _ _ H).
    + intros Hrpc.
      apply bind_throw. unfold setup, rpc_endpoint. rewrite Hrpc. reflexivity.
  - intros token Hin.
    cbn in Hin.
    repeat (destruct Hin as [<- | Hin]; [reflexivity|]). contradiction.
Qed.

Lemma network_selector_witness :
  select_network (Some "testnet") = Undefined
  /\ main (Scripted.world Scripted.ok Scripted.never) (Some "testnet") Scripted.env_ok 0
     = (Throw (undefined_read "rpcUrl"), 0, []).
Proof.
  pose (thm := proj1 (proj2 (proj2 network_selector)) "testnet"
                 ltac:(discriminate) ltac:(discriminate) ltac:(discriminate)
                 ltac:(cbn; intuition discriminate)).
  split.
  - exact (proj1 thm).
  - exact (proj2 (proj2 thm nat (Scripted.world Scripted.ok Scripted.never)
                    Scripted.env_ok 0) eq_refl).
Defined.

(** C8: without [WALLET_PRIVATE_KEY] each of the three minting scripts
    ends with a thrown error before any upload or mint.  The
    compressed-NFT script throws at its first statement.  The other two
    check the key after the network is selected and the connection made:
    when that went well, the error is the one of the check and the
    connection is all that happened. *)
Theorem missing_wallet_key_fails_fast {W : Type} (ext : oracle W)
  (argv2 : option string) (env : Env) (w : W) :
  env.(WALLET_PRIVATE_KEY) = None ->
  let missing := Error [Txt "WALLET_PRIVATE_KEY is not set in .env file"] in
  (exists e w' t, main ext argv2 env w = (Throw e, w', t) /\ no_upload_or_mint t)
  /\ (exists e w' t, main_users ext argv2 env w = (Throw e, w', t) /\ no_upload_or_mint t)
  /\ main_compressed ext env w = (Throw missing, w, [])
  /\ (forall endpoint w1,
        rpc_endpoint env (select_network argv2) = inr endpoint ->
        ext _ (NewConnection endpoint env.(SOLANA_WS_URL)) w = (inr tt, w1) ->
        main ext argv2 env w
        = (Throw missing, w1, [Call (NewConnection endpoint env.(SOLANA_WS_URL))])
        /\ main_users ext argv2 env w
           = (Throw missing, w1, [Call (NewConnection endpoint env.(SOLANA_WS_URL))])).
Proof.
  intros Hkey missing.
  destruct (setup_without_key ext (select_network argv2) env w Hkey)
    as [[e [w' [t [Hsetup Hno]]]] Hcheck].
  split; [|split; [|split]].
  - exists e, w', t. split; [|exact Hno]. unfold main. now apply bind_throw.
  - exists e, w', t. split; [|exact Hno]. unfold main_users. now apply bind_throw.
  - unfold main_compressed. now rewrite Hkey.
  - intros endpoint w1 Hrpc Hconn. specialize (Hcheck endpoint w1 Hrpc Hconn).
    split; [unfold main | unfold main_users]; now apply bind_throw.
Qed.

Lemma missing_wallet_key_fails_fast_witness :
  main (Scripted.world Scripted.ok Scripted.never) (Some "mainnet") (mkEnv None None None) 0
  = (Throw (Error [Txt "WALLET_PRIVATE_KEY is not set in .env file"]), 1,
     [Call (NewConnection (Some "https://api.mainnet-beta.solana.com") None)])
  /\ main_compressed (Scripted.world Scripted.ok Scripted.never) (mkEnv None None None) 0
     = (Throw (Error [Txt "WALLET_PRIVATE_KEY is not set in .env file"]), 0, []).
Proof.
  pose (thm := missing_wallet_key_fails_fast (Scripted.world Scripted.ok Scripted.never)
                 (Some "mainnet") (mkEnv None None None) 0 eq_refl).
  split.
  - exact (proj1 (proj2 (proj2 (proj2 thm))
                    (Some "https://api.mainnet-beta.solana.com") 1 eq_refl eq_refl)).
  - exact (proj1 (proj2 (proj2 thm))).
Defined.

(* ================================================================== *)
(** * [JSON.parse] always answers *)
(* ================================================================== *)

Section ParserTermination.

Ltac break_hyp H :=
  match type of H with
  | context [match ?x with _ => _ end] => destruct x eqn:?
  end.

Ltac inject_pairs :=
  repeat match goal with
         | H : (_, _) = (_, _) |- _ => injection H; intros; subst; try clear H
         | H : Some _ = Some _ |- _ => injection H; intros; subst; try clear H
         end.

Ltac break_all :=
  repeat (match goal with
          | H : context [match ?x with _ => _ end] |- _ => destruct x eqn:?
          end; try discriminate; inject_pairs).

Lemma skip_ws_le (s : string) : String.length (skip_ws s) <= String.length s.
Proof. induction s as [|c s IH]; cbn; [lia|]. destruct (is_ws c); cbn; lia. Qed.

Lemma skip_ws_cons (s : string) (c : ascii) (r : string) :
  skip_ws s = String c r -> String.length r < String.length s.
Proof. intros H. pose proof (skip_ws_le s) as Hle. rewrite H in Hle. cbn in Hle. lia. Qed.

Lemma prepend_inv (p : string) (x : option (string * string)) (str r : string) :
  prepend p x = Some (str, r) -> exists body, x = Some (body, r).
Proof. destruct x as [[body rest]|]; cbn; intros H; [|discriminate]. injection H as _ <-. eauto. Qed.

Lemma parse_chars_length (n : nat) :
  forall (s : string) (pending : option N) (str r : string),
    String.length s <= n ->
    parse_chars pending s = Some (str, r) -> String.length r < String.length s.
Proof.
  induction n as [|n IH]; intros s pending str r Hn H.
  - destruct s; cbn in Hn; [discriminate H | lia].
  - destruct s as [|c s]; [discriminate H|].
    cbn [parse_chars] in H. cbn [String.length] in *.
    repeat (break_hyp H; try discriminate H);
      inject_pairs;
      repeat match goal with
             | H : prepend _ _ = Some _ |- _ => apply prepend_inv in H as [? H]
             | H : parse_chars _ ?s' = Some _ |- _ =>
                 apply IH in H; [|cbn [String.length] in *; lia]
             end;
      cbn [String.length] in *; try lia.
Qed.

Lemma span_digits_le (s : string) :
  forall (acc : Z) (n : nat) (v : Z) (m : nat) (r : string),
    span_digits acc n s = (v, m, r) -> String.length r <= String.length s.
Proof.
  induction s as [|c s IH]; intros acc n v m r H; cbn in H.
  - injection H as _ _ <-. cbn. lia.
  - destruct (is_digit c).
    + apply IH in H. cbn. lia.
    + injection H as _ _ <-. cbn. lia.
Qed.

Lemma parse_number_length (s : string) (v : jsval) (r : string) :
  parse_number s = POk v r -> String.length r < String.length s.
Proof.
  unfold parse_number. intros H.
  break_all;
    try (injection H as _ <-);
    repeat match goal with
           | H : span_digits _ _ _ = _ |- _ => apply span_digits_le in H
           end;
    cbn [String.length] in *; lia.
Qed.

Lemma parse_number_answers (s : string) : parse_number s <> POutOfFuel.
Proof.
  unfold parse_number.
  repeat match goal with
         | |- context [match ?x with _ => _ end] => destruct x
         end; discriminate.
Qed.

Lemma drop_le (n : nat) (s : string) : String.length (drop n s) <= String.length s.
Proof.
  revert s. induction n as [|n IH]; intros s; destruct s as [|c s]; cbn; try lia.
  specialize (IH s). lia.
Qed.

#[local] Arguments drop : simpl never.

(** Whatever a parser returns as rest is shorter than what it was given. *)
Lemma parse_lengths (fuel : nat) :
  (forall s v r, parse_value fuel s = POk v r -> String.length r < String.length s)
  /\ (forall s acc vs r,
        parse_elements fuel s acc = POk vs r -> String.length r < String.length s)
  /\ (forall s acc ms r,
        parse_members fuel s acc = POk ms r -> String.length r < String.length s).
Proof.
  induction fuel as [|fuel [IHv [IHe IHm]]]; [repeat split; intros; discriminate|].
  repeat split.
  - intros s v r H. cbn [parse_value] in H.
    break_all;
      try (injection H as _ <-);
      repeat match goal with
             | H : skip_ws _ = String _ _ |- _ => apply skip_ws_cons in H
             | H : parse_chars _ _ = Some _ |- _ =>
                 apply (parse_chars_length _ _ _ _ _ (le_n _)) in H
             | H : parse_number _ = POk _ _ |- _ => apply parse_number_length in H
             | H : parse_elements _ _ _ = POk _ _ |- _ => apply IHe in H
             | H : parse_members _ _ _ = POk _ _ |- _ => apply IHm in H
             | |- context [drop (S ?n) (String ?c ?s)] =>
                 pose proof (drop_le n s);
                 change (drop (S n) (String c s)) with (drop n s)
             end;
      cbn [String.length] in *; try lia.
  - intros s acc vs r H. cbn [parse_elements] in H.
    break_all;
      try (injection H as _ <-);
      repeat match goal with
             | H : skip_ws _ = String _ _ |- _ => apply skip_ws_cons in H
             | H : parse_value _ _ = POk _ _ |- _ => apply IHv in H
             | H : parse_elements _ _ _ = POk _ _ |- _ => apply IHe in H
             end;
      cbn [String.length] in *; try lia.
  - intros s acc ms r H. cbn [parse_members] in H.
    break_all;
      try (injection H as _ <-);
      repeat match goal with
             | H : skip_ws _ = String _ _ |- _ => apply skip_ws_cons in H
             | H : parse_chars _ _ = Some _ |- _ =>
                 apply (parse_chars_length _ _ _ _ _ (le_n _)) in H
             | H : parse_value _ _ = POk _ _ |- _ => apply IHv in H
             | H : parse_members _ _ _ = POk _ _ |- _ => apply IHm in H
             end;
      cbn [String.length] in *; try lia.
Qed.

Ltac break_goal :=
  repeat match goal with
         | |- context [match ?x with _ => _ end] => destruct x eqn:?
         end.

(** Enough fuel: twice the length of the text, and one more. *)
Lemma parse_answers (fuel : nat) :
  (forall s, 2 * String.length s + 1 <= fuel -> parse_value fuel s <> POutOfFuel)
  /\ (forall s acc, 2 * String.length s + 2 <= fuel -> parse_elements fuel s acc <> POutOfFuel)
  /\ (forall s acc, 2 * String.length s + 2 <= fuel -> parse_members fuel s acc <> POutOfFuel).
Proof.
  induction fuel as [|fuel [IHv [IHe IHm]]]; [repeat split; intros; lia|].
  destruct (parse_lengths fuel) as [Lv [Le Lm]].
  repeat split.
  - intros s Hf. cbn [parse_value]. break_goal; try discriminate;
      try apply parse_number_answers;
      repeat match goal with
             | H : skip_ws _ = String _ _ |- _ => apply skip_ws_cons in H
             end;
      match goal with
      | H : parse_elements _ _ _ = POutOfFuel |- _ => apply IHe in H; [contradiction | lia]
      | H : parse_members _ _ _ = POutOfFuel |- _ => apply IHm in H; [contradiction | lia]
      end.
  - intros s acc Hf. cbn [parse_elements]. break_goal; try discriminate;
      repeat match goal with
             | H : skip_ws _ = String _ _ |- _ => apply skip_ws_cons in H
             | H : parse_value _ _ = POk _ _ |- _ => apply Lv in H
             end;
      match goal with
      | H : parse_value _ _ = POutOfFuel |- _ => apply IHv in H; [contradiction | lia]
      | |- parse_elements _ _ _ <> POutOfFuel => apply IHe; lia
      end.
  - intros s acc Hf. cbn [parse_members]. break_goal; try discriminate;
      repeat match goal with
             | H : skip_ws _ = String _ _ |- _ => apply skip_ws_cons in H
             | H : parse_chars _ _ = Some _ |- _ =>
                 apply (parse_chars_length _ _ _ _ _ (le_n _)) in H
             | H : parse_value _ _ = POk _ _ |- _ => apply Lv in H
             end;
      match goal with
      | H : parse_value _ _ = POutOfFuel |- _ => apply IHv in H; [contradiction | lia]
      | |- parse_members _ _ _ <> POutOfFuel => apply IHm; lia
      end.
Qed.

(** The fuel [JSON_parse] gives is always enough: when it answers [None],
    the text is not JSON. *)
Lemma JSON_parse_answers (text : string) :
  parse_value (2 * String.length text + 1) text <> POutOfFuel.
Proof. apply (parse_answers (2 * String.length text + 1)). lia. Qed.

End ParserTermination.

(* ================================================================== *)
(** * The two normalisations are one *)
(* ================================================================== *)

Section Normalisation.

Lemma replaceAll_nomatch (p : ascii) (pt rep : string) (c : ascii) (s : string) :
  prefix (String p pt) (String c s) = false ->
  replaceAll (String p pt) rep (String c s) = String c (replaceAll (String p pt) rep s).
Proof. intros H. unfold replaceAll. cbn [replace_from]. now rewrite H. Qed.

Lemma prefix_split (q x : string) : prefix q x = true -> exists b, x = q ++ b.
Proof.
  revert x. induction q as [|c q IH]; intros x H; [now exists x|].
  destruct x as [|d x]; [discriminate H|].
  rewrite prefix_cons in H. apply andb_true_iff in H as [Hc H].
  apply Ascii.eqb_eq in Hc. subst d.
  destruct (IH x H) as [b ->]. now exists b.
Qed.

Lemma clash_prefix (a b y : string) : clash a b = true -> prefix a (b ++ y) = false.
Proof.
  revert b. induction a as [|c a IH]; intros b H; [discriminate H|].
  destruct b as [|d b]; [discriminate H|].
  cbn [clash] in H. cbn [append]. rewrite prefix_cons.
  destruct (Ascii.eqb c d); [|reflexivity].
  cbn in H. now rewrite (IH b H).
Qed.

(** What a replacement leaves readable: a word [q] that is clear of the
    pattern and of the replacement stands at the head of the result
    exactly when it stands at the head of the text. *)
Lemma prefix_replaceAll (p : ascii) (pt rep q : string) :
  clear_of p rep q = true ->
  forall x, prefix q (replaceAll (String p pt) rep x) = prefix q x.
Proof.
  induction q as [|c q IH]; intros Hq x; [now rewrite !prefix_nil|].
  cbn [clear_of] in Hq.
  apply andb_true_iff in Hq as [Hq Hrest]. apply andb_true_iff in Hq as [Hp Hclash].
  apply negb_true_iff in Hp.
  destruct x as [|d x]; [reflexivity|].
  destruct (prefix (String p pt) (String d x)) eqn:Hm.
  - destruct (prefix_split _ _ Hm) as [b Hb]. rewrite Hb, replaceAll_match.
    rewrite (clash_prefix _ _ _ Hclash).
    cbn [append]. rewrite prefix_cons. rewrite Ascii.eqb_sym in Hp. now rewrite Hp.
  - rewrite (replaceAll_nomatch _ _ _ _ _ Hm), !prefix_cons. now rewrite (IH Hrest).
Qed.

Lemma leading_token (s : string) :
  s = EmptyString
  \/ (exists b, s = "'" ++ b)
  \/ (exists b, s = "True" ++ b)
  \/ (exists b, s = "False" ++ b)
  \/ (exists b, s = "None" ++ b)
  \/ (exists c s', s = String c s'
                   /\ prefix "'" s = false /\ prefix "True" s = false
                   /\ prefix "False" s = false /\ prefix "None" s = false).
Proof.
  destruct s as [|c s']; [now left|]. right.
  destruct (prefix "'" (String c s')) eqn:Hq; [left; now apply prefix_split|]. right.
  destruct (prefix "True" (String c s')) eqn:Ht; [left; now apply prefix_split|]. right.
  destruct (prefix "False" (String c s')) eqn:Hf; [left; now apply prefix_split|]. right.
  destruct (prefix "None" (String c s')) eqn:Hn; [left; now apply prefix_split|]. right.
  exists c, s'. repeat split; assumption.
Qed.

(** One stage over a kept character: [q] is the pattern of the stage, the
    text under it has passed the stages before. *)
Ltac keep_stage H :=
  match goal with
  | |- context [replaceAll (String ?p ?pt) ?rep (String ?c ?y)] =>
      rewrite (replaceAll_nomatch p pt rep c y)
        by (rewrite prefix_cons, ?prefix_replaceAll by reflexivity;
            rewrite prefix_cons in H; exact H)
  end.

Lemma normalizedJson_keep (c : ascii) (s : string) :
  prefix "'" (String c s) = false -> prefix "True" (String c s) = false ->
  prefix "False" (String c s) = false -> prefix "None" (String c s) = false ->
  normalizedJson (String c s) = String c (normalizedJson s).
Proof.
  intros Hq Ht Hf Hn. unfold normalizedJson.
  keep_stage Hq. keep_stage Ht. keep_stage Hf. keep_stage Hn. reflexivity.
Qed.

Lemma jsonStr_keep (c : ascii) (s : string) :
  prefix "'" (String c s) = false -> prefix "True" (String c s) = false ->
  prefix "False" (String c s) = false -> prefix "None" (String c s) = false ->
  jsonStr (String c s) = String c (jsonStr s).
Proof.
  intros Hq Ht Hf Hn. unfold jsonStr.
  keep_stage Hq. keep_stage Hn. keep_stage Hf. keep_stage Ht. reflexivity.
Qed.

Ltac through p pt w := rewrite (replaceAll_untouched p pt _ w) by reflexivity.
Ltac hit p pt := rewrite (replaceAll_match p pt).

(** Each stage on a text that begins with one of the four tokens. *)
Lemma normalizedJson_token (b : string) :
  normalizedJson ("'" ++ b) = dq ++ normalizedJson b
  /\ normalizedJson ("True" ++ b) = "true" ++ normalizedJson b
  /\ normalizedJson ("False" ++ b) = "false" ++ normalizedJson b
  /\ normalizedJson ("None" ++ b) = "null" ++ normalizedJson b.
Proof.
  unfold normalizedJson, dq. repeat split.
  - hit "'"%char EmptyString.
    through "T"%char "rue" (String dquote EmptyString).
    through "F"%char "alse" (String dquote EmptyString).
    through "N"%char "one" (String dquote EmptyString). reflexivity.
  - through "'"%char EmptyString "True". hit "T"%char "rue".
    through "F"%char "alse" "true". through "N"%char "one" "true". reflexivity.
  - through "'"%char EmptyString "False". through "T"%char "rue" "False".
    hit "F"%char "alse". through "N"%char "one" "false". reflexivity.
  - through "'"%char EmptyString "None". through "T"%char "rue" "None".
    through "F"%char "alse" "None". hit "N"%char "one". reflexivity.
Qed.

Lemma jsonStr_token (b : string) :
  jsonStr ("'" ++ b) = dq ++ jsonStr b
  /\ jsonStr ("True" ++ b) = "true" ++ jsonStr b
  /\ jsonStr ("False" ++ b) = "false" ++ jsonStr b
  /\ jsonStr ("None" ++ b) = "null" ++ jsonStr b.
Proof.
  unfold jsonStr, dq. repeat split.
  - hit "'"%char EmptyString.
    through "N"%char "one" (String dquote EmptyString).
    through "F"%char "alse" (String dquote EmptyString).
    through "T"%char "rue" (String dquote EmptyString). reflexivity.
  - through "'"%char EmptyString "True". through "N"%char "one" "True".
    through "F"%char "alse" "True". hit "T"%char "rue". reflexivity.
  - through "'"%char EmptyString "False". through "N"%char "one" "False".
    hit "F"%char "alse". through "T"%char "rue" "false". reflexivity.
  - through "'"%char EmptyString "None". hit "N"%char "one".
    through "F"%char "alse" "null". through "T"%char "rue" "null". reflexivity.
Qed.

Lemma normalizedJson_jsonStr (s : string) : normalizedJson s = jsonStr s.
Proof.
  remember (String.length s) as n eqn:Hn. revert s Hn.
  induction n as [n IH] using lt_wf_ind. intros s Hn.
  destruct (leading_token s)
    as [-> | [[b ->] | [[b ->] | [[b ->] | [[b ->] | [c [s' [-> [Hq [Ht [Hf Hnone]]]]]]]]]]].
  - reflexivity.
  - rewrite (proj1 (normalizedJson_token b)), (proj1 (jsonStr_token b)).
    f_equal. apply (IH (String.length b)); [subst n; cbn; lia | reflexivity].
  - rewrite (proj1 (proj2 (normalizedJson_token b))), (proj1 (proj2 (jsonStr_token b))).
    f_equal. apply (IH (String.length b)); [subst n; cbn; lia | reflexivity].
  - rewrite (proj1 (proj2 (proj2 (normalizedJson_token b)))),
      (proj1 (proj2 (proj2 (jsonStr_token b)))).
    f_equal. apply (IH (String.length b)); [subst n; cbn; lia | reflexivity].
  - rewrite (proj2 (proj2 (proj2 (normalizedJson_token b)))),
      (proj2 (proj2 (proj2 (jsonStr_token b)))).
    f_equal. apply (IH (String.length b)); [subst n; cbn; lia | reflexivity].
  - rewrite normalizedJson_keep, jsonStr_keep by assumption.
    f_equal. apply (IH (String.length s')); [subst n; cbn; lia | reflexivity].
Qed.

End Normalisation.

Section Settled.

Lemma contains_cons (q : string) (c : ascii) (s : string) :
  contains q (String c s) = prefix q (String c s) || contains q s.
Proof. reflexivity. Qed.

Lemma contains_skip (q0 : ascii) (q' w y : string) :
  mem q0 w = false ->
  contains (String q0 q') (w ++ y) = contains (String q0 q') y.
Proof.
  induction w as [|d w IH]; intros H; [reflexivity|].
  cbn [mem] in H. apply orb_false_iff in H as [Hd Hw].
  cbn [append]. rewrite contains_cons, prefix_cons, Hd. cbn [andb orb]. now apply IH.
Qed.

(** A word that no replacement can produce and no stage can uncover is
    absent from the normalised text, if it is one the stages replace. *)
Lemma normalizedJson_free (q0 : ascii) (q' : string) :
  mem q0 dq = false -> mem q0 "true" = false ->
  mem q0 "false" = false -> mem q0 "null" = false ->
  clear_of "'" dq q' = true -> clear_of "T" "true" q' = true ->
  clear_of "F" "false" q' = true -> clear_of "N" "null" q' = true ->
  (forall s, prefix "'" s = false -> prefix "True" s = false ->
             prefix "False" s = false -> prefix "None" s = false ->
             prefix (String q0 q') s = false) ->
  forall s, contains (String q0 q') (normalizedJson s) = false.
Proof.
  intros M1 M2 M3 M4 C1 C2 C3 C4 Hpat s.
  remember (String.length s) as n eqn:Hn. revert s Hn.
  induction n as [n IH] using lt_wf_ind. intros s Hn.
  destruct (leading_token s)
    as [-> | [[b ->] | [[b ->] | [[b ->] | [[b ->] | [c [s' [-> [Hq [Ht [Hf Hnone]]]]]]]]]]].
  - reflexivity.
  - rewrite (proj1 (normalizedJson_token b)), (contains_skip _ _ _ _ M1).
    apply (IH (String.length b)); [subst n; cbn; lia | reflexivity].
  - rewrite (proj1 (proj2 (normalizedJson_token b))), (contains_skip _ _ _ _ M2).
    apply (IH (String.length b)); [subst n; cbn; lia | reflexivity].
  - rewrite (proj1 (proj2 (proj2 (normalizedJson_token b)))), (contains_skip _ _ _ _ M3).
    apply (IH (String.length b)); [subst n; cbn; lia | reflexivity].
  - rewrite (proj2 (proj2 (proj2 (normalizedJson_token b)))), (contains_skip _ _ _ _ M4).
    apply (IH (String.length b)); [subst n; cbn; lia | reflexivity].
  - rewrite normalizedJson_keep by assumption.
    rewrite contains_cons, (IH (String.length s')); [|subst n; cbn; lia | reflexivity].
    rewrite orb_false_r, prefix_cons.
    unfold normalizedJson.
    rewrite (prefix_replaceAll _ _ _ _ C4), (prefix_replaceAll _ _ _ _ C3),
      (prefix_replaceAll _ _ _ _ C2), (prefix_replaceAll _ _ _ _ C1).
    rewrite <- prefix_cons. now apply Hpat.
Qed.

(** A text without any of the four tokens is left as it is. *)
Lemma normalizedJson_fixed (s : string) :
  contains "'" s = false -> contains "True" s = false ->
  contains "False" s = false -> contains "None" s = false ->
  normalizedJson s = s.
Proof.
  induction s as [|c s IH]; intros Hq Ht Hf Hn; [reflexivity|].
  rewrite contains_cons in Hq, Ht, Hf, Hn.
  apply orb_false_iff in Hq as [Hq Hq'], Ht as [Ht Ht'], Hf as [Hf Hf'], Hn as [Hn Hn'].
  rewrite normalizedJson_keep by assumption. now rewrite IH.
Qed.

Lemma normalizedJson_tokens (s : string) :
  contains "'" (normalizedJson s) = false
  /\ contains "True" (normalizedJson s) = false
  /\ contains "False" (normalizedJson s) = false
  /\ contains "None" (normalizedJson s) = false.
Proof.
  split; [|split; [|split]];
    apply normalizedJson_free; try reflexivity; intros; assumption.
Qed.

End Settled.

(** X1: the per-user script and the compressed-NFT script apply the same
    four replacements in two different orders; the order makes no
    difference: on every text the two normalisations give the same
    result. *)
Theorem both_scripts_normalise_alike (s : string) : normalizedJson s = jsonStr s.
Proof. apply normalizedJson_jsonStr. Qed.

(** X9: what the normalisation leaves behind.  The normalised text holds
    no single quote and no [True], [False] or [None] any more, whatever
    the text was, so normalising a second time changes nothing (in either
    script). *)
Theorem normalised_text_is_settled (s : string) :
  contains "'" (normalizedJson s) = false
  /\ contains "True" (normalizedJson s) = false
  /\ contains "False" (normalizedJson s) = false
  /\ contains "None" (normalizedJson s) = false
  /\ normalizedJson (normalizedJson s) = normalizedJson s
  /\ jsonStr (jsonStr s) = jsonStr s.
Proof.
  destruct (normalizedJson_tokens s) as [Hq [Ht [Hf Hn]]].
  assert (Hfix : normalizedJson (normalizedJson s) = normalizedJson s)
    by now apply normalizedJson_fixed.
  repeat split; try assumption.
  now rewrite <- !normalizedJson_jsonStr.
Qed.

Section Alike.
Context {W : Type}.

Lemma find_alike (accounts : jsval) :
  match find_solana accounts, find_linked accounts with
  | inr found, inr found' => found = found'
  | inl e1, inl e2 => same_failure e1 e2
  | _, _ => False
  end.
Proof.
  destruct accounts as [|b|m e|s|elems|members]; cbn;
    try (right; split; reflexivity); try (left; reflexivity).
  destruct (find_account elems) as [e|found]; [left|]; reflexivity.
Qed.

(** The two [try] blocks on one cell. *)
Lemma try_alike (cell : string) :
  match extract_try cell, wallet_try cell with
  | inr address, inr None => address = None
  | inr address, inr (Some account) => address = address_of account
  | inl e1, inl e2 => same_failure e1 e2
  | _, _ => False
  end.
Proof.
  unfold extract_try, wallet_try. rewrite normalizedJson_jsonStr.
  destruct (JSON_parse (jsonStr cell)) as [accounts|]; [|left; reflexivity].
  pose proof (find_alike accounts) as H.
  destruct (find_solana accounts) as [e1|found], (find_linked accounts) as [e2|found'];
    try contradiction; [exact H|].
  subst found'. destruct found; reflexivity.
Qed.

Lemma extract_value_found (record : UserData) :
  extract_value record.(linked_accounts)
  = match wallet_try record.(linked_accounts) with
    | inr (Some account) => address_of account
    | _ => None
    end.
Proof.
  unfold extract_value. pose proof (try_alike record.(linked_accounts)) as H.
  destruct (extract_try (linked_accounts record)) as [e1|address],
    (wallet_try (linked_accounts record)) as [e2|[account|]];
    try contradiction; try reflexivity; exact H.
Qed.

Lemma kept_found_row (record : UserData) :
  map solanaAddress (map user_of (if kept record then [record] else []))
  = filter is_defined (found_address record).
Proof.
  pose proof (extract_value_found record) as Hv.
  unfold kept, found_address.
  destruct (is_defined (extract_value (linked_accounts record))) eqn:Hk;
    cbn [map]; unfold user_of; cbn [solanaAddress]; rewrite Hv in *;
    destruct (wallet_try (linked_accounts record)) as [e|[account|]];
    cbn in *; try discriminate; try reflexivity;
    destruct (address_of account); cbn in *; try discriminate; reflexivity.
Qed.

Lemma kept_found (records : list UserData) :
  map solanaAddress (map user_of (filter kept records))
  = filter is_defined (flat_map found_address records).
Proof.
  induction records as [|record records IH]; [reflexivity|].
  cbn [filter flat_map]. rewrite filter_app, <- IH, <- kept_found_row.
  destruct (kept record); reflexivity.
Qed.

(** The rows that log: in both scripts the unreadable ones. *)
Lemma logs_of_unreadable (records : list UserData) :
  flat_map (fun record => extract_log record.(linked_accounts)) records
  = flat_map (fun record => extract_log record.(linked_accounts)) (filter unreadable records)
  /\ flat_map wallet_log records = flat_map wallet_log (filter unreadable records).
Proof.
  induction records as [|record records [IH1 IH2]]; [split; reflexivity|].
  assert (Hrow : unreadable record = true
                 \/ (unreadable record = false
                     /\ extract_log record.(linked_accounts) = []
                     /\ wallet_log record = [])).
  { pose proof (try_alike record.(linked_accounts)) as H.
    unfold unreadable, extract_log, wallet_log.
    destruct (extract_try (linked_accounts record)) as [e1|address],
      (wallet_try (linked_accounts record)) as [e2|found]; try contradiction;
      [left | right]; repeat split; reflexivity. }
  cbn [flat_map filter]. destruct Hrow as [Hbad | [Hgood [Hlog1 Hlog2]]].
  - rewrite Hbad. cbn [flat_map]. now rewrite IH1, IH2.
  - rewrite Hgood, Hlog1, Hlog2. cbn [app]. now split.
Qed.

Lemma unreadable_lines (record : UserData) :
  unreadable record = true ->
  exists e1 e2,
    extract_log record.(linked_accounts)
    = [ConsoleError [T "Error parsing linked accounts:"; ErrArg e1];
       ConsoleError [T "Problematic JSON:"; T record.(linked_accounts)]]
    /\ wallet_log record
       = [ConsoleError [T "Error parsing linked_accounts:"; ErrArg e2];
          ConsoleError [T "Problematic JSON string:"; T record.(linked_accounts)]]
    /\ same_failure e1 e2.
Proof.
  unfold unreadable, extract_log, wallet_log.
  pose proof (try_alike record.(linked_accounts)) as H.
  destruct (extract_try (linked_accounts record)) as [e1|address],
    (wallet_try (linked_accounts record)) as [e2|found];
    try contradiction; try discriminate.
  intros _. now exists e1, e2.
Qed.

End Alike.

(** X2: the two scripts extract the same addresses from the same rows.
    - For a cell, the per-user extractor is the wallet lookup of the
      compressed-NFT script followed by the read of [address]: both find
      the same wallet or none, or both fail, with the same error but for
      the [TypeError] of a value without [find], which names the variable
      of each script ([accounts], [linkedAccounts]).
    - For a file, the users the per-user script keeps carry, in order, the
      defined addresses among those the compressed-NFT script collects
      (which pushes [undefined] for a wallet without an address).
    - Both log for the same rows, the unreadable ones, in order, and
      nothing else: two [console.error] lines each, the first with the
      error, the second with the cell. *)
Theorem both_scripts_extract_alike {W : Type} (records : list UserData) (w : W) :
  (forall cell,
      match extract_try cell, wallet_try cell with
      | inr address, inr None => address = None
      | inr address, inr (Some account) => address = address_of account
      | inl e1, inl e2 => same_failure e1 e2
      | _, _ => False
      end)
  /\ (exists users addresses,
        users_of_records records w
        = (Ret users, w,
           flat_map (fun record => extract_log record.(linked_accounts))
             (filter unreadable records))
        /\ collect_addresses records [] w
           = (Ret addresses, w, flat_map wallet_log (filter unreadable records))
        /\ map solanaAddress users = filter is_defined addresses)
  /\ Forall (fun record =>
               exists e1 e2,
                 extract_log record.(linked_accounts)
                 = [ConsoleError [T "Error parsing linked accounts:"; ErrArg e1];
                    ConsoleError [T "Problematic JSON:"; T record.(linked_accounts)]]
                 /\ wallet_log record
                    = [ConsoleError [T "Error parsing linked_accounts:"; ErrArg e2];
                       ConsoleError [T "Problematic JSON string:";
                                     T record.(linked_accounts)]]
                 /\ same_failure e1 e2)
            (filter unreadable records).
Proof.
  split; [apply try_alike|]. split.
  - destruct (logs_of_unreadable records) as [H1 H2].
    do 2 eexists. rewrite users_of_records_run, collect_addresses_run, H1, H2.
    split; [reflexivity|]. split; [reflexivity|]. cbn [app]. apply kept_found.
  - apply Forall_forall. intros record Hin. apply filter_In in Hin as [_ Hbad].
    now apply unreadable_lines.
Qed.

(* ================================================================== *)
(** * The extractor that no script calls *)
(* ================================================================== *)

Section UnusedExtractor.
Context {W : Type} (ext : oracle W).

(** Rows whose cell is JSON as it stands are passed one after the other. *)
Lemma push_addresses_good (good rest : list UserData) (acc : list (option jsval)) (w : W) :
  Forall (fun record => exists v, raw_wallet record.(linked_accounts) = inr v) good ->
  @push_addresses W (good ++ rest) acc w
  = push_addresses rest (acc ++ flat_map raw_found good)%list w.
Proof.
  intros Hgood. revert acc. induction Hgood as [|record good [v Hv] _ IH]; intros acc.
  - cbn. now rewrite app_nil_r.
  - cbn [app push_addresses flat_map]. unfold raw_found at 1. rewrite Hv.
    unfold bind, lift, ret.
    destruct v as [account|].
    + rewrite IH, <- app_assoc.
      now destruct (push_addresses rest (acc ++ [address_of account] ++ flat_map raw_found good) w)
        as [[r w'] t].
    + rewrite IH. cbn [app].
      now destruct (push_addresses rest (acc ++ flat_map raw_found good) w) as [[r w'] t].
Qed.

Lemma push_addresses_bad (record : UserData) (rest : list UserData)
  (acc : list (option jsval)) (e : exn) (w : W) :
  raw_wallet record.(linked_accounts) = inl e ->
  @push_addresses W (record :: rest) acc w = (Throw e, w, []).
Proof. intros H. cbn [push_addresses]. unfold bind, lift. now rewrite H. Qed.

End UnusedExtractor.

(** A cell that opens a list and an object and goes on with a single quote
    is no JSON. *)
Lemma single_quoted_key (s : string) : JSON_parse ("[{'" ++ s) = None.
Proof.
  unfold JSON_parse. cbn [append String.length].
  replace (2 * S (S (S (String.length s))) + 1)
    with (S (S (S (S (2 * String.length s + 3))))) by lia.
  reflexivity.
Qed.

(** X3: [extractSolanaAddresses] of the compressed-NFT script, which no
    script calls, parses each cell as it stands and catches nothing.
    - The first row whose cell is no JSON list ends the function with that
      error: no address is returned, those of the rows before are lost, and
      nothing is logged.
    - A cell in the single-quoted form that the inline loop of [main]
      normalises is such a row.
    - When every cell is fine, the function returns the addresses of the
      Solana wallets in the order of the rows. *)
Theorem unused_extractor_stops_at_first_bad_cell {W : Type} (ext : oracle W)
  (csvPath fileContent : string) (w w1 w2 : W) (good : list UserData) :
  ext _ (ReadFileSync csvPath) w = (inr fileContent, w1) ->
  Forall (fun record => exists v, raw_wallet record.(linked_accounts) = inr v) good ->
  (forall record rest e,
      ext _ (CsvParse fileContent) w1 = (inr (good ++ record :: rest)%list, w2) ->
      raw_wallet record.(linked_accounts) = inl e ->
      extractSolanaAddresses ext csvPath w
      = (Throw e, w2, [Call (ReadFileSync csvPath); Call (CsvParse fileContent)]))
  /\ (forall s, raw_wallet ("[{'" ++ s) = inl SyntaxError)
  /\ (ext _ (CsvParse fileContent) w1 = (inr good, w2) ->
      extractSolanaAddresses ext csvPath w
      = (Ret (flat_map raw_found good), w2,
         [Call (ReadFileSync csvPath); Call (CsvParse fileContent)])).
Proof.
  intros Hread Hgood. split; [|split].
  - intros record rest e Hcsv Hbad.
    unfold extractSolanaAddresses, bind, perform. rewrite Hread, Hcsv.
    rewrite (push_addresses_good good (record :: rest) [] w2 Hgood).
    now rewrite (push_addresses_bad record rest _ e w2 Hbad).
  - intros s. unfold raw_wallet. now rewrite single_quoted_key.
  - intros Hcsv.
    unfold extractSolanaAddresses, bind, perform. rewrite Hread, Hcsv.
    rewrite <- (app_nil_r good) at 1.
    rewrite (push_addresses_good good [] [] w2 Hgood). reflexivity.
Qed.

(** A file of two rows, an empty list and a cell in the single-quoted
    form: the function throws a [SyntaxError] at the second row. *)
Lemma unused_extractor_witness :
  extractSolanaAddresses
    (Scripted.world (Scripted.mkCanned EmptyString two_rows) Scripted.never) "users.csv" 0
  = (Throw SyntaxError, 2, [Call (ReadFileSync "users.csv"); Call (CsvParse "file content")]).
Proof.
  refine (proj1 (unused_extractor_stops_at_first_bad_cell
                   (Scripted.world (Scripted.mkCanned EmptyString two_rows) Scripted.never)
                   "users.csv" "file content" 0 1 2 [mkUserData "u0" "[]"] eq_refl _)
            (mkUserData "u1" python_cell) [] SyntaxError eq_refl eq_refl).
  constructor; [|constructor]. exists None. reflexivity.
Defined.

(* ================================================================== *)
(** * What a script never does *)
(* ================================================================== *)

Section Guarantees.
Context {W : Type} (ext : oracle W) (p : forall R, call R -> bool).

Lemma guarantees_ret {A} (Q : A -> Prop) (a : A) : Q a -> @guarantees W A p Q (ret a).
Proof. intros H w. split; [reflexivity | exact H]. Qed.

Lemma guarantees_throw {A} (Q : A -> Prop) (e : exn) : @guarantees W A p Q (throw e).
Proof. intros w. split; [reflexivity | exact I]. Qed.

Lemma guarantees_weaken {A} (Q Q' : A -> Prop) (m : M W A) :
  (forall a, Q a -> Q' a) -> guarantees p Q m -> guarantees p Q' m.
Proof.
  intros HQ H w. destruct (H w) as [Ht Hr]. split; [exact Ht|].
  destruct (fst (fst (m w))); auto.
Qed.

Lemma guarantees_bind {A B} (Q : A -> Prop) (R : B -> Prop) (m : M W A) (k : A -> M W B) :
  guarantees p Q m -> (forall a, Q a -> guarantees p R (k a)) -> guarantees p R (bind m k).
Proof.
  intros Hm Hk w. unfold bind. destruct (Hm w) as [Ht Hr].
  destruct (m w) as [[[a|e|] w1] t1]; cbn [fst snd] in *.
  - destruct (Hk a Hr w1) as [Ht2 Hr2].
    destruct (k a w1) as [[r w2] t2]; cbn [fst snd] in *.
    split; [|exact Hr2]. rewrite existsb_app, Ht, Ht2. reflexivity.
  - split; [exact Ht | exact I].
  - contradiction.
Qed.

Lemma guarantees_then {A B} (R : B -> Prop) (m : M W A) (k : A -> M W B) :
  guarantees p (fun _ => True) m -> (forall a, guarantees p R (k a)) -> guarantees p R (bind m k).
Proof. intros Hm Hk. apply (guarantees_bind (fun _ => True)); auto. Qed.

Lemma guarantees_try_catch {A} (Q : A -> Prop) (body : M W A) (handler : exn -> M W A) :
  guarantees p Q body -> (forall e, guarantees p Q (handler e)) ->
  guarantees p Q (try_catch body handler).
Proof.
  intros Hb Hh w. unfold try_catch. destruct (Hb w) as [Ht Hr].
  destruct (body w) as [[[a|e|] w1] t1]; cbn [fst snd] in *.
  - split; assumption.
  - destruct (Hh e w1) as [Ht2 Hr2].
    destruct (handler e w1) as [[r w2] t2]; cbn [fst snd] in *.
    split; [|exact Hr2]. rewrite existsb_app, Ht, Ht2. reflexivity.
  - contradiction.
Qed.

Lemma guarantees_console_log (Q : unit -> Prop) (args : list logarg) :
  Q tt -> @guarantees W unit p Q (console_log args).
Proof. intros H w. split; [reflexivity | exact H]. Qed.

Lemma guarantees_console_error (Q : unit -> Prop) (args : list logarg) :
  Q tt -> @guarantees W unit p Q (console_error args).
Proof. intros H w. split; [reflexivity | exact H]. Qed.

Lemma guarantees_sleep (Q : unit -> Prop) (ms : Z) : Q tt -> @guarantees W unit p Q (sleep ms).
Proof. intros H w. split; [reflexivity | exact H]. Qed.

Lemma guarantees_lift {A} (Q : A -> Prop) (r : exn + A) :
  (forall a, r = inr a -> Q a) -> @guarantees W A p Q (lift r).
Proof.
  intros H w. destruct r as [e|a]; cbn; (split; [reflexivity|]); [exact I | now apply H].
Qed.

(** A call of another kind than [p]; what it returns is what the world
    answered. *)
Lemma guarantees_perform {R} (Q : R -> Prop) (c : call R) :
  p R c = false ->
  (forall w r w', ext R c w = (inr r, w') -> Q r) ->
  guarantees p Q (perform ext c).
Proof.
  intros Hp HQ w. unfold perform.
  destruct (ext R c w) as [[e|r] w'] eqn:Hc; cbn [fst snd existsb on_call];
    rewrite Hp; (split; [reflexivity|]); [exact I | exact (HQ w r w' Hc)].
Qed.

Lemma guarantees_for_of {A} (xs : list A) (body : A -> M W unit) :
  (forall x, guarantees p (fun _ => True) (body x)) ->
  guarantees p (fun _ => True) (for_of xs body).
Proof.
  intros Hb. induction xs as [|x xs IH]; cbn [for_of].
  - now apply guarantees_ret.
  - apply guarantees_then; [apply Hb | intros _; exact IH].
Qed.

(** The retry loop passes on what its attempt guarantees. *)
Lemma guarantees_retry_loop {A} (Q : A -> Prop) (attempt : M W A) (failed : string)
  (fuel n : nat) :
  guarantees p Q attempt ->
  maxRetries - n <= fuel ->
  guarantees p (fun r => match r with Some v => Q v | None => True end)
    (retry_loop attempt failed fuel n).
Proof.
  intros Hatt. revert n. induction fuel as [|fuel IH]; intros n Hn.
  - assert (Hge : (n <? maxRetries)%nat = false) by (apply Nat.ltb_ge; lia).
    change (retry_loop attempt failed 0 n)
      with (if (n <? maxRetries)%nat then @diverge W (option A) else ret None).
    rewrite Hge. now apply guarantees_ret.
  - rewrite retry_loop_unfold.
    destruct (n <? maxRetries)%nat eqn:Hlt; [|now apply guarantees_ret].
    apply guarantees_try_catch.
    + apply (guarantees_bind Q); [exact Hatt|].
      intros v Hv. now apply guarantees_ret.
    + intros e. destruct (S n =? maxRetries)%nat; [apply guarantees_throw|].
      apply guarantees_then; [now apply guarantees_console_log|]. intros _.
      apply guarantees_then; [now apply guarantees_sleep|]. intros _.
      apply IH. apply Nat.ltb_lt in Hlt. lia.
Qed.

(** The loop with its guard: a value it returns is one the attempt
    returned, and a truthy one. *)
Lemma guarantees_with_retry {A} (Q : A -> Prop) (attempt : M W A) (failed exhausted : string)
  (is_truthy : A -> bool) :
  guarantees p Q attempt ->
  guarantees p (fun v => Q v /\ is_truthy v = true)
    (with_retry attempt failed is_truthy exhausted).
Proof.
  intros Hatt. unfold with_retry.
  eapply guarantees_bind; [apply (guarantees_retry_loop Q); [exact Hatt | lia]|].
  intros [v|] Hv; [|apply guarantees_throw].
  destruct (is_truthy v) eqn:Ht; [now apply guarantees_ret | apply guarantees_throw].
Qed.

Lemma guarantees_retried {A} (attempt : M W A) (failed exhausted : string)
  (is_truthy : A -> bool) :
  guarantees p (fun _ => True) attempt ->
  guarantees p (fun _ => True) (with_retry attempt failed is_truthy exhausted).
Proof.
  intros Hatt. eapply guarantees_weaken; [|apply guarantees_with_retry, Hatt].
  intros; exact I.
Qed.

Lemma guarantees_map_M {A B} (f : A -> M W B) (xs : list A) :
  (forall x, guarantees p (fun _ => True) (f x)) ->
  guarantees p (fun _ => True) (map_M f xs).
Proof.
  intros Hf. induction xs as [|x xs IH]; cbn [map_M].
  - now apply guarantees_ret.
  - apply guarantees_then; [apply Hf | intros y].
    apply guarantees_then; [exact IH | intros ys]. now apply guarantees_ret.
Qed.

(** A computation that always returns makes no call of no kind. *)
Lemma guarantees_of_run {A} (m : M W A) :
  (forall w, exists a w' t, m w = (Ret a, w', t)) ->
  guarantees no_call (fun _ => True) m.
Proof.
  intros H w. destruct (H w) as [a [w' [t Hm]]]. rewrite Hm. cbn [fst snd]. split; [|exact I].
  clear Hm. induction t as [|e t IH]; [reflexivity|].
  cbn [existsb]. rewrite IH. now destruct e.
Qed.

(** What [main().catch(console.error)] makes of it: the promise is
    fulfilled, and an error thrown by [main] is the last thing logged. *)
Lemma run_fulfils (script : M W unit) (w : W) :
  guarantees p (fun _ => True) script ->
  exists w' t,
    run script w = (Ret tt, w', t)
    /\ forall e w1 t1, script w = (Throw e, w1, t1) ->
                       w' = w1 /\ t = (t1 ++ [ConsoleError [ErrArg e]])%list.
Proof.
  intros H. destruct (H w) as [_ Hr]. unfold run, try_catch, console_error, emit.
  destruct (script w) as [[[[]|e|] w1] t1]; cbn [fst] in Hr; [| |contradiction].
  - do 2 eexists. split; [reflexivity|]. intros e w2 t2 Heq. discriminate Heq.
  - do 2 eexists. split; [reflexivity|]. intros e' w2 t2 Heq.
    injection Heq as -> -> ->. now split.
Qed.

End Guarantees.

(** One step of a script. *)
Ltac sure :=
  repeat first
    [ apply guarantees_retried
    | apply guarantees_for_of; intros ?
    | apply guarantees_map_M; intros ?
    | apply guarantees_then; [|intros ?]
    | apply guarantees_try_catch; [|intros ?]
    | apply guarantees_console_log; exact I
    | apply guarantees_console_error; exact I
    | apply guarantees_sleep; exact I
    | apply guarantees_perform; [reflexivity | intros; exact I]
    | apply guarantees_lift; intros; exact I
    | apply guarantees_ret; exact I
    | apply guarantees_throw
    | match goal with
      | |- guarantees _ _ (match ?x with _ => _ end) => destruct x
      end ].

Section ScriptsGuarantee.
Context {W : Type} (ext : oracle W).

Lemma setup_guarantees (p : forall R, call R -> bool) (config : lookup) (env : Env) :
  (forall a b, p _ (NewConnection a b) = false) ->
  (forall a, p _ (Bs58Decode a) = false) ->
  (forall a, p _ (KeypairFromSecretKey a) = false) ->
  (forall a, p _ (MetaplexMake a) = false) ->
  (forall a b, p _ (UseBundlrStorage a b) = false) ->
  guarantees p (fun _ => True) (setup ext config env).
Proof.
  intros H1 H2 H3 H4 H5. unfold setup.
  apply guarantees_then; [sure|]. intros endpoint.
  apply guarantees_then; [apply guarantees_perform; [apply H1 | intros; exact I]|]. intros _.
  destruct (WALLET_PRIVATE_KEY env) as [key|]; [|apply guarantees_throw].
  destruct (truthy_string (Some key)); [|apply guarantees_throw].
  apply guarantees_then; [apply guarantees_perform; [apply H2 | intros; exact I]|].
  intros privateKey.
  apply guarantees_then; [apply guarantees_perform; [apply H3 | intros; exact I]|].
  intros wallet.
  apply guarantees_then; [apply guarantees_perform; [apply H4 | intros; exact I]|].
  intros _.
  apply guarantees_then; [sure|]. intros address.
  apply guarantees_then; [sure|]. intros providerUrl.
  apply guarantees_then; [apply guarantees_perform; [apply H5 | intros; exact I]|].
  intros _. sure.
Qed.

End ScriptsGuarantee.

Section ScriptsNeverReject.
Context {W : Type} (ext : oracle W).

Lemma collect_addresses_guarantees (p : forall R, call R -> bool) (records : list UserData)
  (acc : list (option jsval)) :
  @guarantees W _ p (fun _ => True) (collect_addresses records acc).
Proof.
  revert acc. induction records as [|record records IH]; intros acc; cbn [collect_addresses].
  - now apply guarantees_ret.
  - apply guarantees_then; [sure | intros acc'; apply IH].
Qed.

Lemma users_of_records_guarantees (p : forall R, call R -> bool) (records : list UserData) :
  @guarantees W _ p (fun _ => True) (users_of_records records).
Proof. unfold users_of_records, extractSolanaAddress. sure. Qed.

Lemma mint_users_guarantees (users : list User) (imageUri : string)
  (collectionNft : CreateNftOutput) :
  guarantees no_call (fun _ => True) (mint_users ext users imageUri collectionNft).
Proof. unfold mint_users, mintNFTForUser. sure. Qed.

Lemma main_guarantees (argv2 : option string) (env : Env) :
  guarantees no_call (fun _ => True) (main ext argv2 env).
Proof.
  unfold main.
  apply guarantees_then; [apply setup_guarantees; reflexivity | intros wallet].
  unfold upload_image, mint_nft. sure.
Qed.

Lemma main_users_guarantees (argv2 : option string) (env : Env) :
  guarantees no_call (fun _ => True) (main_users ext argv2 env).
Proof.
  unfold main_users.
  apply guarantees_then; [apply setup_guarantees; reflexivity | intros wallet].
  apply guarantees_try_catch; [|intros e; sure].
  apply guarantees_then; [sure | intros _].
  apply guarantees_then; [sure | intros collectionMetadataUri].
  apply guarantees_then; [sure | intros _].
  apply guarantees_then; [unfold mint_collection; sure | intros collectionNft].
  apply guarantees_then.
  { unfold readUsersFromCSV. apply guarantees_then; [sure | intros fileContent].
    apply guarantees_then; [sure | intros records]. apply users_of_records_guarantees. }
  intros users.
  apply guarantees_then; [sure | intros _].
  apply guarantees_then; [apply mint_users_guarantees | intros _]. sure.
Qed.

Lemma main_compressed_guarantees (env : Env) :
  guarantees no_call (fun _ => True) (main_compressed ext env).
Proof.
  unfold main_compressed.
  destruct (WALLET_PRIVATE_KEY env) as [privateKey|]; [|apply guarantees_throw].
  destruct (negb (truthy_string (Some privateKey))); [apply guarantees_throw|].
  apply guarantees_then; [sure | intros _].
  apply guarantees_then; [sure | intros connected].
  destruct (negb connected); [sure|].
  apply guarantees_then; [sure | intros secretKey].
  apply guarantees_then; [sure | intros keypair].
  apply guarantees_then; [sure | intros identity].
  apply guarantees_then; [sure | intros _].
  apply guarantees_then; [sure | intros _].
  apply guarantees_then; [sure | intros funded].
  destruct (negb funded); [sure|].
  apply guarantees_then; [sure | intros merkleTree].
  apply guarantees_then; [sure | intros _].
  apply guarantees_then; [sure | intros _].
  apply guarantees_then; [sure | intros _].
  apply guarantees_then; [sure | intros _].
  apply guarantees_then; [sure | intros metadataUri].
  apply guarantees_then; [sure | intros _].
  apply guarantees_then; [sure | intros csvPath].
  apply guarantees_then; [sure | intros _].
  apply guarantees_then; [sure | intros fileContent].
  apply guarantees_then; [sure | intros records].
  apply guarantees_then; [apply collect_addresses_guarantees | intros solanaAddresses].
  apply guarantees_then; [sure | intros _].
  apply guarantees_of_run. intros w.
  destruct (batch_mint_run ext merkleTree metadataUri solanaAddresses w) as [w' [t [H _]]].
  now exists tt, w', t.
Qed.

End ScriptsNeverReject.

(** X6: the promise of each script is fulfilled, whatever the network, the
    storage and the file system answer and whatever the arguments and the
    environment are.  No loop of [main] goes on for ever, and
    [main().catch(console.error)] turns an error that [main] throws into a
    last line on the error console: the process ends normally even when
    nothing was minted. *)
Theorem scripts_never_reject {W : Type} (ext : oracle W) (argv2 : option string)
  (env : Env) (w : W) :
  let fulfilled (script : M W unit) :=
    exists w' t,
      run script w = (Ret tt, w', t)
      /\ forall e w1 t1, script w = (Throw e, w1, t1) ->
                         w' = w1 /\ t = (t1 ++ [ConsoleError [ErrArg e]])%list in
  fulfilled (main ext argv2 env)
  /\ fulfilled (main_users ext argv2 env)
  /\ fulfilled (main_compressed ext env).
Proof.
  intros fulfilled. subst fulfilled. cbv beta. split; [|split].
  - apply (run_fulfils no_call), main_guarantees.
  - apply (run_fulfils no_call), main_users_guarantees.
  - apply (run_fulfils no_call), main_compressed_guarantees.
Qed.

(* ================================================================== *)
(** * What has to go well before anything is minted *)
(* ================================================================== *)

Section Gates.
Context {W : Type} (ext : oracle W).

(** The image upload returns only a non-empty URI that the storage
    answered. *)
Lemma upload_image_guarantees (p : forall R, call R -> bool) (Q : string -> Prop) :
  p _ StorageUpload = false ->
  (forall w uri w', ext _ StorageUpload w = (inr uri, w') -> Q uri) ->
  guarantees p (fun uri => Q uri /\ truthy_string (Some uri) = true) (upload_image ext).
Proof.
  intros Hp HQ. unfold upload_image. apply guarantees_with_retry.
  apply (guarantees_bind _ Q); [now apply guarantees_perform|].
  intros imageUri Huri. apply guarantees_then; [sure | intros _].
  now apply guarantees_ret.
Qed.

(** The collection mint returns only after a confirmation without
    error. *)
Lemma mint_collection_guarantees (p : forall R, call R -> bool) (uri : string) :
  p _ (NftsCreate uri "My Collection NFT" "MECOL" true None) = false ->
  (forall s, p _ (ConfirmTransaction s) = false) ->
  guarantees p (fun _ => exists s w w', ext _ (ConfirmTransaction s) w = (inr None, w'))
    (mint_collection ext uri).
Proof.
  intros Hcreate Hconfirm. unfold mint_collection.
  eapply guarantees_weaken; [|apply guarantees_with_retry]; [intros a [H _]; exact H|].
  apply guarantees_then; [apply guarantees_perform; [exact Hcreate | intros; exact I]|].
  intros result.
  apply guarantees_then; [sure | intros _].
  apply (guarantees_bind _ (fun err => exists s w w', ext _ (ConfirmTransaction s) w = (inr err, w'))).
  { apply guarantees_perform; [apply Hconfirm|]. intros w r w' H.
    now exists result.(response_signature), w, w'. }
  intros [e|] Herr.
  - apply (guarantees_bind _ (fun _ => False)); [apply guarantees_throw | intros _ []].
  - apply guarantees_then; [sure | intros _].
    apply guarantees_then; [sure | intros _]. apply guarantees_ret. exact Herr.
Qed.

End Gates.

(** X10: the single-NFT script uploads no metadata and creates no NFT
    without the URI of the uploaded image.  When the storage never answers
    an upload with a non-empty URI (it fails, or it returns the empty
    string), [main] makes no [uploadMetadata] and no [create] call,
    whatever else happens. *)
Theorem no_mint_without_image {W : Type} (ext : oracle W) (argv2 : option string)
  (env : Env) :
  (forall w uri w', ext _ StorageUpload w = (inr uri, w') -> uri = EmptyString) ->
  guarantees metadata_or_create (fun _ => True) (main ext argv2 env).
Proof.
  intros Hempty. unfold main.
  apply guarantees_then; [apply setup_guarantees; reflexivity | intros wallet].
  apply guarantees_try_catch; [|intros e; sure].
  apply guarantees_then; [sure | intros imageBuffer].
  apply guarantees_then; [sure | intros _].
  apply (guarantees_bind _ (fun uri => uri = EmptyString /\ truthy_string (Some uri) = true)).
  { apply upload_image_guarantees; [reflexivity | exact Hempty]. }
  intros imageUri [-> Htruthy]. discriminate Htruthy.
Qed.

(** A storage that answers every upload with the empty URI: [main] runs
    to its end without a metadata upload or a mint. *)
Lemma no_mint_without_image_witness :
  existsb (on_call metadata_or_create)
    (snd (main (Scripted.world (Scripted.mkCanned EmptyString []) Scripted.never)
            None Scripted.env_ok 0)) = false.
Proof.
  refine (proj1 (no_mint_without_image
                   (Scripted.world (Scripted.mkCanned EmptyString []) Scripted.never)
                   None Scripted.env_ok _ 0)).
  intros w uri w' H. vm_compute in H. injection H as <- _. reflexivity.
Defined.

(** X11: the per-user script reads no user and mints no user NFT before
    the transaction of the collection NFT is confirmed.  When no
    confirmation ever comes back without an error, [main] does not read the
    CSV file and creates no NFT other than the collection NFT. *)
Theorem no_user_mint_without_collection {W : Type} (ext : oracle W) (argv2 : option string)
  (env : Env) :
  (forall s w r w', ext _ (ConfirmTransaction s) w = (inr r, w') -> r <> None) ->
  guarantees users_read_or_minted (fun _ => True) (main_users ext argv2 env).
Proof.
  intros Hnever. unfold main_users.
  apply guarantees_then; [apply setup_guarantees; reflexivity | intros wallet].
  apply guarantees_try_catch; [|intros e; sure].
  apply guarantees_then; [sure | intros _].
  apply guarantees_then; [sure | intros collectionMetadataUri].
  apply guarantees_then; [sure | intros _].
  eapply guarantees_bind.
  { apply mint_collection_guarantees; reflexivity. }
  intros collectionNft [s [w [w' H]]]. now destruct (Hnever s w None w' H).
Qed.

(** No transaction is ever confirmed: the CSV file is not read and no
    user NFT is created. *)
Lemma no_user_mint_without_collection_witness :
  existsb (on_call users_read_or_minted)
    (snd (main_users unconfirmed None Scripted.env_ok 0)) = false.
Proof.
  refine (proj1 (no_user_mint_without_collection unconfirmed None Scripted.env_ok _ 0)).
  intros s w r w' H. vm_compute in H. injection H as <- _. discriminate.
Defined.

(** X7: the compressed-NFT script does nothing on chain or in storage
    unless the wallet holds at least one SOL.  When no balance the RPC node
    reports reaches 1000000000 lamports, [main] creates no tree, uploads no
    metadata, reads no CSV file and mints nothing; and when the node does
    not answer [getSlot], the script ends at once, normally, after logging
    the failure. *)
Theorem compressed_script_gates {W : Type} (ext : oracle W) (env : Env) :
  ((forall address w balance w',
       ext _ (GetBalance address) w = (inr balance, w') -> (balance < 1000000000)%Z) ->
   guarantees tree_upload_or_mint (fun _ => True) (main_compressed ext env))
  /\ (forall privateKey w w1 e w2,
         env.(WALLET_PRIVATE_KEY) = Some privateKey ->
         truthy_string (Some privateKey) = true ->
         ext _ (CreateUmi devnet_url) w = (inr tt, w1) ->
         ext _ GetSlot w1 = (inl e, w2) ->
         main_compressed ext env w
         = (Ret tt, w2,
            [Call (CreateUmi devnet_url); Call GetSlot;
             ConsoleError [T "Failed to connect to RPC:"; ErrArg e]])).
Proof.
  split.
  - intros Hpoor. unfold main_compressed.
    destruct (WALLET_PRIVATE_KEY env) as [privateKey|]; [|apply guarantees_throw].
    destruct (negb (truthy_string (Some privateKey))); [apply guarantees_throw|].
    apply guarantees_then; [sure | intros _].
    apply guarantees_then; [sure | intros connected].
    destruct (negb connected); [sure|].
    apply guarantees_then; [sure | intros secretKey].
    apply guarantees_then; [sure | intros keypair].
    apply guarantees_then; [sure | intros identity].
    apply guarantees_then; [sure | intros _].
    apply guarantees_then; [sure | intros _].
    apply (guarantees_bind _ (fun funded => funded = false)).
    + apply guarantees_try_catch.
      * apply guarantees_then; [sure | intros _].
        apply (guarantees_bind _ (fun balance => (balance < 1000000000)%Z)).
        { apply guarantees_perform; [reflexivity|].
          intros w balance w' H. exact (Hpoor _ _ _ _ H). }
        intros balance Hbalance.
        apply guarantees_then; [sure | intros _].
        apply guarantees_then; [sure | intros _].
        destruct (Z.ltb_spec balance 1000000000) as [_|Hge]; [|lia].
        apply guarantees_then; [sure | intros _].
        apply guarantees_then; [sure | intros _].
        now apply guarantees_ret.
      * intros e. apply guarantees_then; [sure | intros _]. now apply guarantees_ret.
    + intros funded ->. cbn [negb]. sure.
  - intros privateKey w w1 e w2 Hkey Htruthy Humi Hslot.
    unfold main_compressed. rewrite Hkey, Htruthy. cbn [negb].
    unfold bind at 1. unfold perform at 1. rewrite Humi.
    unfold bind at 1. unfold try_catch at 1. unfold bind at 1. unfold perform at 1.
    rewrite Hslot. reflexivity.
Qed.

(** A wallet with half a SOL: nothing is created, uploaded or minted; and
    a node that does not answer [getSlot]: the script ends after the
    failure is logged. *)
Lemma compressed_script_gates_witness :
  existsb (on_call tree_upload_or_mint) (snd (main_compressed poor Scripted.env_ok 0)) = false
  /\ main_compressed (Scripted.world Scripted.ok slot_fails) Scripted.env_ok 0
     = (Ret tt, 2,
        [Call (CreateUmi devnet_url); Call GetSlot;
         ConsoleError [T "Failed to connect to RPC:"; ErrArg (Scripted.failure 1)]]).
Proof.
  split.
  - refine (proj1 (proj1 (compressed_script_gates poor Scripted.env_ok) _ 0)).
    intros address w balance w' H. vm_compute in H. injection H as <- _. reflexivity.
  - exact (proj2 (compressed_script_gates (Scripted.world Scripted.ok slot_fails)
                    Scripted.env_ok)
             "secret" 0 1 (Scripted.failure 1) 2 eq_refl eq_refl eq_refl eq_refl).
Defined.

(* ================================================================== *)
(** * How often the loops call and wait *)
(* ================================================================== *)

Lemma count_app (p : event -> bool) (t u : list event) :
  count p (t ++ u) = count p t + count p u.
Proof. unfold count. now rewrite filter_app, length_app. Qed.

Section RetryBounds.
Context {W A R : Type}.
Variables (attempt : M W A) (failed exhausted : string) (is_truthy : A -> bool).
Variables (p : forall R, call R -> bool) (c : call R).

(** Of the calls of the kind [p] and the waits, every attempt makes the
    call [c] and nothing else; and it answers. *)
Hypothesis one_call :
  forall w, filter (call_or_wait p) (snd (attempt w)) = [Call c]
            /\ fst (fst (attempt w)) <> OutOfFuel.

Lemma spaced_next (e : event) (n : nat) :
  1 <= n -> (e :: Sleep 5000 :: spaced e n)%list = spaced e (S n).
Proof. destruct n as [|n]; [lia | reflexivity]. Qed.

Lemma retry_loop_bounds (fuel n : nat) (w : W) :
  n < maxRetries -> maxRetries - n <= fuel ->
  (exists k, 1 <= k <= maxRetries - n
             /\ filter (call_or_wait p) (snd (retry_loop attempt failed fuel n w))
                = spaced (Call c) k)
  /\ fst (fst (retry_loop attempt failed fuel n w)) <> OutOfFuel.
Proof.
  revert n w. induction fuel as [|fuel IH]; intros n w Hn Hfuel; [lia|].
  assert (Hlt : (n <? maxRetries)%nat = true) by now apply Nat.ltb_lt.
  destruct (one_call w) as [Hc Hr].
  destruct (attempt w) as [[[v|e|] w1] t1] eqn:Hatt; cbn [fst snd] in *; [| |congruence].
  - rewrite (retry_loop_success attempt failed fuel n w v w1 t1 Hlt Hatt). cbn [fst snd].
    split; [|discriminate]. exists 1. split; [lia | exact Hc].
  - destruct (S n =? maxRetries)%nat eqn:Heq.
    + rewrite (retry_loop_last attempt failed fuel n w e w1 t1 Hlt Heq Hatt). cbn [fst snd].
      split; [|discriminate]. exists 1. split; [lia | exact Hc].
    + rewrite (retry_loop_failed attempt failed fuel n w e w1 t1 Hlt Heq Hatt).
      apply Nat.eqb_neq in Heq.
      destruct (IH (S n) w1 ltac:(lia) ltac:(lia)) as [[k [Hk Hs]] Hr2].
      destruct (retry_loop attempt failed fuel (S n) w1) as [[r w2] t2]; cbn [fst snd] in *.
      split; [|exact Hr2]. exists (S k). split; [lia|].
      unfold retried. rewrite !filter_app, Hc, Hs.
      change (filter (call_or_wait p) [retry_log failed (Z.of_nat (S n)); Sleep 5000])
        with [Sleep 5000].
      cbn [app]. apply spaced_next. lia.
Qed.

Lemma with_retry_bounds :
  retried_within_bounds p c (with_retry attempt failed is_truthy exhausted).
Proof.
  intros w.
  destruct (retry_loop_bounds maxRetries 0 w) as [[k [Hk Hs]] Hr];
    [unfold maxRetries; lia | lia |].
  unfold with_retry, bind.
  destruct (retry_loop attempt failed maxRetries 0 w) as [[[[v|]|e|] w1] t1];
    cbn [fst snd] in *; [destruct (is_truthy v)| | |congruence];
    cbn [fst snd ret throw]; rewrite ?app_nil_r;
    (split; [|discriminate]); exists k; (split; [lia | exact Hs]).
Qed.

End RetryBounds.

(** X4: the three retry loops are bounded whatever the world answers.  Of
    the image upload of the single-NFT script, of its mint and of the
    collection mint of the per-user script, the calls of the operation and
    the waits are, in the order in which they happen: the call, at least
    once and at most three times, with one wait of five seconds after each
    call that another call follows, and no wait before the first call or
    after the last; and each loop comes to an end. *)
Theorem retries_are_bounded {W : Type} (ext : oracle W) (uri : string) :
  retried_within_bounds is_upload StorageUpload (upload_image ext)
  /\ retried_within_bounds is_create
       (NftsCreate uri "My First Test NFT" "TEST" false None) (mint_nft ext uri)
  /\ retried_within_bounds is_create
       (NftsCreate uri "My Collection NFT" "MECOL" true None) (mint_collection ext uri).
Proof.
  split; [|split]; apply with_retry_bounds; intros w.
  - unfold bind, perform, console_log, emit, ret.
    destruct (ext _ StorageUpload w) as [[e|imageUri] w1]; cbn;
      (split; [reflexivity | discriminate]).
  - unfold perform.
    destruct (ext _ (NftsCreate uri "My First Test NFT" "TEST" false None) w) as [[e|out] w1];
      cbn; (split; [reflexivity | discriminate]).
  - unfold bind, perform, console_log, emit, ret, throw.
    destruct (ext _ (NftsCreate uri "My Collection NFT" "MECOL" true None) w)
      as [[e|result] w1]; cbn.
    + split; [reflexivity | discriminate].
    + destruct (ext _ (ConfirmTransaction (response_signature result)) w1) as [[e|[err|]] w2];
        cbn; (split; [reflexivity | discriminate]).
Qed.

Section Unconfirmed.
Context {W : Type} (ext : oracle W) (uri : string).

Hypothesis created :
  forall w, exists out w',
      ext _ (NftsCreate uri "My Collection NFT" "MECOL" true None) w = (inr out, w').
Hypothesis not_confirmed :
  forall s w, exists e w', ext _ (ConfirmTransaction s) w = (inr (Some e), w').

(** One pass of the collection loop: the NFT is created, the confirmation
    reports an error, the pass throws. *)
Lemma collection_attempt_unconfirmed (w : W) :
  exists e w' t,
    (result <- perform ext (NftsCreate uri "My Collection NFT" "MECOL" true None);;
     let signature := result.(response_signature) in
     console_log [T "Collection transaction signature:"; T signature];;
     err <- perform ext (ConfirmTransaction signature);;
     match err with
     | Some e => throw (Error [Txt "Collection transaction failed: "; Txt e])
     | None => ret tt
     end;;
     console_log [T "Collection NFT minted successfully:"; T result.(nft_address)];;
     ret result) w
    = (Throw (Error [Txt "Collection transaction failed: "; Txt e]), w', t)
    /\ count (on_call is_create) t = 1 /\ sleeps t = 0.
Proof.
  destruct (created w) as [out [w1 Hcreate]].
  destruct (not_confirmed out.(response_signature) w1) as [e [w2 Hconfirm]].
  exists e, w2. eexists.
  unfold bind, perform, console_log, emit. rewrite Hcreate. cbn. rewrite Hconfirm. cbn.
  split; [reflexivity|]. split; reflexivity.
Qed.

End Unconfirmed.

(** X5: a collection NFT whose transaction is not confirmed is created
    again.  The loop around the collection mint retries the whole of its
    body: when every [create] succeeds and every confirmation reports an
    error, the per-user script creates the collection NFT three times, with
    two waits, and ends with the error of the third confirmation. *)
Theorem unconfirmed_collection_is_created_again {W : Type} (ext : oracle W) (uri : string)
  (w : W) :
  (forall w, exists out w',
        ext _ (NftsCreate uri "My Collection NFT" "MECOL" true None) w = (inr out, w')) ->
  (forall s w, exists e w', ext _ (ConfirmTransaction s) w = (inr (Some e), w')) ->
  exists e w' t,
    mint_collection ext uri w
    = (Throw (Error [Txt "Collection transaction failed: "; Txt e]), w', t)
    /\ count (on_call is_create) t = 3 /\ sleeps t = 2.
Proof.
  intros Hcreated Hnot.
  destruct (collection_attempt_unconfirmed ext uri Hcreated Hnot w)
    as [e1 [w1 [t1 [H1 [Hc1 Hs1]]]]].
  destruct (collection_attempt_unconfirmed ext uri Hcreated Hnot w1)
    as [e2 [w2 [t2 [H2 [Hc2 Hs2]]]]].
  destruct (collection_attempt_unconfirmed ext uri Hcreated Hnot w2)
    as [e3 [w3 [t3 [H3 [Hc3 Hs3]]]]].
  exists e3, w3, (retried "Collection minting failed" 1 t1
                  ++ retried "Collection minting failed" 2 t2 ++ t3)%list.
  split.
  - unfold mint_collection. apply with_retry_of_throw. unfold maxRetries at 1.
    rewrite (retry_loop_failed _ _ 2 0 w _ w1 t1 eq_refl eq_refl H1).
    rewrite (retry_loop_failed _ _ 1 1 w1 _ w2 t2 eq_refl eq_refl H2).
    now rewrite (retry_loop_last _ _ 0 2 w2 _ w3 t3 eq_refl eq_refl H3).
  - unfold retried. rewrite !count_app, !sleeps_app, Hc1, Hc2, Hc3, Hs1, Hs2, Hs3.
    split; reflexivity.
Qed.

(** In the world whose confirmations all report [InstructionError]. *)
Lemma unconfirmed_collection_witness :
  exists e w' t,
    mint_collection unconfirmed "https://arweave.net/metadata" 0
    = (Throw (Error [Txt "Collection transaction failed: "; Txt e]), w', t)
    /\ count (on_call is_create) t = 3 /\ sleeps t = 2.
Proof.
  apply (unconfirmed_collection_is_created_again unconfirmed "https://arweave.net/metadata" 0).
  - intros w. do 2 eexists. reflexivity.
  - intros s w. do 2 eexists. reflexivity.
Defined.

Section PerUserWaits.
Context {W : Type} (ext : oracle W).

Lemma mintNFTForUser_no_sleep (user : User) (imageUri : string)
  (collectionNft : CreateNftOutput) (w : W) :
  filter is_sleep (snd (mintNFTForUser ext user imageUri collectionNft w)) = []
  /\ fst (fst (mintNFTForUser ext user imageUri collectionNft w)) <> OutOfFuel.
Proof.
  unfold mintNFTForUser.
  destruct (negb (truthy_opt (solanaAddress user))); [split; [reflexivity | discriminate]|].
  unfold try_catch, bind, perform, console_log, console_error, emit, throw, ret.
  repeat (first [ match goal with
                  | |- context [ext ?R ?c ?w0] => destruct (ext R c w0) as [[?|?] ?]
                  end
                | match goal with
                  | |- context [match ?x with Some _ => _ | None => _ end] => destruct x
                  end ]; cbn);
    (split; [reflexivity | discriminate]).
Qed.

End PerUserWaits.

(** X8: the per-user loop waits two seconds after every user it has
    minted for, the last one included (the batch loop of the compressed-NFT
    script waits between batches only).  A run over [n] users that ends
    well has waited [n] times; a run that a failure ends has waited fewer
    than [n] times; the loop waits for nothing else and comes to an end. *)
Theorem per_user_loop_waits_after_every_user {W : Type} (ext : oracle W) (users : list User)
  (imageUri : string) (collectionNft : CreateNftOutput) (w : W) :
  exists k,
    filter is_sleep (snd (mint_users ext users imageUri collectionNft w))
    = repeat (Sleep 2000) k
    /\ match fst (fst (mint_users ext users imageUri collectionNft w)) with
       | Ret _ => k = List.length users
       | Throw _ => k < List.length users
       | OutOfFuel => False
       end.
Proof.
  unfold mint_users. revert w. induction users as [|user users IH]; intros w.
  - exists 0. split; reflexivity.
  - cbn [for_of]. unfold bind, console_log, sleep, emit in *.
    destruct (mintNFTForUser_no_sleep ext user imageUri collectionNft w) as [Hs Hr].
    destruct (mintNFTForUser ext user imageUri collectionNft w) as [[[[]|e|] w1] t1];
      cbn [fst snd] in *; [| |congruence].
    + destruct (IH w1) as [k [Hk Hout]].
      destruct (for_of users _ w1) as [[r w2] t2]; cbn [fst snd] in *.
      exists (S k). split.
      * cbn [app filter is_sleep]. rewrite !filter_app, Hs, Hk. reflexivity.
      * destruct r; cbn [List.length]; [now f_equal | lia | exact Hout].
    + exists 0. cbn [fst snd app filter is_sleep]. rewrite Hs.
      split; [reflexivity | cbn; lia].
Qed.

(** X12: [mintNFTForUser] refuses a user whose address is falsy (the empty
    string that [readUsersFromCSV] lets through, for one) before it calls
    anything, and the refusal is thrown on like any other failure: in the
    per-user loop the user is announced, nothing is uploaded, minted or
    waited for, and the users after it are not started. *)
Theorem user_without_address_ends_the_loop {W : Type} (ext : oracle W) (user : User)
  (imageUri : string) (collectionNft : CreateNftOutput) (before rest : list User)
  (w w1 : W) (t0 : list event) :
  truthy_opt user.(solanaAddress) = false ->
  mint_users ext before imageUri collectionNft w = (Ret tt, w1, t0) ->
  let refusal := Error [Txt "No Solana address found for user "; Txt user.(user_id)] in
  mintNFTForUser ext user imageUri collectionNft w1 = (Throw refusal, w1, [])
  /\ mint_users ext (before ++ user :: rest) imageUri collectionNft w
     = (Throw refusal, w1, (t0 ++ [user_started user])%list).
Proof.
  intros Hfalsy Hbefore refusal. subst refusal.
  assert (Hrefused : mintNFTForUser ext user imageUri collectionNft w1
                     = (Throw (Error [Txt "No Solana address found for user ";
                                      Txt user.(user_id)]), w1, [])).
  { unfold mintNFTForUser. now rewrite Hfalsy. }
  split; [exact Hrefused|].
  unfold mint_users in *. rewrite (for_of_app _ _ _ _ _ _ Hbefore).
  cbn [for_of]. unfold bind at 1. unfold bind at 1. unfold console_log, emit.
  unfold bind at 1. rewrite Hrefused. reflexivity.
Qed.

(** The user with the empty address, first of two. *)
Lemma user_without_address_witness :
  mint_users (Scripted.world Scripted.ok Scripted.never)
    ([] ++ user_without_address :: [mkUser "u2" (Some (JStr "Addr2"))])
    "image" (mkCreateNftOutput "Collection" None "sig") 0
  = (Throw (Error [Txt "No Solana address found for user "; Txt "42"]), 0,
     ([] ++ [user_started user_without_address])%list).
Proof.
  exact (proj2 (user_without_address_ends_the_loop
                  (Scripted.world Scripted.ok Scripted.never) user_without_address
                  "image" (mkCreateNftOutput "Collection" None "sig") []
                  [mkUser "u2" (Some (JStr "Addr2"))] 0 0 [] eq_refl eq_refl)).
Defined.

(* ================================================================== *)
(** * What is minted is what was prepared *)
(* ================================================================== *)

Lemma other_than_same (s : string) : other_than s s = false.
Proof. unfold other_than. now rewrite String.eqb_refl. Qed.

Section Prepared.
Context {W : Type} (ext : oracle W).

Lemma mint_one_guarantees (p : forall R, call R -> bool) (merkleTree metadataUri : string)
  (address : option jsval) :
  (forall a, p _ (PublicKey a) = false) ->
  (forall leafOwner, p _ (MintV1 leafOwner merkleTree metadataUri) = false) ->
  p _ BuilderSendAndConfirm = false ->
  guarantees p (fun _ => True) (mint_one ext merkleTree metadataUri address).
Proof.
  intros Hkey Hmint Hsend. unfold mint_one.
  apply guarantees_try_catch; [|intros e; sure].
  apply guarantees_then; [apply guarantees_perform; [apply Hkey | intros; exact I]|].
  intros leafOwner.
  apply guarantees_then; [apply guarantees_perform; [apply Hmint | intros; exact I]|].
  intros _.
  apply guarantees_then; [apply guarantees_perform; [apply Hsend | intros; exact I]|].
  intros _. sure.
Qed.

Lemma batch_loop_guarantees (p : forall R, call R -> bool) (merkleTree metadataUri : string)
  (addrs : list (option jsval)) (fuel i : nat) :
  (forall a, p _ (PublicKey a) = false) ->
  (forall leafOwner, p _ (MintV1 leafOwner merkleTree metadataUri) = false) ->
  p _ BuilderSendAndConfirm = false ->
  List.length addrs - i <= fuel ->
  guarantees p (fun _ => True) (batch_loop ext merkleTree metadataUri addrs fuel i).
Proof.
  intros Hkey Hmint Hsend. revert i. induction fuel as [|fuel IH]; intros i Hfuel.
  - assert (Hge : (i <? List.length addrs)%nat = false) by (apply Nat.ltb_ge; lia).
    change (batch_loop ext merkleTree metadataUri addrs 0 i)
      with (if (i <? List.length addrs)%nat then @diverge W unit else ret tt).
    rewrite Hge. now apply guarantees_ret.
  - rewrite batch_loop_unfold.
    destruct (i <? List.length addrs)%nat eqn:Hlt; [|now apply guarantees_ret].
    apply guarantees_then; [sure | intros _].
    apply guarantees_then.
    { apply guarantees_for_of. intros address. now apply mint_one_guarantees. }
    intros _.
    apply guarantees_then; [sure | intros _].
    apply IH. apply Nat.ltb_lt in Hlt. unfold batchSize. lia.
Qed.

End Prepared.

(** X13: the single-NFT script mints what it uploaded.  If [imageUri] is
    what the storage answers an image upload with and [metadataUri] what it
    answers a metadata upload with, then every metadata upload of [main]
    names [imageUri] as its image and every [create] names [metadataUri],
    on the first attempt and on every retry. *)
Theorem single_nft_is_minted_with_its_uploads {W : Type} (ext : oracle W)
  (argv2 : option string) (env : Env) (imageUri metadataUri : string) :
  (forall w uri w', ext _ StorageUpload w = (inr uri, w') -> uri = imageUri) ->
  (forall name description image attributes w uri w',
      ext _ (UploadMetadata name description image attributes) w = (inr uri, w') ->
      uri = metadataUri) ->
  guarantees (misdirected imageUri metadataUri) (fun _ => True) (main ext argv2 env).
Proof.
  intros Himage Hmeta. unfold main.
  apply guarantees_then; [apply setup_guarantees; reflexivity | intros wallet].
  apply guarantees_try_catch; [|intros e; sure].
  apply guarantees_then; [sure | intros imageBuffer].
  apply guarantees_then; [sure | intros _].
  apply (guarantees_bind _ (fun uri => uri = imageUri /\ truthy_string (Some uri) = true)).
  { apply upload_image_guarantees; [reflexivity | exact Himage]. }
  intros uri [-> _].
  apply (guarantees_bind _ (fun uri => uri = metadataUri)).
  { apply guarantees_perform; [apply other_than_same|].
    intros w r w' H. exact (Hmeta _ _ _ _ _ _ _ H). }
  intros uri ->.
  apply guarantees_then; [sure | intros _].
  apply guarantees_then; [|intros nft; sure].
  unfold mint_nft. apply guarantees_retried.
  apply guarantees_perform; [apply other_than_same | intros; exact I].
Qed.

(** The world that answers every upload with the same two URIs. *)
Lemma single_nft_witness :
  existsb (on_call (misdirected "https://arweave.net/image" "https://arweave.net/metadata"))
    (snd (main (Scripted.world Scripted.ok Scripted.never) None Scripted.env_ok 0)) = false.
Proof.
  refine (proj1 (single_nft_is_minted_with_its_uploads
                   (Scripted.world Scripted.ok Scripted.never) None Scripted.env_ok
                   "https://arweave.net/image" "https://arweave.net/metadata" _ _ 0)).
  - intros w uri w' H. vm_compute in H. injection H as <- _. reflexivity.
  - intros name description image attributes w uri w' H.
    vm_compute in H. injection H as <- _. reflexivity.
Defined.

Section PreparedCollection.
Context {W : Type} (ext : oracle W).

(** The collection mint returns what a [create] of the collection NFT
    answered. *)
Lemma mint_collection_created (p : forall R, call R -> bool) (Q : CreateNftOutput -> Prop)
  (uri : string) :
  p _ (NftsCreate uri "My Collection NFT" "MECOL" true None) = false ->
  (forall s, p _ (ConfirmTransaction s) = false) ->
  (forall w out w',
      ext _ (NftsCreate uri "My Collection NFT" "MECOL" true None) w = (inr out, w') ->
      Q out) ->
  guarantees p Q (mint_collection ext uri).
Proof.
  intros Hcreate Hconfirm HQ. unfold mint_collection.
  eapply guarantees_weaken; [|apply guarantees_with_retry]; [intros a [H _]; exact H|].
  apply (guarantees_bind _ Q); [now apply guarantees_perform|].
  intros result Hresult.
  apply guarantees_then; [sure | intros _].
  apply guarantees_then; [apply guarantees_perform; [apply Hconfirm | intros; exact I]|].
  intros err.
  apply guarantees_then; [destruct err; sure | intros _].
  apply guarantees_then; [sure | intros _]. now apply guarantees_ret.
Qed.

End PreparedCollection.

Section Sourced.
Context {W : Type} (ext : oracle W) (uri_of : upload_args -> string) (collection : string).

Lemma sourced_app (t1 t2 : list event) (uploaded : option upload_args) :
  sourced uri_of collection uploaded t1 ->
  sourced uri_of collection (last_upload uploaded t1) t2 ->
  sourced uri_of collection uploaded (t1 ++ t2).
Proof.
  revert uploaded. induction t1 as [|e t1 IH]; intros uploaded H1 H2; [exact H2|].
  destruct e as [args|args|ms|R c]; cbn [app sourced last_upload] in *; try now apply IH.
  destruct c; try now apply IH.
  destruct H1 as [Hcheck H1]. split; [exact Hcheck | now apply IH].
Qed.

(** Events without a metadata upload and without a [create] change
    nothing. *)
Lemma sourced_neutral (t : list event) (uploaded : option upload_args) :
  existsb (on_call metadata_or_create) t = false ->
  sourced uri_of collection uploaded t /\ last_upload uploaded t = uploaded.
Proof.
  induction t as [|e t IH]; intros H; [now split|].
  cbn [existsb] in H. apply orb_false_iff in H as [He Ht].
  destruct e as [args|args|ms|R c]; cbn [sourced last_upload]; try now apply IH.
  destruct c; cbn in He; try discriminate He; now apply IH.
Qed.

Lemma well_sourced_of_guarantees {A} (Q : A -> Prop) (m : M W A) :
  guarantees metadata_or_create Q m -> well_sourced uri_of collection m.
Proof. intros H w uploaded. now apply sourced_neutral, H. Qed.

Lemma well_sourced_ret {A} (a : A) : @well_sourced W A uri_of collection (ret a).
Proof. intros w uploaded. exact I. Qed.

Lemma well_sourced_throw {A} (e : exn) : @well_sourced W A uri_of collection (throw e).
Proof. intros w uploaded. exact I. Qed.

Lemma well_sourced_bind {A B} (m : M W A) (k : A -> M W B) :
  well_sourced uri_of collection m -> (forall a, well_sourced uri_of collection (k a)) ->
  well_sourced uri_of collection (bind m k).
Proof.
  intros Hm Hk w uploaded. unfold bind. specialize (Hm w uploaded).
  destruct (m w) as [[[a|e|] w1] t1]; cbn [snd] in *; try exact Hm.
  specialize (Hk a w1 (last_upload uploaded t1)).
  destruct (k a w1) as [[r w2] t2]; cbn [snd] in *. now apply sourced_app.
Qed.

(** The same, with what [m] returns known to satisfy [Q]. *)
Lemma well_sourced_bind_post {A B} (Q : A -> Prop) (m : M W A) (k : A -> M W B) :
  guarantees no_call Q m ->
  well_sourced uri_of collection m -> (forall a, Q a -> well_sourced uri_of collection (k a)) ->
  well_sourced uri_of collection (bind m k).
Proof.
  intros HQ Hm Hk w uploaded. unfold bind. specialize (Hm w uploaded).
  destruct (HQ w) as [_ Hpost].
  destruct (m w) as [[[a|e|] w1] t1]; cbn [fst snd] in *; try exact Hm.
  specialize (Hk a Hpost w1 (last_upload uploaded t1)).
  destruct (k a w1) as [[r w2] t2]; cbn [snd] in *. now apply sourced_app.
Qed.

Lemma well_sourced_try_catch {A} (body : M W A) (handler : exn -> M W A) :
  well_sourced uri_of collection body ->
  (forall e, well_sourced uri_of collection (handler e)) ->
  well_sourced uri_of collection (try_catch body handler).
Proof.
  intros Hb Hh w uploaded. unfold try_catch. specialize (Hb w uploaded).
  destruct (body w) as [[[a|e|] w1] t1]; cbn [snd] in *; try exact Hb.
  specialize (Hh e w1 (last_upload uploaded t1)).
  destruct (handler e w1) as [[r w2] t2]; cbn [snd] in *. now apply sourced_app.
Qed.

Lemma well_sourced_for_of {A} (xs : list A) (body : A -> M W unit) :
  (forall x, well_sourced uri_of collection (body x)) ->
  well_sourced uri_of collection (for_of xs body).
Proof.
  intros Hb. induction xs as [|x xs IH]; cbn [for_of].
  - apply well_sourced_ret.
  - apply well_sourced_bind; [apply Hb | intros _; exact IH].
Qed.

Lemma well_sourced_retry_loop {A} (attempt : M W A) (failed : string) (fuel n : nat) :
  well_sourced uri_of collection attempt ->
  well_sourced uri_of collection (retry_loop attempt failed fuel n).
Proof.
  intros Hatt. revert n. induction fuel as [|fuel IH]; intros n.
  - change (retry_loop attempt failed 0 n)
      with (if (n <? maxRetries)%nat then @diverge W (option A) else ret None).
    destruct (n <? maxRetries)%nat; intros w uploaded; exact I.
  - rewrite retry_loop_unfold.
    destruct (n <? maxRetries)%nat; [|apply well_sourced_ret].
    apply well_sourced_try_catch.
    + apply well_sourced_bind; [exact Hatt | intros v; apply well_sourced_ret].
    + intros e. destruct (S n =? maxRetries)%nat; [apply well_sourced_throw|].
      apply well_sourced_bind; [intros w uploaded; exact I | intros _].
      apply well_sourced_bind; [intros w uploaded; exact I | intros _]. apply IH.
Qed.

(** What a [create] of a collection NFT, before or after a confirmation,
    leaves to check: nothing. *)
Lemma mint_collection_sourced (uri : string) :
  well_sourced uri_of collection (mint_collection ext uri).
Proof.
  unfold mint_collection, with_retry.
  apply well_sourced_bind.
  - apply well_sourced_retry_loop.
    apply well_sourced_bind.
    + intros w uploaded. unfold perform.
      destruct (ext _ (NftsCreate uri "My Collection NFT" "MECOL" true None) w)
        as [[e|out] w1]; cbn; (split; [discriminate | exact I]).
    + intros result. apply (well_sourced_of_guarantees (fun _ => True)).
      apply guarantees_then; [sure | intros _].
      apply guarantees_then; [sure | intros err].
      apply guarantees_then; [destruct err; sure | intros _]. sure.
  - intros [v|]; [|apply well_sourced_throw].
    cbn. apply well_sourced_ret.
Qed.

Hypothesis content_addressed_storage :
  forall name description image attributes w uri w',
    ext _ (UploadMetadata name description image attributes) w = (inr uri, w') ->
    uri = uri_of (name, description, image, attributes).

(** The [create] of [mintNFTForUser] names the answer to the upload it has
    just made for the user. *)
Lemma mintNFTForUser_sourced (user : User) (imageUri : string)
  (collectionNft : CreateNftOutput) :
  collectionNft.(nft_address) = collection ->
  well_sourced uri_of collection (mintNFTForUser ext user imageUri collectionNft).
Proof.
  intros Haddress w uploaded. unfold mintNFTForUser.
  destruct (negb (truthy_opt (solanaAddress user))); [exact I|].
  unfold try_catch, bind, perform, console_log, console_error, emit, throw, ret.
  destruct (ext _ (UploadMetadata "TestNFT"
                     [Txt "This is a special NFT for user "; Txt user.(user_id);
                      Txt " on Solana"]
                     imageUri
                     [("User ID", Txt user.(user_id));
                      ("Solana Address", Val user.(solanaAddress))]) w)
    as [[e|uri] w1] eqn:Hupload; [exact I|].
  apply content_addressed_storage in Hupload. subst uri.
  assert (Hcheck : false = false ->
                   Some collectionNft.(nft_address) = Some collection
                   /\ exists args,
                       Some ("TestNFT",
                             [Txt "This is a special NFT for user "; Txt user.(user_id);
                              Txt " on Solana"],
                             imageUri,
                             [("User ID", Txt user.(user_id));
                              ("Solana Address", Val user.(solanaAddress))]) = Some args
                       /\ uri_of ("TestNFT",
                                  [Txt "This is a special NFT for user "; Txt user.(user_id);
                                   Txt " on Solana"],
                                  imageUri,
                                  [("User ID", Txt user.(user_id));
                                   ("Solana Address", Val user.(solanaAddress))])
                          = uri_of args
                       /\ describes_user args).
  { intros _. split; [now rewrite Haddress|]. eexists. split; [reflexivity|].
    split; [reflexivity|]. now exists user.(user_id), user.(solanaAddress), imageUri. }
  repeat (first [ match goal with
                  | |- context [ext ?R ?c ?w0] => destruct (ext R c w0) as [[?|?] ?]
                  end
                | match goal with
                  | |- context [match ?x with Some _ => _ | None => _ end] => destruct x
                  end ]; cbn);
    (split; [exact Hcheck | exact I]).
Qed.

Lemma described_app (t u : list event) : described (t ++ u) = (described t ++ described u)%list.
Proof.
  induction t as [|e t IH]; [reflexivity|].
  destruct e as [args|args|ms|R c]; cbn [app described]; try exact IH.
  destruct c; try exact IH.
  destruct attributes as [|[k1 [id|n1|v1]] [|[k2 [s2|n2|address]] [|third rest]]]; try exact IH.
  cbn [app]. now rewrite IH.
Qed.

(** The one upload of [mintNFTForUser] describes its user; a user without
    address is refused before it. *)
Lemma mintNFTForUser_described (user : User) (imageUri : string)
  (collectionNft : CreateNftOutput) (w : W) :
  fst (fst (mintNFTForUser ext user imageUri collectionNft w)) <> OutOfFuel
  /\ (described (snd (mintNFTForUser ext user imageUri collectionNft w))
      = [(user.(user_id), user.(solanaAddress))]
      \/ (described (snd (mintNFTForUser ext user imageUri collectionNft w)) = []
          /\ exists e, fst (fst (mintNFTForUser ext user imageUri collectionNft w)) = Throw e)).
Proof.
  unfold mintNFTForUser.
  destruct (negb (truthy_opt (solanaAddress user))).
  - split; [discriminate|]. right. split; [reflexivity|]. eexists. reflexivity.
  - unfold try_catch, bind, perform, console_log, console_error, emit, throw, ret.
    repeat (first [ match goal with
                    | |- context [ext ?R ?c ?w0] => destruct (ext R c w0) as [[?|?] ?]
                    end
                  | match goal with
                    | |- context [match ?x with Some _ => _ | None => _ end] => destruct x
                    end ]; cbn);
      (split; [discriminate | left; reflexivity]).
Qed.

End Sourced.



(** X15: the compressed-NFT script mints into the tree it has just
    created, with the metadata it has just uploaded.  If [merkleTree] is
    the signer [generateSigner] answers with and [metadataUri] what the JSON
    upload answers with, then the only tree [main] creates is [merkleTree],
    with depth 15 and buffer size 64, and every mint, in every batch, goes
    into [merkleTree] with [metadataUri]. *)
Theorem compressed_nfts_join_the_new_tree {W : Type} (ext : oracle W) (env : Env)
  (merkleTree metadataUri : string) :
  (forall w signer w', ext _ GenerateSigner w = (inr signer, w') -> signer = merkleTree) ->
  (forall w uri w', ext _ UploadJson w = (inr uri, w') -> uri = metadataUri) ->
  guarantees (outside_tree merkleTree metadataUri) (fun _ => True) (main_compressed ext env).
Proof.
  intros Hsigner Hjson. unfold main_compressed.
  destruct (WALLET_PRIVATE_KEY env) as [privateKey|]; [|apply guarantees_throw].
  destruct (negb (truthy_string (Some privateKey))); [apply guarantees_throw|].
  apply guarantees_then; [sure | intros _].
  apply guarantees_then; [sure | intros connected].
  destruct (negb connected); [sure|].
  apply guarantees_then; [sure | intros secretKey].
  apply guarantees_then; [sure | intros keypair].
  apply guarantees_then; [sure | intros identity].
  apply guarantees_then; [sure | intros _].
  apply guarantees_then; [sure | intros _].
  apply guarantees_then; [sure | intros funded].
  destruct (negb funded); [sure|].
  apply (guarantees_bind _ (fun signer => signer = merkleTree)).
  { now apply guarantees_perform. }
  intros signer ->.
  apply guarantees_then; [sure | intros _].
  apply guarantees_then.
  { apply guarantees_perform; [|intros; exact I]. cbn. now rewrite other_than_same. }
  intros _.
  apply guarantees_then; [sure | intros _].
  apply guarantees_then; [sure | intros _].
  apply (guarantees_bind _ (fun uri => uri = metadataUri)).
  { now apply guarantees_perform. }
  intros uri ->.
  apply guarantees_then; [sure | intros _].
  apply guarantees_then; [sure | intros csvPath].
  apply guarantees_then; [sure | intros _].
  apply guarantees_then; [sure | intros fileContent].
  apply guarantees_then; [sure | intros records].
  apply guarantees_then; [apply collect_addresses_guarantees | intros solanaAddresses].
  apply guarantees_then; [sure | intros _].
  unfold batch_mint. apply batch_loop_guarantees; try reflexivity; [|lia].
  intros leafOwner. cbn. now rewrite !other_than_same.
Qed.

(** The world whose signer is [MerkleTree], with two rows to mint for. *)
Lemma compressed_nfts_witness :
  existsb (on_call (outside_tree "MerkleTree" "https://arweave.net/json"))
    (snd (main_compressed
            (Scripted.world (Scripted.mkCanned EmptyString two_rows) Scripted.never)
            Scripted.env_ok 0)) = false.
Proof.
  refine (proj1 (compressed_nfts_join_the_new_tree
                   (Scripted.world (Scripted.mkCanned EmptyString two_rows) Scripted.never)
                   Scripted.env_ok "MerkleTree" "https://arweave.net/json" _ _ 0)).
  - intros w signer w' H. vm_compute in H. injection H as <- _. reflexivity.
  - intros w uri w' H. vm_compute in H. injection H as <- _. reflexivity.
Defined.
